(** * Voice.ai text-to-speech SDK: transport layer and file pipelines

    A shallow embedding of [voice-ai-tts-sdk.js] (the [VoiceAI] client class,
    its error classes, the buffered transport [_request], the streaming
    transport [_streamRequest] and the public operations built on them),
    together with the properties of the transport that the specification
    states.

    Conventions.
    - A JavaScript string is represented by the bytes of its UTF-8 encoding
      (a [string]); a [Buffer] is a [list Byte.byte].
    - [undefined] is [None]; a defined JavaScript value read from JSON is a
      [json]; [null] is [JNull].
    - A promise is represented by the way it ends: [Resolved], [Rejected],
      [Pending] (never settled) or [Uncaught] (an exception escaped from an
      event callback, so the promise is never settled either).
    - Built-ins of the JavaScript runtime ([JSON.parse], [new URL], string
      coercion, UTF-8 decoding) are the operations of the class [Runtime];
      the remote server is a function from the request put on the wire to
      what the socket then delivers. *)

From Stdlib Require Import ZArith QArith String Ascii List Bool Lia.
From stdpp Require Import base option list strings pretty gmap.

Set Warnings "-register-all".

Open Scope Z_scope.
Open Scope string_scope.

(** ** JavaScript values *)

Definition Buffer := list Byte.byte.

(** A value read from JSON; a number is kept as the rational it denotes. *)
Inductive json : Type :=
  | JNull
  | JBool (b : bool)
  | JNum (q : Q)
  | JStr (s : string)
  | JArr (items : list json)
  | JObj (fields : list (string * json)).

(** Own-property lookup in an object literal read by [JSON.parse]: a later
    duplicate key overwrites an earlier one. *)
Fixpoint lookup_last (k : string) (fields : list (string * json)) : option json :=
  match fields with
  | [] => None
  | (k', v) :: rest =>
      match lookup_last k rest with
      | Some v' => Some v'
      | None => if String.eqb k k' then Some v else None
      end
  end.

(** [v.k] for the property names the SDK reads ([error], [detail],
    [voices]), none of which a prototype defines: reading a property of
    [null] throws a [TypeError] (the outer [None]); reading it from a
    primitive or an array gives [undefined]. *)
Definition member (v : json) (k : string) : option (option json) :=
  match v with
  | JNull => None
  | JObj fields => Some (lookup_last k fields)
  | _ => Some None
  end.

(** An object literal [{k1: v1, ...}]; properties whose value is
    [undefined] do not survive [JSON.stringify]. *)
Definition object_literal (props : list (string * option json)) : json :=
  JObj (omap (fun '(k, v) => match v with Some x => Some (k, x) | None => None end) props).

(** ** Constants *)

Definition BASE_URL : string := "https://dev.voice.ai".
Definition API_VERSION : string := "v1".

(** ** Error classes *)

Inductive ErrorName : Type :=
  | VoiceAIError
  | AuthenticationError
  | PaymentRequiredError
  | NotFoundError
  | ValidationError
  | RateLimitError.

(** [this.code] is a number, or the string ['TIMEOUT']. *)
Inductive ErrorCode : Type :=
  | NumCode (n : Z)
  | StrCode (s : string).

Record SdkError : Type := mkSdkError {
  name : ErrorName;
  message : string;
  code : ErrorCode;
  details : json
}.

(** Everything a promise of the SDK can be rejected with. *)
Inductive Exn : Type :=
  | Sdk (e : SdkError)
  | TypeError (msg : string)
  | SyntaxError (msg : string)
  | SystemError (cause : string).

(** The error taxonomy of the specification, read off the class and the
    code of an error value. *)
Inductive Kind : Type :=
  | AUTHENTICATION
  | PAYMENT_REQUIRED
  | NOT_FOUND
  | VALIDATION
  | RATE_LIMIT
  | GENERIC
  | TIMEOUT.

Definition kind_of (e : SdkError) : Kind :=
  match name e with
  | AuthenticationError => AUTHENTICATION
  | PaymentRequiredError => PAYMENT_REQUIRED
  | NotFoundError => NOT_FOUND
  | ValidationError => VALIDATION
  | RateLimitError => RATE_LIMIT
  | VoiceAIError =>
      match code e with
      | StrCode s => if String.eqb s "TIMEOUT" then TIMEOUT else GENERIC
      | NumCode _ => GENERIC
      end
  end.

(** The kind of the error a promise was rejected with, when it is an
    error of the SDK. *)
Definition kind_of_rejection (e : Exn) : option Kind :=
  match e with
  | Sdk e' => Some (kind_of e')
  | _ => None
  end.

(** The mapping from status codes to kinds that the specification
    documents. *)
Definition kind_of_status (status : Z) : Kind :=
  match status with
  | 401 => AUTHENTICATION
  | 402 => PAYMENT_REQUIRED
  | 404 => NOT_FOUND
  | 422 => VALIDATION
  | 429 => RATE_LIMIT
  | _ => GENERIC
  end.

(** [error instanceof AuthenticationError] *)
Definition instanceof_AuthenticationError (e : Exn) : bool :=
  match e with
  | Sdk e' => match name e' with AuthenticationError => true | _ => false end
  | _ => false
  end.

(** ** Promises and the world they run in *)

Inductive Outcome (A : Type) : Type :=
  | Resolved (a : A)
  | Rejected (e : Exn)
  | Uncaught (e : Exn)
  | Pending.
Arguments Resolved {A} a.
Arguments Rejected {A} e.
Arguments Uncaught {A} e.
Arguments Pending {A}.

Definition kind_of_outcome {A : Type} (o : Outcome A) : option Kind :=
  match o with
  | Rejected e => kind_of_rejection e
  | _ => None
  end.

(** ** URLs and requests *)

Record URL : Type := mkURL {
  protocol : string;
  hostname : string;
  port : string;
  pathname : string;
  search : string;
  searchParams : list (string * string)
}.

(** The object given to [https.request]. [ro_headers] is its [headers]
    object, with the keys as they are written: the names of headers do
    not depend on case once they are sent, so what a request carries under
    a name is read with [on_wire], which asks that no other key spells the
    same name. *)
Record RequestOptions : Type := mkRequestOptions {
  ro_method : string;
  ro_hostname : string;
  ro_path : string;
  ro_port : string;
  ro_headers : gmap string string;
  ro_timeout : option N
}.

(** What a caller passes as [options.body]: a value that JSON describes,
    or a payload that is a string. The transports are modelled for the
    bodies that [req.write] takes: an object or an array that is not sent
    as form data, a string, or a value that is falsy and so not sent. *)
Inductive Body : Type :=
  | BodyObject (j : json)
  | BodyRaw (s : string).

(** What [req.write] put on the wire: the JSON text of a value
    ([JSON.stringify]), or a payload sent verbatim. *)
Inductive Written : Type :=
  | WJson (j : json)
  | WRaw (b : Body).

Record Response : Type := mkResponse {
  statusCode : Z;
  headers : gmap string string;
  chunks : list Buffer
}.

(** What the socket delivers for one request, for the servers that are
    considered: a connection error, nothing at all, or a response that
    arrives whole, its body ended, where [latency] is the longest time in
    milliseconds for which the socket stays idle on the way, before the
    first byte or between two chunks. A response that stops midway, with
    the connection left open or closed, is not among them. *)
Inductive NetEvent : Type :=
  | NetError (cause : string)
  | NetSilent
  | NetReply (latency : N) (res : Response).
Arguments NetReply latency%_N res.

Definition Server : Type := RequestOptions -> option Written -> NetEvent.

(** The observable world: the files on disk, the paths the operating
    system refuses to open for writing, the requests put on the wire so far,
    and the texts handed to [JSON.parse] so far. *)
Record World : Type := mkWorld {
  fs : gmap string Buffer;
  unwritable : gset string;
  sent : list (RequestOptions * option Written);
  parsed : list string
}.

Definition Async (A : Type) : Type := World -> Outcome A * World.

Definition resolve {A : Type} (a : A) : Async A := fun w => (Resolved a, w).
Definition throw {A : Type} (e : Exn) : Async A := fun w => (Rejected e, w).

(** [await]: the continuation runs only when the awaited promise
    resolves. *)
Definition await {A B : Type} (m : Async A) (k : A -> Async B) : Async B :=
  fun w =>
    match m w with
    | (Resolved a, w') => k a w'
    | (Rejected e, w') => (Rejected e, w')
    | (Uncaught e, w') => (Uncaught e, w')
    | (Pending, w') => (Pending, w')
    end.

#[global] Instance Async_ret : MRet Async := @resolve.
#[global] Instance Async_bind : MBind Async := fun A B k m => await m k.

(** [try { await m; ... } catch (error) { handler }] *)
Definition try_catch {A : Type} (m : Async A) (handler : Exn -> Async A) : Async A :=
  fun w =>
    match m w with
    | (Rejected e, w') => handler e w'
    | r => r
    end.

(** ** Synchronous evaluation

    A JavaScript expression either yields a value or throws. *)

Inductive Completion (A : Type) : Type :=
  | Normal (a : A)
  | Throw (e : Exn).
Arguments Normal {A} a.
Arguments Throw {A} e.

#[global] Instance Completion_ret : MRet Completion := @Normal.
#[global] Instance Completion_bind : MBind Completion :=
  fun A B k c => match c with Normal a => k a | Throw e => Throw e end.

(** An exception thrown while an event callback runs escapes to the event
    loop: the promise the callback was meant to settle stays unsettled. *)
Definition in_callback {A : Type} (c : Completion (Outcome A)) : Outcome A :=
  match c with
  | Normal o => o
  | Throw e => Uncaught e
  end.

(** An exception thrown in the body of an [async] function (or inside a
    promise executor) rejects its promise. *)
Definition in_async {A : Type} (c : Completion (Async A)) : Async A :=
  match c with
  | Normal m => m
  | Throw e => throw e
  end.

(** ** The JavaScript runtime *)

Class Runtime : Type := {
  (** [JSON.parse(text)]; [None] is a [SyntaxError]. *)
  JSON_parse : string -> option json;
  (** [new URL(input, base)]; [None] is a [TypeError]. *)
  URL_new : string -> string -> option URL;
  (** [String(x)] for a number [x]. *)
  Number_toString : Q -> string;
  (** [String(o)] for an array or an object [o]; [None] is the [TypeError]
      of an object that cannot be converted to a primitive. *)
  Object_toString : json -> option string;
  (** [buffer.toString()], UTF-8 decoding. *)
  Buffer_toString : Buffer -> string
}.

(** ** Query-string serialisation (the [application/x-www-form-urlencoded]
    serialiser behind [URLSearchParams]) *)

Definition hex_digit (n : N) : ascii :=
  match n with
  | 0%N => "0" | 1%N => "1" | 2%N => "2" | 3%N => "3"
  | 4%N => "4" | 5%N => "5" | 6%N => "6" | 7%N => "7"
  | 8%N => "8" | 9%N => "9" | 10%N => "A" | 11%N => "B"
  | 12%N => "C" | 13%N => "D" | 14%N => "E" | _ => "F"
  end%char.

Definition between (lo hi : N) (c : ascii) : bool :=
  (lo <=? N_of_ascii c)%N && (N_of_ascii c <=? hi)%N.

(** The bytes the serialiser leaves as they are: ASCII letters and digits
    and [*], [-], [.], [_]. *)
Definition urlencoded_safe (c : ascii) : bool :=
  between 48 57 c || between 65 90 c || between 97 122 c
  || Ascii.eqb c "*" || Ascii.eqb c "-" || Ascii.eqb c "." || Ascii.eqb c "_".

Definition urlencoded_byte (c : ascii) : string :=
  if urlencoded_safe c then String c ""
  else if Ascii.eqb c " " then "+"
  else String "%" (String (hex_digit (N_of_ascii c / 16))
                     (String (hex_digit (N_of_ascii c mod 16)) "")).

Fixpoint urlencoded_string (s : string) : string :=
  match s with
  | "" => ""
  | String c rest => urlencoded_byte c ++ urlencoded_string rest
  end.

Fixpoint urlencoded_serialize (pairs : list (string * string)) : string :=
  match pairs with
  | [] => ""
  | [(k, v)] => urlencoded_string k ++ "=" ++ urlencoded_string v
  | (k, v) :: rest =>
      urlencoded_string k ++ "=" ++ urlencoded_string v ++ "&" ++ urlencoded_serialize rest
  end.

Fixpoint all_chars (ok : ascii -> bool) (s : string) : bool :=
  match s with
  | "" => true
  | String c rest => ok c && all_chars ok rest
  end.

(** The matching parser ([new URLSearchParams(query)]): pieces between
    [&], each cut at its first [=], with [+] read as a space and [%XX] as
    the byte it names. *)
Definition hex_value (c : ascii) : option N :=
  if between 48 57 c then Some (N_of_ascii c - 48)%N
  else if between 65 70 c then Some (N_of_ascii c - 55)%N
  else if between 97 102 c then Some (N_of_ascii c - 87)%N
  else None.

Fixpoint urlencoded_decode (s : string) : string :=
  match s with
  | "" => ""
  | String c rest =>
      if Ascii.eqb c "+" then String " " (urlencoded_decode rest)
      else if Ascii.eqb c "%" then
        match rest with
        | String h (String l rest') =>
            match hex_value h, hex_value l with
            | Some a, Some b => String (ascii_of_N (16 * a + b)) (urlencoded_decode rest')
            | _, _ => String c (urlencoded_decode rest)
            end
        | _ => String c (urlencoded_decode rest)
        end
      else String c (urlencoded_decode rest)
  end.

Fixpoint split_on (sep : ascii) (s : string) : list string :=
  match s with
  | "" => [""]
  | String c rest =>
      if Ascii.eqb c sep then "" :: split_on sep rest
      else match split_on sep rest with
           | piece :: pieces => String c piece :: pieces
           | [] => [String c ""]
           end
  end.

Fixpoint cut_at (sep : ascii) (s : string) : string * string :=
  match s with
  | "" => ("", "")
  | String c rest =>
      if Ascii.eqb c sep then ("", rest)
      else let '(before, after) := cut_at sep rest in (String c before, after)
  end.

Definition urlencoded_parse (query : string) : list (string * string) :=
  omap (fun piece =>
          if String.eqb piece "" then None
          else let '(k, v) := cut_at "=" piece in
               Some (urlencoded_decode k, urlencoded_decode v))
       (split_on "&" query).

(** A string in which [sep] does not occur. *)
Definition free_of (sep : ascii) (s : string) : bool :=
  all_chars (fun c => negb (Ascii.eqb c sep)) s.

(** One [key=value] piece of a serialised query. *)
Definition urlencoded_pair (k v : string) : string :=
  urlencoded_string k ++ String "=" (urlencoded_string v).

(** ** The client *)

Record ClientOptions : Type := mkClientOptions {
  opt_baseUrl : option string;
  opt_timeout : option N
}.

(** The timeout is a duration in milliseconds. *)
Record VoiceAI : Type := mkVoiceAI {
  apiKey : string;
  baseUrl : string;
  timeout : N
}.
Arguments mkVoiceAI apiKey baseUrl timeout%_N.

(** Options of the two private transports. *)
Record Options : Type := mkOptions {
  o_params : option (list (string * option json));
  o_headers : gmap string string;
  o_body : option Body;
  o_isFormData : bool;
  o_binary : bool
}.

Definition no_options : Options := mkOptions None ∅ None false false.

(** What [_request] resolves with: a [Buffer] or a JavaScript value (the
    raw-text fallback is the string value [JStr]). *)
Inductive Value : Type :=
  | VBuffer (b : Buffer)
  | VJson (j : json).

Record ListOptions : Type := mkListOptions {
  limit : option json;
  offset : option json;
  visibility : option json
}.

Record SpeechOptions : Type := mkSpeechOptions {
  text : option string;
  voice_id : option json;
  audio_format : option json;
  temperature : option json;
  top_p : option json;
  model : option json;
  language : option json
}.

(** Truthiness of an optional string ([!s] is its negation). *)
Definition truthy_string (s : option string) : bool :=
  match s with
  | Some s' => negb (String.eqb s' "")
  | None => false
  end.

Definition truthy (v : option json) : bool :=
  match v with
  | None | Some JNull => false
  | Some (JBool b) => b
  | Some (JNum q) => negb (Qeq_bool q 0)
  | Some (JStr s) => negb (String.eqb s "")
  | Some (JArr _) | Some (JObj _) => true
  end.

(** [options.body] as a condition *)
Definition truthy_body (b : option Body) : bool :=
  match b with
  | Some (BodyObject j) => truthy (Some j)
  | Some (BodyRaw s) => negb (String.eqb s "")
  | None => false
  end.

(** [typeof v === 'object'] *)
Definition typeof_object (j : json) : bool :=
  match j with
  | JObj _ | JArr _ | JNull => true
  | _ => false
  end.

(** [value !== undefined && value !== null] *)
Definition defined (value : option json) : bool :=
  match value with
  | None | Some JNull => false
  | Some _ => true
  end.

(** A promise is settled at most once: later calls of [resolve] or
    [reject] are ignored. *)
Definition settle {A : Type} (o : Outcome A) (promise : Outcome A) : Outcome A :=
  match promise with
  | Pending => o
  | _ => promise
  end.

Definition log_request (ro : RequestOptions) (written : option Written) (w : World) : World :=
  mkWorld (fs w) (unwritable w) (sent w ++ [(ro, written)]) (parsed w).

(** The paths of the requests put on the wire so far. *)
Definition request_paths (w : World) : list string :=
  List.map (fun request => ro_path (fst request)) (sent w).

(** A server that answers every request the same way. *)
Definition always (ev : NetEvent) : Server := fun _ _ => ev.

(** ** Streams: a readable response piped into a file sink

    [stream.pipe(writeStream)] forwards every chunk the source emits to the
    sink with [write], and calls [end] on the sink when the source ends.
    The sink moves what was written to the disk in order, and emits
    ['finish'] once [end] was called and nothing is left to flush. Which
    event comes next is the environment's choice; an event that is not
    possible in the current state does not happen. *)

Inductive StreamEvent : Type :=
  | SourceData
  | SourceEnd
  | SourceError (cause : string)
  | SinkFlush
  | SinkFinish
  | SinkError (cause : string).

Record Pipe : Type := mkPipe {
  source_pending : list Buffer;
  source_open : bool;
  sink_opened : bool;
  sink_queue : list Buffer;
  sink_ending : bool;
  sink_alive : bool;
  sink_finished : bool;
  promise : Outcome string
}.

(** The listeners a caller registers on the two streams; each one says what
    it does to the caller's promise. *)
Record PipeListeners : Type := mkPipeListeners {
  sink_on_finish : Outcome string -> Outcome string;
  sink_on_error : Exn -> Outcome string -> Outcome string;
  source_on_error : Exn -> Outcome string -> Outcome string;
  source_on_end : Outcome string -> Outcome string
}.

Definition append_to_file (path : string) (chunk : Buffer) (w : World) : World :=
  mkWorld (<[path := (default [] (fs w !! path) ++ chunk)%list]> (fs w))
    (unwritable w) (sent w) (parsed w).

(** [fs.createWriteStream(path)]: the file is created, or emptied when it
    exists; a path that cannot be opened gives a sink that never opens and
    can only fail. *)
Definition createWriteStream (path : string) (w : World) : bool * World :=
  if bool_decide (path ∈ unwritable w) then (false, w)
  else (true, mkWorld (<[path := []]> (fs w)) (unwritable w) (sent w) (parsed w)).

Definition pipe_step (path : string) (on : PipeListeners) (ev : StreamEvent)
    (st : Pipe * World) : Pipe * World :=
  let '(p, w) := st in
  match ev with
  | SourceData =>
      match source_pending p with
      | chunk :: rest =>
          if source_open p && sink_alive p && negb (sink_ending p) then
            (mkPipe rest true (sink_opened p) (sink_queue p ++ [chunk]) (sink_ending p)
               (sink_alive p) (sink_finished p) (promise p), w)
          else st
      | [] => st
      end
  | SourceEnd =>
      match source_pending p with
      | [] =>
          if source_open p then
            (mkPipe [] false (sink_opened p) (sink_queue p) true (sink_alive p)
               (sink_finished p) (source_on_end on (promise p)), w)
          else st
      | _ :: _ => st
      end
  | SourceError cause =>
      if source_open p then
        (mkPipe (source_pending p) false (sink_opened p) (sink_queue p) (sink_ending p)
           (sink_alive p) (sink_finished p)
           (source_on_error on (SystemError cause) (promise p)), w)
      else st
  | SinkFlush =>
      match sink_queue p with
      | chunk :: rest =>
          if sink_opened p && sink_alive p then
            (mkPipe (source_pending p) (source_open p) true rest (sink_ending p) true
               (sink_finished p) (promise p), append_to_file path chunk w)
          else st
      | [] => st
      end
  | SinkFinish =>
      match sink_queue p with
      | [] =>
          if sink_opened p && sink_alive p && sink_ending p && negb (sink_finished p) then
            (mkPipe (source_pending p) (source_open p) true [] true true true
               (sink_on_finish on (promise p)), w)
          else st
      | _ :: _ => st
      end
  | SinkError cause =>
      if sink_alive p && negb (sink_finished p) then
        (mkPipe (source_pending p) (source_open p) (sink_opened p) (sink_queue p)
           (sink_ending p) false false
           (sink_on_error on (SystemError cause) (promise p)), w)
      else st
  end.

Definition run_pipe (path : string) (on : PipeListeners) (schedule : list StreamEvent)
    (st : Pipe * World) : Pipe * World :=
  fold_left (fun st ev => pipe_step path on ev st) schedule st.
Arguments run_pipe : simpl never.

(** A schedule without failures, and the schedule that lets [n] chunks
    arrive, ends the source, flushes [n] chunks and finishes the sink. *)
Definition clean (ev : StreamEvent) : bool :=
  match ev with
  | SourceError _ | SinkError _ => false
  | _ => true
  end.

Definition completion (n : nat) : list StreamEvent :=
  (repeat SourceData n ++ [SourceEnd] ++ repeat SinkFlush n ++ [SinkFinish])%list.

(** What is on the disk at [path]. *)
Definition on_disk (path : string) (w : World) : Buffer := default [] (fs w !! path).

(** What holds of the pipeline of [streamSpeechToFile] as long as neither
    stream fails; [total] is everything the response carries. *)
Definition pipe_inv (path : string) (total : Buffer) (st : Pipe * World) : Prop :=
  let '(p, w) := st in
  sink_alive p = true /\
  sink_opened p = true /\
  promise p = (if sink_finished p then Resolved path else Pending) /\
  sink_ending p = negb (source_open p) /\
  (on_disk path w ++ concat (sink_queue p) ++ concat (source_pending p))%list = total /\
  is_Some (fs w !! path) /\
  (source_open p = false -> source_pending p = []) /\
  (sink_finished p = true -> sink_queue p = [] /\ source_open p = false).

(** The chunks that have not reached the disk yet. *)
Definition in_flight (st : Pipe * World) : nat :=
  (length (sink_queue (fst st)) + length (source_pending (fst st)))%nat.

Section SDK.

Context {rt : Runtime}.
Variable server : Server.

Definition type_error_null : Exn := TypeError "Cannot read properties of null".
Definition type_error_primitive : Exn := TypeError "Cannot convert object to primitive value".

(** [errorData.error], [errorData.detail], [response.voices] *)
Definition get (v : json) (k : string) : Completion (option json) :=
  match member v k with
  | Some x => Normal x
  | None => Throw type_error_null
  end.

(** [String(v)], the coercion applied by [Error] to its message and by
    [URLSearchParams] to a value. *)
Definition String_ (v : json) : Completion string :=
  match v with
  | JNull => Normal "null"
  | JBool true => Normal "true"
  | JBool false => Normal "false"
  | JNum q => Normal (Number_toString q)
  | JStr s => Normal s
  | JArr _ | JObj _ =>
      match Object_toString v with
      | Some s => Normal s
      | None => Throw type_error_primitive
      end
  end.

(** [super(message)] in [Error]: an [undefined] message leaves the message
    empty, unless the subclass has a default for it. *)
Definition coerce_message (dflt : string) (message : option json) : Completion string :=
  match message with
  | Some v => String_ v
  | None => Normal dflt
  end.

Definition new_VoiceAIError (message : option json) (code : ErrorCode)
    (details : option json) : Completion SdkError :=
  msg ← coerce_message "" message;
  Normal (mkSdkError VoiceAIError msg code (default JNull details)).

Definition new_AuthenticationError (message : option json) : Completion SdkError :=
  msg ← coerce_message "Invalid or missing API key" message;
  Normal (mkSdkError AuthenticationError msg (NumCode 401) JNull).

Definition new_PaymentRequiredError (message : option json) : Completion SdkError :=
  msg ← coerce_message "Insufficient credits or voice slot limit reached" message;
  Normal (mkSdkError PaymentRequiredError msg (NumCode 402) JNull).

Definition new_NotFoundError (message : option json) : Completion SdkError :=
  msg ← coerce_message "Resource not found" message;
  Normal (mkSdkError NotFoundError msg (NumCode 404) JNull).

Definition new_ValidationError (message details : option json) : Completion SdkError :=
  msg ← coerce_message "" message;
  Normal (mkSdkError ValidationError msg (NumCode 422) (default JNull details)).

Definition new_RateLimitError (message : option json) : Completion SdkError :=
  msg ← coerce_message "Rate limit exceeded" message;
  Normal (mkSdkError RateLimitError msg (NumCode 429) JNull).

(** [reject(new E(...))] *)
Definition reject_new {A : Type} (e : Completion SdkError) : Completion (Outcome A) :=
  err ← e; Normal (Rejected (Sdk err)).

(** [throw new E(...)] in the body of an [async] function *)
Definition throw_new {A : Type} (e : Completion SdkError) : Async A :=
  match e with
  | Normal err => throw (Sdk err)
  | Throw x => throw x
  end.

(** [new VoiceAI(apiKey, options)]; [Throw] is the exception the
    constructor throws. *)
Definition constructor (key : option string) (options : ClientOptions) : Completion VoiceAI :=
  if negb (truthy_string key) then
    err ← new_AuthenticationError (Some (JStr "API key is required")); Throw (Sdk err)
  else
    Normal {| apiKey := default "" key;
              baseUrl := if truthy_string (opt_baseUrl options)
                         then default "" (opt_baseUrl options) else BASE_URL;
              timeout := match opt_timeout options with
                         | Some t => if N.eqb t 0 then 60000%N else t
                         | None => 60000%N
                         end |}.

Definition JSON_parse_logged (text : string) (w : World) : option json * World :=
  (JSON_parse text, mkWorld (fs w) (unwritable w) (sent w) (parsed w ++ [text])).

(** [url.searchParams.append(key, value)] *)
Definition searchParams_append (key : string) (value : json) (url : URL) : Completion URL :=
  v ← String_ value;
  let sp := (searchParams url ++ [(key, v)])%list in
  Normal (mkURL (protocol url) (hostname url) (port url) (pathname url)
            ("?" ++ urlencoded_serialize sp) sp).

(** The [forEach] over [Object.entries(options.params)]; the list is the
    entries in the order [Object.entries] gives them. *)
Fixpoint add_query_parameters (entries : list (string * option json)) (url : URL)
    : Completion URL :=
  match entries with
  | [] => Normal url
  | (key, value) :: rest =>
      if defined value then
        match value with
        | Some v => url' ← searchParams_append key v url; add_query_parameters rest url'
        | None => add_query_parameters rest url
        end
      else add_query_parameters rest url
  end.

(** Whether the socket's inactivity timer goes off before a response has
    arrived whole: the socket stays idle for longer than the [timeout]
    request option. [latency = None] is a server that never answers. The
    timer is armed only by that option, and [0] disables it. *)
Definition timer_fires (ro : RequestOptions) (latency : option N) : bool :=
  match ro_timeout ro with
  | Some t => N.ltb 0 t && match latency with Some l => N.ltb t l | None => true end
  | None => false
  end.

(** [https.request(requestOptions, on_response)] with the listeners for
    ['error'] and ['timeout'] that the caller registers, followed by the
    write of the body and [req.end()]. Without a ['timeout'] listener the
    timer going off has no effect. With one, the listener destroys the
    request, so the handlers of the response do not run to their end. *)
Definition https_request {A : Type} (ro : RequestOptions) (written : option Written)
    (on_response : Response -> Async A) (on_error : Exn -> Outcome A)
    (on_timeout : option (Outcome A)) : Async A :=
  fun w =>
    let w' := log_request ro written w in
    match server ro written with
    | NetError cause => (on_error (SystemError cause), w')
    | NetSilent =>
        match (if timer_fires ro None then on_timeout else None) with
        | Some o => (o, w')
        | None => (Pending, w')
        end
    | NetReply latency res =>
        match (if timer_fires ro (Some latency) then on_timeout else None) with
        | Some o => (o, w')
        | None => on_response res w'
        end
    end.

(** [url.port || 443]; the number is written as the string of its
    digits. *)
Definition default_port (url : URL) : string :=
  if String.eqb (port url) "" then "443" else port url.

(** The [switch (res.statusCode)] of the ['end'] handler. *)
Definition reject_for_status (status : Z) (errorData : json) : Completion (Outcome Value) :=
  match status with
  | 401 => m ← get errorData "error"; reject_new (new_AuthenticationError m)
  | 402 => m ← get errorData "error"; reject_new (new_PaymentRequiredError m)
  | 404 => m ← get errorData "error"; reject_new (new_NotFoundError m)
  | 422 => m ← get errorData "error"; d ← get errorData "detail";
           reject_new (new_ValidationError m d)
  | 429 => m ← get errorData "error"; reject_new (new_RateLimitError m)
  | _ => m ← get errorData "error"; d ← get errorData "detail";
         reject_new (new_VoiceAIError m (NumCode status) d)
  end.

(** What the ['end'] handler calls [errorData]: the parsed body, or an
    object made of the body text when the text is not JSON. *)
Definition errorData_of (parsed : option json) (text : string) : json :=
  match parsed with
  | Some v => v
  | None => JObj [("error", JStr (if String.eqb text "" then "Unknown error" else text))]
  end.

(** The handler of the response's ['end'] event in [_request]. *)
Definition _request_on_end (options : Options) (res : Response) : Async Value :=
  fun w =>
    let buffer : Buffer := concat (chunks res) in
    if Z.leb 400 (statusCode res) then
      let '(parsed, w') := JSON_parse_logged (Buffer_toString buffer) w in
      let errorData := errorData_of parsed (Buffer_toString buffer) in
      (in_callback (reject_for_status (statusCode res) errorData), w')
    else
      let contentType := default "" (headers res !! "content-type") in
      if String.prefix "audio/" contentType || o_binary options then
        (Resolved (VBuffer buffer), w)
      else
        let '(parsed, w') := JSON_parse_logged (Buffer_toString buffer) w in
        match parsed with
        | Some v => (Resolved (VJson v), w')
        | None => (Resolved (VJson (JStr (Buffer_toString buffer))), w')
        end.

(** The body handed to [req.write], if any: the JSON text of an object
    or an array that is not form data, and a string as it is. *)
Definition written_body (options : Options) : option Written :=
  if truthy_body (o_body options) then
    match o_body options with
    | Some (BodyObject (JStr s)) => Some (WRaw (BodyRaw s))
    | Some (BodyObject j) =>
        if o_isFormData options then Some (WRaw (BodyObject j)) else Some (WJson j)
    | Some (BodyRaw s) => Some (WRaw (BodyRaw s))
    | None => None
    end
  else None.

(** [options.body && typeof options.body === 'object'] *)
Definition is_object_body (b : option Body) : bool :=
  match b with
  | Some (BodyObject j) => truthy (Some j) && typeof_object j
  | _ => false
  end.

Definition timeout_error : Completion SdkError :=
  new_VoiceAIError (Some (JStr "Request timeout")) (StrCode "TIMEOUT") None.

(** The ['timeout'] listener of [_request]: [req.destroy()], then
    [reject(new VoiceAIError('Request timeout', 'TIMEOUT'))]. *)
Definition timeout_outcome : Outcome Value :=
  in_callback (reject_new timeout_error).

(** [async _request(method, endpoint, options = {})] *)
Definition _request (self : VoiceAI) (method endpoint : string) (options : Options)
    : Async Value :=
  match URL_new ("/api/" ++ API_VERSION ++ endpoint) (baseUrl self) with
  | None => throw (TypeError "Invalid URL")
  | Some url =>
      if negb (String.eqb (protocol url) "https:") then
        throw_new (new_ValidationError (Some (JStr "Only https baseUrl is supported")) None)
      else
        in_async (
          url ← match o_params options with
                | Some entries => add_query_parameters entries url
                | None => Normal url
                end;
          let headers0 : gmap string string :=
            o_headers options ∪
            <["Authorization" := "Bearer " ++ apiKey self]>
              (<["User-Agent" := "VoiceAI-SDK/1.1.4"]> ∅) in
          let requestOptions :=
            {| ro_method := method;
               ro_hostname := hostname url;
               ro_path := pathname url ++ search url;
               ro_port := default_port url;
               ro_headers :=
                 if is_object_body (o_body options) && negb (o_isFormData options)
                 then <["Content-Type" := "application/json"]> headers0
                 else headers0;
               ro_timeout := Some (timeout self) |} in
          Normal (https_request requestOptions (written_body options)
                    (_request_on_end options)
                    (fun e => Rejected e)
                    (Some timeout_outcome)))
  end.

(** The response callback of [_streamRequest]: on an error status the body
    is buffered and the parse of it, the read of [error] and the
    construction of the error all sit inside one [try] block. *)
Definition _streamRequest_on_response (res : Response) : Async Response :=
  fun w =>
    if Z.leb 400 (statusCode res) then
      let buffer : Buffer := concat (chunks res) in
      let '(parsed, w') := JSON_parse_logged (Buffer_toString buffer) w in
      let attempt : Completion (Outcome Response) :=
        match parsed with
        | Some errorData =>
            m ← get errorData "error";
            reject_new (new_VoiceAIError m (NumCode (statusCode res)) None)
        | None => Throw (SyntaxError "Unexpected token")
        end in
      (match attempt with
       | Normal o => o
       | Throw _ =>
           in_callback (reject_new (new_VoiceAIError (Some (JStr "Request failed"))
                                      (NumCode (statusCode res)) None))
       end, w')
    else (Resolved res, w).

(** [_streamRequest(method, endpoint, options = {})], not an [async]
    function: its [throw] is synchronous, and becomes a rejection in the
    [async] callers. *)
Definition _streamRequest (self : VoiceAI) (method endpoint : string) (options : Options)
    : Async Response :=
  match URL_new ("/api/" ++ API_VERSION ++ endpoint) (baseUrl self) with
  | None => throw (TypeError "Invalid URL")
  | Some url =>
      if negb (String.eqb (protocol url) "https:") then
        throw_new (new_ValidationError (Some (JStr "Only https baseUrl is supported")) None)
      else
        let requestOptions :=
          {| ro_method := method;
             ro_hostname := hostname url;
             ro_path := pathname url;
             ro_port := default_port url;
             ro_headers :=
               o_headers options ∪
               <["Authorization" := "Bearer " ++ apiKey self]>
                 (<["Content-Type" := "application/json"]>
                    (<["User-Agent" := "VoiceAI-SDK/1.1.4"]> ∅));
             ro_timeout := None |} in
        https_request requestOptions
          (if truthy_body (o_body options)
           then match o_body options with
                | Some (BodyObject j) => Some (WJson j)
                | Some (BodyRaw s) => Some (WJson (JStr s))
                | None => None
                end
           else None)
          _streamRequest_on_response
          (fun e => Rejected e)
          None
  end.

(** A value [Error] can turn into a message. *)
Definition coercible (v : option json) : Prop :=
  match v with
  | Some x => exists s, String_ x = Normal s
  | None => True
  end.

(** The query pairs the specification asks for, written from its words
    alone and without the code's tests and coercions: a key whose value is
    absent or [null] is left out, and every other key comes with the
    literal value it was given: a string as it is, a boolean as [true] or
    [false], a number in the runtime's notation for it. (The data model of
    the specification has scalars only: a list or an object has no
    literal.) *)
Definition literal (v : json) : string :=
  match v with
  | JStr s => s
  | JBool true => "true"
  | JBool false => "false"
  | JNum q => Number_toString q
  | JNull | JArr _ | JObj _ => ""
  end.

Fixpoint spec_query_pairs (entries : list (string * option json))
    : list (string * string) :=
  match entries with
  | [] => []
  | (_, None) :: rest => spec_query_pairs rest
  | (_, Some JNull) :: rest => spec_query_pairs rest
  | (key, Some v) :: rest => (key, literal v) :: spec_query_pairs rest
  end.

(** A scalar, or no value at all. *)
Definition scalar (value : option json) : bool :=
  match value with
  | Some (JArr _) | Some (JObj _) => false
  | _ => true
  end.

(** *** Voice management *)

(** [async listVoices(options = {})]; a destructuring default replaces
    [undefined] only. *)
Definition listVoices (self : VoiceAI) (options : ListOptions) : Async Value :=
  let limit' := default (JNum (inject_Z 10)) (limit options) in
  let offset' := default (JNum (inject_Z 0)) (offset options) in
  _request self "GET" "/tts/voices"
    (mkOptions (Some [("limit", Some limit'); ("offset", Some offset');
                      ("visibility", visibility options)])
       ∅ None false false).

Definition getVoice (self : VoiceAI) (voiceId : option string) : Async Value :=
  if negb (truthy_string voiceId) then
    throw_new (new_ValidationError (Some (JStr "Voice ID is required")) None)
  else _request self "GET" ("/tts/voice/" ++ default "" voiceId) no_options.

(** [updates] is an object, as the documentation of [updateVoice] asks. *)
Definition updateVoice (self : VoiceAI) (voiceId : option string) (updates : option json)
    : Async Value :=
  if negb (truthy_string voiceId) then
    throw_new (new_ValidationError (Some (JStr "Voice ID is required")) None)
  else _request self "PATCH" ("/tts/voice/" ++ default "" voiceId)
         (mkOptions None ∅ (BodyObject <$> updates) false false).

Definition deleteVoice (self : VoiceAI) (voiceId : option string) : Async Value :=
  if negb (truthy_string voiceId) then
    throw_new (new_ValidationError (Some (JStr "Voice ID is required")) None)
  else _request self "DELETE" ("/tts/voice/" ++ default "" voiceId) no_options.

(** *** Speech generation *)

(** The body object built by [generateSpeech] and [streamSpeech]. *)
Definition speech_body (options : SpeechOptions) : json :=
  object_literal
    [("text", JStr <$> text options);
     ("voice_id", voice_id options);
     ("audio_format", Some (default (JStr "mp3") (audio_format options)));
     ("temperature", Some (default (JNum (inject_Z 1)) (temperature options)));
     ("top_p", Some (default (JNum (8 # 10)) (top_p options)));
     ("model", model options);
     ("language", Some (default (JStr "en") (language options)))].

Definition generateSpeech (self : VoiceAI) (options : SpeechOptions) : Async Value :=
  if negb (truthy_string (text options)) then
    throw_new (new_ValidationError (Some (JStr "Text is required")) None)
  else _request self "POST" "/tts/speech"
         (mkOptions None ∅ (Some (BodyObject (speech_body options))) false true).

(** [fs.writeFileSync(path, data)]: the whole of [data] replaces the file,
    or the call throws (a value that is neither a string nor a buffer, a
    path that cannot be opened) and the disk is left alone. *)
Definition writeFileSync (path : string) (data : Value) : Async unit :=
  fun w =>
    match (match data with
           | VBuffer b => Some b
           | VJson (JStr s) => Some (list_byte_of_string s)
           | VJson _ => None
           end) with
    | None => (Rejected (TypeError "ERR_INVALID_ARG_TYPE"), w)
    | Some b =>
        if bool_decide (path ∈ unwritable w) then (Rejected (SystemError "EACCES"), w)
        else (Resolved tt, mkWorld (<[path := b]> (fs w)) (unwritable w) (sent w) (parsed w))
    end.

Definition generateSpeechToFile (self : VoiceAI) (options : SpeechOptions)
    (outputPath : string) : Async string :=
  audio ← generateSpeech self options;
  _ ← writeFileSync outputPath audio;
  resolve outputPath.

Definition streamSpeech (self : VoiceAI) (options : SpeechOptions) : Async Response :=
  if negb (truthy_string (text options)) then
    throw_new (new_ValidationError (Some (JStr "Text is required")) None)
  else _streamRequest self "POST" "/tts/speech/stream"
         (mkOptions None ∅ (Some (BodyObject (speech_body options))) false false).

(** The listeners [streamSpeechToFile] registers: ['finish'] and
    ['error'] on the file sink, ['error'] on the response; nothing listens
    to the response's ['end']. *)
Definition streamSpeechToFile_listeners (outputPath : string) : PipeListeners :=
  {| sink_on_finish := settle (Resolved outputPath);
     sink_on_error := fun e => settle (Rejected e);
     source_on_error := fun e => settle (Rejected e);
     source_on_end := fun promise => promise |}.

(** The promise executor of [streamSpeechToFile]; [schedule] is the order
    in which the environment lets the stream events happen. *)
Definition pipe_to_file (stream : Response) (outputPath : string)
    (schedule : list StreamEvent) : Async string :=
  fun w =>
    let '(opened, w1) := createWriteStream outputPath w in
    let '(p, w2) :=
      run_pipe outputPath (streamSpeechToFile_listeners outputPath) schedule
        (mkPipe (chunks stream) true opened [] false true false Pending, w1) in
    (promise p, w2).

(** [async streamSpeechToFile(options, outputPath)] *)
Definition streamSpeechToFile (self : VoiceAI) (options : SpeechOptions)
    (outputPath : string) (schedule : list StreamEvent) : Async string :=
  stream ← streamSpeech self options;
  pipe_to_file stream outputPath schedule.

(** *** Utility methods *)

Definition validateApiKey (self : VoiceAI) : Async bool :=
  try_catch
    (_ ← listVoices self (mkListOptions (Some (JNum (inject_Z 1))) None None);
     resolve true)
    (fun error =>
       if instanceof_AuthenticationError error then resolve false else throw error).

(** [async getFirstVoices(count = 10)] *)
Definition getFirstVoices (self : VoiceAI) (count : option json) : Async json :=
  response ← listVoices self
                (mkListOptions (Some (default (JNum (inject_Z 10)) count)) None None);
  in_async (
    voices ← match response with
             | VJson j => get j "voices"
             | VBuffer _ => Normal None
             end;
    Normal (resolve (if truthy voices then default (JArr []) voices else JArr []))).

End SDK.

(** ** An executable model of the runtime

    A small, executable [Runtime] for running the SDK on concrete inputs.
    It follows the built-ins on the inputs used below: JSON texts without
    [\u] escapes, absolute base URLs of the form [scheme://host[:port]]
    joined with an absolute path that needs no normalisation, and numbers
    with a short decimal expansion. *)

Module Node.

Definition is_ws (c : ascii) : bool :=
  Ascii.eqb c " " || Ascii.eqb c "009" || Ascii.eqb c "010" || Ascii.eqb c "013".

Definition is_digit (c : ascii) : bool := between 48 57 c.

Fixpoint skip_ws (s : string) : string :=
  match s with
  | String c rest => if is_ws c then skip_ws rest else s
  | "" => ""
  end.

Fixpoint take_digits (s : string) : list N * string :=
  match s with
  | String c rest =>
      if is_digit c then
        let '(ds, rest') := take_digits rest in ((N_of_ascii c - 48)%N :: ds, rest')
      else ([], s)
  | "" => ([], "")
  end.

Definition digits_value (ds : list N) : Z :=
  fold_left (fun acc d => 10 * acc + Z.of_N d) ds 0.

Definition pow10 (e : Z) : Q :=
  if Z.leb 0 e then inject_Z (10 ^ e) else (1 # Z.to_pos (10 ^ (- e)))%Q.

(** [-? int frac? exp?] *)
Definition parse_number (s : string) : option (Q * string) :=
  let '(neg, s1) := match s with
                    | String "-" rest => (true, rest)
                    | _ => (false, s)
                    end in
  let '(int_ds, s2) := take_digits s1 in
  match int_ds with
  | [] => None
  | d :: more =>
      if N.eqb d 0 && negb (Nat.eqb (length more) 0) then None
      else
        let frac : option (list N * string) :=
          match s2 with
          | String "." rest =>
              match take_digits rest with
              | ([], _) => None
              | r => Some r
              end
          | _ => Some ([], s2)
          end in
        match frac with
        | None => None
        | Some (frac_ds, s3) =>
            let exp : option (Z * string) :=
              match s3 with
              | String c rest =>
                  if Ascii.eqb c "e" || Ascii.eqb c "E" then
                    let '(eneg, rest1) :=
                      match rest with
                      | String "-" r => (true, r)
                      | String "+" r => (false, r)
                      | _ => (false, rest)
                      end in
                    match take_digits rest1 with
                    | ([], _) => None
                    | (eds, r) => Some (if eneg then - digits_value eds
                                        else digits_value eds, r)
                    end
                  else Some (0, s3)
              | "" => Some (0, s3)
              end in
            match exp with
            | None => None
            | Some (e, s4) =>
                let mantissa := digits_value (int_ds ++ frac_ds)%list in
                let q := Qred (inject_Z (if neg then - mantissa else mantissa)
                               * pow10 (e - Z.of_nat (length frac_ds))) in
                Some (q, s4)
            end
        end
  end.

(** The characters of a string literal after its opening quote. *)
Fixpoint parse_string (s : string) : option (string * string) :=
  match s with
  | "" => None
  | String c rest =>
      if Ascii.eqb c "034" then Some ("", rest)
      else if Ascii.eqb c "\" then
        match rest with
        | String e rest' =>
            let unescaped : option ascii :=
              if Ascii.eqb e "034" then Some "034"%char
              else if Ascii.eqb e "\" then Some "\"%char
              else if Ascii.eqb e "/" then Some "/"%char
              else if Ascii.eqb e "b" then Some "008"%char
              else if Ascii.eqb e "f" then Some "012"%char
              else if Ascii.eqb e "n" then Some "010"%char
              else if Ascii.eqb e "r" then Some "013"%char
              else if Ascii.eqb e "t" then Some "009"%char
              else None in
            match unescaped, parse_string rest' with
            | Some a, Some (body, after) => Some (String a body, after)
            | _, _ => None
            end
        | "" => None
        end
      else if (N_of_ascii c <? 32)%N then None
      else match parse_string rest with
           | Some (body, after) => Some (String c body, after)
           | None => None
           end
  end.

Fixpoint parse_value (fuel : nat) (s : string) {struct fuel} : option (json * string) :=
  match fuel with
  | O => None
  | S fuel' =>
      match skip_ws s with
      | String "n" (String "u" (String "l" (String "l" rest))) => Some (JNull, rest)
      | String "t" (String "r" (String "u" (String "e" rest))) => Some (JBool true, rest)
      | String "f" (String "a" (String "l" (String "s" (String "e" rest)))) =>
          Some (JBool false, rest)
      | String "[" rest =>
          match skip_ws rest with
          | String "]" rest' => Some (JArr [], rest')
          | _ => match parse_elements fuel' rest [] with
                 | Some (items, rest') => Some (JArr items, rest')
                 | None => None
                 end
          end
      | String "{" rest =>
          match skip_ws rest with
          | String "}" rest' => Some (JObj [], rest')
          | _ => match parse_members fuel' rest [] with
                 | Some (fields, rest') => Some (JObj fields, rest')
                 | None => None
                 end
          end
      | String c rest =>
          if Ascii.eqb c "034" then
            match parse_string rest with
            | Some (str, rest') => Some (JStr str, rest')
            | None => None
            end
          else match parse_number (String c rest) with
               | Some (q, rest') => Some (JNum q, rest')
               | None => None
               end
      | "" => None
      end
  end
with parse_elements (fuel : nat) (s : string) (acc : list json) {struct fuel}
    : option (list json * string) :=
  match fuel with
  | O => None
  | S fuel' =>
      match parse_value fuel' s with
      | Some (v, rest) =>
          match skip_ws rest with
          | String "," rest' => parse_elements fuel' rest' (acc ++ [v])%list
          | String "]" rest' => Some ((acc ++ [v])%list, rest')
          | _ => None
          end
      | None => None
      end
  end
with parse_members (fuel : nat) (s : string) (acc : list (string * json)) {struct fuel}
    : option (list (string * json) * string) :=
  match fuel with
  | O => None
  | S fuel' =>
      match skip_ws s with
      | String q rest =>
          if Ascii.eqb q "034" then
            match parse_string rest with
            | Some (key, rest1) =>
                match skip_ws rest1 with
                | String ":" rest2 =>
                    match parse_value fuel' rest2 with
                    | Some (v, rest3) =>
                        match skip_ws rest3 with
                        | String "," rest4 => parse_members fuel' rest4 (acc ++ [(key, v)])%list
                        | String "}" rest4 => Some ((acc ++ [(key, v)])%list, rest4)
                        | _ => None
                        end
                    | None => None
                    end
                | _ => None
                end
            | None => None
            end
          else None
      | "" => None
      end
  end.

Definition JSON_parse (text : string) : option json :=
  match parse_value (S (String.length text)) text with
  | Some (v, rest) => if String.eqb (skip_ws rest) "" then Some v else None
  | None => None
  end.

Fixpoint frac_digits (fuel : nat) (r d : Z) : string :=
  match fuel with
  | O => ""
  | S fuel' =>
      if Z.eqb r 0 then ""
      else pretty ((10 * r) / d) ++ frac_digits fuel' ((10 * r) mod d) d
  end.

(** Decimal notation: the integer part, then the digits after the point
    until the expansion ends. *)
Definition Number_toString (q : Q) : string :=
  let n := Qnum (Qred q) in
  let d := Z.pos (Qden (Qred q)) in
  (if Z.ltb n 0 then "-" else "")
  ++ pretty (Z.abs n / d)
  ++ (if Z.eqb (Z.abs n mod d) 0 then "" else "." ++ frac_digits 20 (Z.abs n mod d) d).

Definition has_own (k : string) (fields : list (string * json)) : bool :=
  existsb (fun '(k', _) => String.eqb k k') fields.

Fixpoint join (sep : string) (pieces : list string) : string :=
  match pieces with
  | [] => ""
  | [piece] => piece
  | piece :: rest => piece ++ sep ++ join sep rest
  end.

Definition sequence {A : Type} (l : list (option A)) : option (list A) :=
  fold_right (fun x acc => match x, acc with
                           | Some a, Some r => Some (a :: r)
                           | _, _ => None
                           end) (Some []) l.

(** [String(v)]: an array is the comma-joined coercion of its items, with
    [null] printed as nothing; an object read from JSON is
    ["[object Object]"] unless an own [toString] property, which cannot be
    a function, hides the inherited method. *)
Fixpoint ToString (v : json) : option string :=
  match v with
  | JNull => Some "null"
  | JBool true => Some "true"
  | JBool false => Some "false"
  | JNum q => Some (Number_toString q)
  | JStr s => Some s
  | JArr items =>
      join "," <$> sequence (List.map (fun item => match item with
                                                   | JNull => Some ""
                                                   | _ => ToString item
                                                   end) items)
  | JObj fields => if has_own "toString" fields then None else Some "[object Object]"
  end.

Fixpoint take_until (stop : ascii -> bool) (s : string) : string * string :=
  match s with
  | "" => ("", "")
  | String c rest =>
      if stop c then ("", s)
      else let '(before, after) := take_until stop rest in (String c before, after)
  end.

Definition is_letter (c : ascii) : bool := between 65 90 c || between 97 122 c.

(** [new URL(input, base)] for an [input] that starts with a slash: the
    scheme, host and port come from [base], the path and the query from
    [input]; the default port of the scheme reads as the empty string. *)
Definition URL_new (input base : string) : option URL :=
  let '(scheme, after_scheme) := cut_at ":" base in
  match after_scheme, input with
  | String "/" (String "/" rest), String "/" _ =>
      let '(authority, _) :=
        take_until (fun c => Ascii.eqb c "/" || Ascii.eqb c "?" || Ascii.eqb c "#") rest in
      let '(host, port_text) := cut_at ":" authority in
      if String.eqb scheme "" || negb (all_chars is_letter scheme)
         || String.eqb host "" || negb (all_chars is_digit port_text)
      then None
      else
        let '(main, _) := take_until (fun c => Ascii.eqb c "#") input in
        let '(path, query) := cut_at "?" main in
        Some {| protocol := scheme ++ ":";
                hostname := host;
                port := if (String.eqb scheme "https" && String.eqb port_text "443")
                           || (String.eqb scheme "http" && String.eqb port_text "80")
                        then "" else port_text;
                pathname := path;
                search := if String.eqb query "" then "" else "?" ++ query;
                searchParams := urlencoded_parse query |}
  | _, _ => None
  end.

#[export] Instance runtime : Runtime :=
  Build_Runtime JSON_parse URL_new Number_toString ToString string_of_list_byte.

End Node.

(** ** Concrete inputs *)

Module Examples.

Definition client : VoiceAI := mkVoiceAI "secret" BASE_URL 60000.

Definition insecure_client : VoiceAI := mkVoiceAI "secret" "http://localhost:8080" 60000.

Definition empty_world : World := mkWorld ∅ ∅ [] [].

Definition quoted (s : string) : string := String "034" (s ++ String "034" "").

Definition hello : SpeechOptions :=
  mkSpeechOptions (Some "Hello, world!") None None None None None None.

Definition audio_reply : Response :=
  mkResponse 200 (<["content-type" := "audio/mpeg"]> ∅)
    [list_byte_of_string "ID3"; list_byte_of_string "abc"].

Definition json_reply : Response :=
  mkResponse 200 (<["content-type" := "application/json"]> ∅)
    [list_byte_of_string ("{" ++ quoted "voices" ++ ":[]}")].

Definition garbled_reply : Response :=
  mkResponse 200 (<["content-type" := "application/json"]> ∅)
    [list_byte_of_string "<html>"].

Definition error_reply (status : Z) (body : string) : Response :=
  mkResponse status (<["content-type" := "application/json"]> ∅)
    [list_byte_of_string body].

Definition bad_key_body : string :=
  "{" ++ quoted "error" ++ ":" ++ quoted "bad key" ++ "}".

Definition invalid_body : string :=
  "{" ++ quoted "error" ++ ":" ++ quoted "invalid" ++ ","
      ++ quoted "detail" ++ ":[" ++ quoted "text too long" ++ "]}".

End Examples.

(** What holds of the pipeline of [streamSpeechToFile] under every order
    of events, failures included, once the file could be opened. *)
Definition pipe_safe (path : string) (total : Buffer) (st : Pipe * World) : Prop :=
  let '(p, w) := st in
  sink_opened p = true /\
  (on_disk path w ++ concat (sink_queue p) ++ concat (source_pending p))%list = total /\
  is_Some (fs w !! path) /\
  (sink_finished p = true -> sink_queue p = [] /\ sink_ending p = true) /\
  (sink_ending p = true -> source_pending p = []) /\
  match promise p with
  | Resolved x => x = path /\ sink_finished p = true
  | Uncaught _ => False
  | _ => True
  end.

(** The same for a file that could not be opened: [disk] is the disk as
    it was. *)
Definition pipe_closed (disk : gmap string Buffer) (st : Pipe * World) : Prop :=
  let '(p, w) := st in
  sink_opened p = false /\ sink_finished p = false /\ fs w = disk /\
  match promise p with
  | Resolved _ | Uncaught _ => False
  | _ => True
  end.

(** An event after which the source is still open and the sink has not
    finished. *)
Definition keeps_running (ev : StreamEvent) : bool :=
  match ev with
  | SourceData | SinkFlush => true
  | _ => false
  end.

(** ** Vocabulary for the properties of the whole client *)

(** Between two worlds, no request or exactly one was put on the wire. *)
Definition at_most_one_request (w w' : World) : Prop :=
  sent w' = sent w \/ exists request, sent w' = (sent w ++ [request])%list.

(** The message an error class falls back on when it is built without
    one: the default of the constructor's parameter, or the empty message
    of [Error]. *)
Definition default_message (status : Z) : string :=
  match status with
  | 401 => "Invalid or missing API key"
  | 402 => "Insufficient credits or voice slot limit reached"
  | 404 => "Resource not found"
  | 429 => "Rate limit exceeded"
  | _ => ""
  end.

(** [response.voices] of a value that is not [null]. *)
Definition lookup_voices (j : json) : option json :=
  match member j "voices" with
  | Some v => v
  | None => None
  end.

(** Node sends one header for each name, and names that differ in the
    case of their letters only are one name: of two such keys of the
    [headers] object, the later one is sent. *)
Definition fold_case (c : ascii) : ascii :=
  let n := nat_of_ascii c in
  if Nat.leb 65 n && Nat.leb n 90 then ascii_of_nat (n + 32) else c.

Fixpoint header_name (name : string) : string :=
  match name with
  | EmptyString => EmptyString
  | String c rest => String (fold_case c) (header_name rest)
  end.

Definition same_header (a b : string) : bool :=
  String.eqb (header_name a) (header_name b).

(** The object names the header [name] in these very letters or not at
    all. *)
Definition exact_case (headers : gmap string string) (name : string) : Prop :=
  forall k, is_Some (headers !! k) -> same_header k name = true -> k = name.

(** The header [name] goes out with [value]: the object has it under
    [name], and has no other key that is the same name in other letters. *)
Definition on_wire (headers : gmap string string) (name value : string) : Prop :=
  headers !! name = Some value /\ exact_case headers name.


(** The member [key: value] of a JSON text; a property whose value is
    [undefined] has none. *)
Definition json_member (key : string) (value : option json) : list (string * json) :=
  match value with
  | Some v => [(key, v)]
  | None => []
  end.

(** Between two worlds nothing was put on the wire, or one request with
    this method and a body that [body] accepts. *)
Definition sends (method : string) (body : option Written -> Prop) (w w' : World) : Prop :=
  sent w' = sent w \/
  exists ro wr,
    ro_method ro = method /\ body wr /\ sent w' = (sent w ++ [(ro, wr)])%list.

(** * The command line: [scripts/tts.js]

    The script reads its arguments, the environment and the table of
    voices, and hands the work to [generateSpeechToFile] or to
    [streamSpeechToFile] of a fresh client. What it prints is left out of
    the model; what it reads, sends and writes, and how it ends, is not. *)

(** The state of the script: the module variable [cachedVoiceData] and
    the world outside. *)
Record Script : Type := mkScript {
  cachedVoiceData : json;
  world : World
}.

(** How a piece of synchronous code of the script ends: with a value,
    with an exception, or in [process.exit]. *)
Inductive Step (A : Type) : Type :=
  | Continue (a : A)
  | Thrown (e : Exn)
  | Exits (code : Z).
Arguments Continue {A} a.
Arguments Thrown {A} e.
Arguments Exits {A} code.

Definition Proc (A : Type) : Type := Script -> Step A * Script.

Definition and_then {A B : Type} (m : Proc A) (k : A -> Proc B) : Proc B :=
  fun s =>
    match m s with
    | (Continue a, s') => k a s'
    | (Thrown e, s') => (Thrown e, s')
    | (Exits c, s') => (Exits c, s')
    end.

(** The object [opts] of [parseArgs]. *)
Record Opts : Type := mkOpts {
  opts_text : option string;
  opts_voice : option string;
  opts_output : string;
  opts_stream : bool
}.

(** What reading a property gives: nothing, a value of the JSON text the
    object was parsed from, or something the object inherits from
    [Object.prototype] (a function, or the prototype itself). *)
Inductive Property : Type :=
  | Undefined
  | Data (v : json)
  | Builtin.

Definition Object_prototype : list string :=
  ["constructor"; "__defineGetter__"; "__defineSetter__"; "hasOwnProperty";
   "__lookupGetter__"; "__lookupSetter__"; "isPrototypeOf"; "propertyIsEnumerable";
   "toString"; "valueOf"; "__proto__"; "toLocaleString"].

Definition truthy_property (p : Property) : bool :=
  match p with
  | Undefined => false
  | Data v => truthy (Some v)
  | Builtin => true
  end.

(** [voiceEntry.voice_id], for a [voiceEntry] that is truthy. *)
Definition voice_id_of (voiceEntry : Property) : option json :=
  match voiceEntry with
  | Data v => default None (member v "voice_id")
  | _ => None
  end.

(** The three flags that take a value, each with its assignment. *)
Definition value_flag (arg : string) : option (string -> Opts -> Opts) :=
  if String.eqb arg "--text" then
    Some (fun v o => mkOpts (Some v) (opts_voice o) (opts_output o) (opts_stream o))
  else if String.eqb arg "--voice" then
    Some (fun v o => mkOpts (opts_text o) (Some v) (opts_output o) (opts_stream o))
  else if String.eqb arg "--output" then
    Some (fun v o => mkOpts (opts_text o) (opts_voice o) v (opts_stream o))
  else None.

(** How the process stands when [main().catch(...)] is over: it has left
    through [process.exit], [main] has returned, an exception has escaped
    from a callback, or the promise of [main] is still pending. *)
Inductive Ended : Type :=
  | Exit (code : Z)
  | Done
  | Crash (e : Exn)
  | Wait.

(** [value.replace(/^['"]|['"]$/g, '')]: one quote is taken from the
    front, if there is one, and then one from the end, if one is left. *)
Definition is_quote (c : ascii) : bool := Ascii.eqb c "'" || Ascii.eqb c "034".

Definition drop_leading_quote (s : string) : string :=
  match s with
  | String c rest => if is_quote c then rest else s
  | EmptyString => EmptyString
  end.

Fixpoint drop_trailing_quote (s : string) : string :=
  match s with
  | EmptyString => EmptyString
  | String c EmptyString => if is_quote c then EmptyString else s
  | String c rest => String c (drop_trailing_quote rest)
  end.

Definition unquote (s : string) : string := drop_trailing_quote (drop_leading_quote s).

(** [s] without its last character when that is a carriage return. *)
Fixpoint without_cr (s : string) : string :=
  match s with
  | EmptyString => EmptyString
  | String c EmptyString => if Ascii.eqb c "013" then EmptyString else s
  | String c rest => String c (without_cr rest)
  end.

(** The pieces between line feeds, each but the last without the
    carriage return that the separator takes with it. *)
Fixpoint without_crs (pieces : list string) : list string :=
  match pieces with
  | [] => []
  | [piece] => [piece]
  | piece :: rest => without_cr piece :: without_crs rest
  end.

(** [text.split(/\r?\n/)] *)
Definition split_lines (text : string) : list string := without_crs (split_on "010" text).

(** The end of [main().catch(...)] for each way the awaited operation of
    the client can end: a rejection is caught, and the handler leaves with
    [process.exit(1)]. *)
Definition ending {A : Type} (o : Outcome A) : Ended :=
  match o with
  | Resolved _ => Done
  | Rejected _ => Exit 1
  | Uncaught e => Crash e
  | Pending => Wait
  end.

Section CLI.

Context {rt : Runtime}.
Variable server : Server.

(** [path.join(__dirname, '..', 'voices.json')] *)
Variable VOICES_PATH : string.

(** [String.prototype.toLowerCase] *)
Variable toLowerCase : string -> string.

(** The properties of an array, a string, a number or [true], none of
    which the table of voices is meant to be. *)
Variable exotic_property : json -> string -> Property.

(** [fs.readFileSync(path, 'utf8')], where [fs] holds the files that can
    be read: for any other path the call throws. *)
Definition readFileSync (path : string) : Proc string :=
  fun s =>
    match fs (world s) !! path with
    | Some content => (Continue (Buffer_toString content), s)
    | None => (Thrown (SystemError "ENOENT"), s)
    end.

Definition loadVoiceData : Proc json :=
  fun s =>
    if negb (truthy (Some (cachedVoiceData s))) then
      and_then (readFileSync VOICES_PATH)
        (fun raw s1 =>
           match JSON_parse_logged raw (world s1) with
           | (Some data, w') => (Continue data, mkScript data w')
           | (None, w') =>
               (Thrown (SyntaxError "Unexpected token"), mkScript (cachedVoiceData s1) w')
           end) s
    else (Continue (cachedVoiceData s), s).

(** [data.voices || {}] *)
Definition getVoiceMap : Proc json :=
  and_then loadVoiceData
    (fun data s =>
       match get data "voices" with
       | Normal voices =>
           (Continue (if truthy voices then default JNull voices else JObj []), s)
       | Throw e => (Thrown e, s)
       end).

(** [listVoiceNames()]: the names are only printed; what is kept is the
    call of [getVoiceMap], which may read the file and may throw. *)
Definition listVoiceNames : Proc unit :=
  and_then getVoiceMap (fun _ s => (Continue tt, s)).

(** The loop of [parseArgs] from index [i] on; [args] is what is left of
    [process.argv.slice(2)] from [i]. A flag with a value that is missing
    or empty matches no branch. *)
Fixpoint parseArgs_loop (args : list string) (opts : Opts) : Proc Opts :=
  match args with
  | [] => fun s => (Continue opts, s)
  | arg :: rest =>
      match value_flag arg, rest with
      | Some assign, next :: rest' =>
          if negb (String.eqb next "") then parseArgs_loop rest' (assign next opts)
          else parseArgs_loop rest opts
      | Some _, [] => parseArgs_loop rest opts
      | None, _ =>
          if String.eqb arg "--stream" then
            parseArgs_loop rest
              (mkOpts (opts_text opts) (opts_voice opts) (opts_output opts) true)
          else if String.eqb arg "--help" then
            and_then listVoiceNames (fun _ s => (Exits 0, s))
          else parseArgs_loop rest opts
      end
  end.

Definition parseArgs (args : list string) : Proc Opts :=
  parseArgs_loop args (mkOpts None None "output.mp3" false).

(** [voiceMap[voiceName]] *)
Definition property (voiceMap : json) (voiceName : string) : Property :=
  match voiceMap with
  | JObj fields =>
      match lookup_last voiceName fields with
      | Some v => Data v
      | None =>
          if existsb (String.eqb voiceName) Object_prototype then Builtin else Undefined
      end
  | _ => exotic_property voiceMap voiceName
  end.

(** The object [{ text: opts.text, voice_id: voiceId }] *)
Definition speech_options (opts : Opts) (voiceId : option json) : SpeechOptions :=
  mkSpeechOptions (opts_text opts) voiceId None None None None None.

(** [main] from [new VoiceAI(apiKey)] on, with an [apiKey] that is
    truthy; the two versions of the script agree on it. *)
Definition main_with_key (opts : Opts) (apiKey : option string)
    (schedule : list StreamEvent) (s1 : Script) : Ended * Script :=
  match constructor apiKey (mkClientOptions None None) with
  | Throw _ => (Exit 1, s1)
  | Normal client =>
      match getVoiceMap s1 with
      | (Exits c, s2) => (Exit c, s2)
      | (Thrown _, s2) => (Exit 1, s2)
      | (Continue voiceMap, s2) =>
          let voiceName :=
            if truthy_string (opts_voice opts)
            then toLowerCase <$> opts_voice opts else None in
          let voiceEntry :=
            if truthy_string voiceName
            then property voiceMap (default "" voiceName) else Undefined in
          if truthy_string voiceName && negb (truthy_property voiceEntry) then
            (Exit 1, snd (listVoiceNames s2))
          else
            let voiceId :=
              if truthy_property voiceEntry then voice_id_of voiceEntry else None in
            let options := speech_options opts voiceId in
            let '(o, w') :=
              (if opts_stream opts
               then streamSpeechToFile server client options (opts_output opts) schedule
               else generateSpeechToFile server client options (opts_output opts))
                (world s2) in
            (ending o, mkScript (cachedVoiceData s2) w')
      end
  end.

(** [main().catch(err => { ...; process.exit(1) })] of the script that
    takes its key from the environment only, with the arguments after the
    script's name, the value of [process.env.VOICE_AI_API_KEY] and the
    events of the streams. *)
Definition main (args : list string) (VOICE_AI_API_KEY : option string)
    (schedule : list StreamEvent) (s : Script) : Ended * Script :=
  match parseArgs args s with
  | (Exits c, s1) => (Exit c, s1)
  | (Thrown _, s1) => (Exit 1, s1)
  | (Continue opts, s1) =>
      if negb (truthy_string (opts_text opts)) then (Exit 1, s1)
      else if negb (truthy_string VOICE_AI_API_KEY) then (Exit 1, s1)
      else main_with_key opts VOICE_AI_API_KEY schedule s1
  end.

(** *** The script that also reads [.env] *)

(** [path.join(__dirname, '..', '.env')] *)
Variable ENV_PATH : string.

(** [String.prototype.trim] *)
Variable trim : string -> string.

(** The paths that exist and cannot be read as a file (a directory, a
    file that this process may not read), each with the code of the error
    that reading it throws; [fs] holds the files that can be read. *)
Variable obstructed : gmap string string.

(** [fs.existsSync(path)] *)
Definition existsSync (path : string) : Proc bool :=
  fun s =>
    (Continue (bool_decide (is_Some (fs (world s) !! path))
               || bool_decide (is_Some (obstructed !! path))), s).

(** [fs.readFileSync(path, 'utf8')] of a path that may exist without
    being readable *)
Definition readFileSync_existing (path : string) : Proc string :=
  fun s =>
    match fs (world s) !! path with
    | Some content => (Continue (Buffer_toString content), s)
    | None => (Thrown (SystemError (default "ENOENT" (obstructed !! path))), s)
    end.

(** The body of the loop over the lines of [.env]. An assignment to
    [__proto__] of a string leaves the object as it is. *)
Definition env_line (env : gmap string string) (line : string) : gmap string string :=
  let trimmed := trim line in
  if String.eqb trimmed "" || String.prefix "#" trimmed then env
  else if free_of "=" trimmed then env
  else
    let '(before, after) := cut_at "=" trimmed in
    let key := trim before in
    let value := unquote (trim after) in
    if String.eqb key "__proto__" then env else <[key := value]> env.

Definition readEnvFile : Proc (gmap string string) :=
  and_then (existsSync ENV_PATH)
    (fun found =>
       if negb found then fun s => (Continue ∅, s)
       else
         and_then (readFileSync_existing ENV_PATH)
           (fun text s => (Continue (fold_left env_line (split_lines text) ∅), s))).

Definition resolveApiKey (VOICE_AI_API_KEY : option string) : Proc (option string) :=
  if truthy_string VOICE_AI_API_KEY then fun s => (Continue VOICE_AI_API_KEY, s)
  else and_then readEnvFile (fun env s => (Continue (env !! "VOICE_AI_API_KEY"), s)).

(** [main().catch(...)] of the script that takes its key from
    [resolveApiKey()]. *)
Definition main_dotenv (args : list string) (VOICE_AI_API_KEY : option string)
    (schedule : list StreamEvent) (s : Script) : Ended * Script :=
  match parseArgs args s with
  | (Exits c, s1) => (Exit c, s1)
  | (Thrown _, s1) => (Exit 1, s1)
  | (Continue opts, s1) =>
      if negb (truthy_string (opts_text opts)) then (Exit 1, s1)
      else
        match resolveApiKey VOICE_AI_API_KEY s1 with
        | (Exits c, s2) => (Exit c, s2)
        | (Thrown _, s2) => (Exit 1, s2)
        | (Continue apiKey, s2) =>
            if negb (truthy_string apiKey) then (Exit 1, s2)
            else main_with_key opts apiKey schedule s2
        end
  end.

End CLI.

(** A small installation of the script, for worked examples. *)
Module Shell.

(** The table of voices: one voice, [ellie]. *)
Definition voices_json : string :=
  "{" ++ Examples.quoted "voices" ++ ":{" ++ Examples.quoted "ellie" ++ ":{"
      ++ Examples.quoted "voice_id" ++ ":" ++ Examples.quoted "v-1" ++ "}}}".

Definition VOICES_PATH : string := "voices.json".

(** A fresh process, with the table on the disk. *)
Definition start : Script :=
  mkScript JNull
    (mkWorld (<[VOICES_PATH := list_byte_of_string voices_json]> ∅) ∅ [] []).

(** [toLowerCase] on text of the ASCII range. *)
Definition lower_ascii (c : ascii) : ascii :=
  let n := nat_of_ascii c in
  if Nat.leb 65 n && Nat.leb n 90 then ascii_of_nat (n + 32) else c.

Fixpoint toLowerCase (s : string) : string :=
  match s with
  | EmptyString => EmptyString
  | String c rest => String (lower_ascii c) (toLowerCase rest)
  end.

(** The table of this installation is an object. *)
Definition exotic_property (v : json) (k : string) : Property := Undefined.

Definition ENV_PATH : string := ".env".

(** [trim] on text of the ASCII range. *)
Definition is_space (c : ascii) : bool :=
  let n := nat_of_ascii c in
  (Nat.leb 9 n && Nat.leb n 13) || Nat.eqb n 32.

Fixpoint trim_start (s : string) : string :=
  match s with
  | EmptyString => EmptyString
  | String c rest => if is_space c then trim_start rest else s
  end.

Fixpoint trim_end (s : string) : string :=
  match s with
  | EmptyString => EmptyString
  | String c rest =>
      match trim_end rest with
      | EmptyString => if is_space c then EmptyString else String c EmptyString
      | rest' => String c rest'
      end
  end.

Definition trim (s : string) : string := trim_end (trim_start s).

End Shell.

(** ** Vocabulary for the properties of the command line *)

(** Between two states of the script the disk and the wire are as they
    were: at most the cache and the record of what was parsed differ. *)
Definition same_outside (s s' : Script) : Prop :=
  fs (world s') = fs (world s) /\ unwritable (world s') = unwritable (world s) /\
  sent (world s') = sent (world s).

(** [flag] is followed by [value] somewhere in [args]. *)
Definition adjacent (flag value : string) (args : list string) : Prop :=
  exists before after, args = (before ++ flag :: value :: after)%list.

(** Options whose values all come from [args] or are the defaults. *)
Definition taken_from (args : list string) (opts : Opts) : Prop :=
  (forall t, opts_text opts = Some t -> t <> "" /\ adjacent "--text" t args) /\
  (forall v, opts_voice opts = Some v -> v <> "" /\ adjacent "--voice" v args) /\
  opts_output opts <> "" /\
  (opts_output opts = "output.mp3" \/ adjacent "--output" (opts_output opts) args) /\
  (opts_stream opts = true -> In "--stream" args).

(** The command line of the usage text for given options: the flags in
    the order of the help, each value after its flag. *)
Definition command_line (opts : Opts) : list string :=
  ((match opts_text opts with Some t => ["--text"; t] | None => [] end) ++
   (match opts_voice opts with Some v => ["--voice"; v] | None => [] end) ++
   ["--output"; opts_output opts] ++
   (if opts_stream opts then ["--stream"] else []))%list.

(** ** Vocabulary for the properties of [.env] *)

(** A line [KEY="value"] or [KEY='value'], and the file made of such
    lines, each with its line feed. *)
Definition in_quotes (q : ascii) (v : string) : string := String q (v ++ String q "").

Definition dotenv_line (q : ascii) (entry : string * string) : string :=
  fst entry ++ String "=" (in_quotes q (snd entry)).

Fixpoint dotenv (q : ascii) (entries : list (string * string)) : string :=
  match entries with
  | [] => ""
  | entry :: rest => dotenv_line q entry ++ String "010" (dotenv q rest)
  end.

(** An entry that such a line can carry: the key has no [=] and no line
    feed in it, does not start a comment and is not [__proto__]; the value
    has no line feed in it; and [trim] finds nothing to take from the
    key, from the value in its quotes or from the line. *)
Definition well_formed (trim : string -> string) (q : ascii) (entry : string * string)
    : Prop :=
  free_of "=" (fst entry) = true /\ free_of "010" (fst entry) = true /\
  String.prefix "#" (fst entry) = false /\ fst entry <> "__proto__" /\
  free_of "010" (snd entry) = true /\
  trim (fst entry) = fst entry /\
  trim (in_quotes q (snd entry)) = in_quotes q (snd entry) /\
  trim (dotenv_line q entry) = dotenv_line q entry.

(** * Properties *)

(** ** The shape of the two transports *)

Section Transport_facts.

Context {rt : Runtime}.
Variable server : Server.

Lemma timeout_outcome_eq :
  timeout_outcome =
  Rejected (Sdk (mkSdkError VoiceAIError "Request timeout" (StrCode "TIMEOUT") JNull)).
Proof. reflexivity. Qed.

Lemma log_request_sent ro wr w : sent (log_request ro wr w) <> sent w.
Proof.
  unfold log_request; simpl. intros H.
  apply (f_equal (@List.length _)) in H. rewrite length_app in H. simpl in H. lia.
Qed.

Lemma String_throw v e : String_ v = Throw e -> e = type_error_primitive.
Proof.
  destruct v as [|[]| | | |]; simpl; try discriminate;
    destruct (Object_toString _); simpl; congruence.
Qed.

Lemma add_query_parameters_throw entries url e :
  add_query_parameters entries url = Throw e -> e = type_error_primitive.
Proof.
  revert url. induction entries as [|[key value] rest IH]; intros url; simpl.
  - discriminate.
  - destruct (defined value); [|apply IH].
    destruct value as [v|]; [|apply IH].
    unfold searchParams_append.
    destruct (String_ v) as [s|e'] eqn:Hs; simpl.
    + apply IH.
    + intros H. inversion H; subst. eapply String_throw; eassumption.
Qed.

(** [_request] either fails before the network is touched, leaving the
    world as it was, or hands one request to [https.request]. *)
Lemma _request_cases self method endpoint options w :
  (exists e, _request server self method endpoint options w = (Rejected e, w) /\
             instanceof_AuthenticationError e = false) \/
  (exists url url' ro,
      URL_new ("/api/" ++ API_VERSION ++ endpoint) (baseUrl self) = Some url /\
      protocol url = "https:" /\
      match o_params options with
      | Some entries => add_query_parameters entries url
      | None => Normal url
      end = Normal url' /\
      ro_method ro = method /\ ro_hostname ro = hostname url' /\
      ro_path ro = pathname url' ++ search url' /\
      ro_port ro = default_port url' /\
      ro_timeout ro = Some (timeout self) /\
      _request server self method endpoint options w =
        https_request server ro (written_body options) (_request_on_end options)
          (fun e => Rejected e) (Some timeout_outcome) w).
Proof.
  unfold _request.
  destruct (URL_new _ _) as [url|]; [|left; eexists; split; reflexivity].
  destruct (String.eqb (protocol url) "https:") eqn:Hp; simpl.
  2:{ left; eexists; split; reflexivity. }
  apply String.eqb_eq in Hp.
  destruct (match o_params options with
            | Some entries => add_query_parameters entries url
            | None => Normal url end) as [url'|e] eqn:Hq; simpl.
  - right. eexists url, url', _. repeat split; try eassumption; reflexivity.
  - left; eexists; split; [reflexivity|].
    destruct (o_params options) as [entries|]; [|discriminate].
    apply add_query_parameters_throw in Hq. subst e. reflexivity.
Qed.

Lemma https_request_sent {A : Type} ro wr (f : Response -> Async A) g t w :
  (forall res w0, sent (snd (f res w0)) = sent w0) ->
  sent (snd (https_request server ro wr f g t w)) = (sent w ++ [(ro, wr)])%list.
Proof.
  intros Hf. unfold https_request.
  destruct (server ro wr) as [c| |lat res]; simpl; try reflexivity.
  - destruct (if timer_fires ro None then t else None); reflexivity.
  - destruct (if timer_fires ro (Some lat) then t else None); simpl; [reflexivity|].
    rewrite Hf. reflexivity.
Qed.

End Transport_facts.

(** ** Buffered transport: decoding of a response *)

Section Buffered_responses.

Context {rt : Runtime}.

Lemma timer_quiet ro latency t :
  ro_timeout ro = Some t -> (latency <= t)%N -> timer_fires ro (Some latency) = false.
Proof.
  intros Ht Hl. unfold timer_fires. rewrite Ht.
  apply andb_false_iff. right. apply N.ltb_ge. exact Hl.
Qed.

Lemma https_request_reply {A : Type} ro wr (f : Response -> Async A) g t latency res w :
  timer_fires ro (Some latency) = false ->
  https_request (always (NetReply latency res)) ro wr f g t w = f res (log_request ro wr w).
Proof.
  intros Hq. unfold https_request, always. rewrite Hq. reflexivity.
Qed.

(** A request that went out and was answered in time ends the way the
    ['end'] handler says. *)
Lemma _request_answered self method endpoint options latency res w o w' :
  _request (always (NetReply latency res)) self method endpoint options w = (o, w') ->
  sent w' <> sent w ->
  (latency <= timeout self)%N ->
  exists ro, _request_on_end options res (log_request ro (written_body options) w) = (o, w').
Proof.
  intros Hrun Hsent Hlat.
  destruct (_request_cases (always (NetReply latency res)) self method endpoint options w)
    as [[e [He _]]|(url & url' & ro & _ & _ & _ & _ & _ & _ & _ & Ht & Heq)].
  - rewrite He in Hrun. inversion Hrun; subst. contradiction.
  - exists ro. rewrite Heq in Hrun.
    rewrite https_request_reply in Hrun by (eapply timer_quiet; eassumption).
    exact Hrun.
Qed.

End Buffered_responses.

(** C2. A buffered request answered with a status below 400 resolves with
    the bytes received, untouched and without any call of [JSON.parse],
    when the content type starts with [audio/] or the caller asked for a
    binary result; otherwise it resolves with the value [JSON.parse] gives
    for the body, or with the body text itself when the text is not JSON. *)
Theorem buffered_success_decoding {rt : Runtime} self method endpoint options
    latency res w o w' :
  _request (always (NetReply latency res)) self method endpoint options w = (o, w') ->
  sent w' <> sent w ->
  (latency <= timeout self)%N ->
  statusCode res < 400 ->
  let buffer := concat (chunks res) in
  let text := Buffer_toString buffer in
  let binary :=
    String.prefix "audio/" (default "" (headers res !! "content-type"))
    || o_binary options in
  (binary = true -> o = Resolved (VBuffer buffer) /\ parsed w' = parsed w) /\
  (binary = false -> forall v, JSON_parse text = Some v -> o = Resolved (VJson v)) /\
  (binary = false -> JSON_parse text = None -> o = Resolved (VJson (JStr text))).
Proof.
  intros Hrun Hsent Hlat Hstatus buffer text binary.
  destruct (_request_answered _ _ _ _ _ _ _ _ _ Hrun Hsent Hlat) as [ro Hend].
  unfold _request_on_end in Hend.
  assert (Hlow : Z.leb 400 (statusCode res) = false) by (apply Z.leb_gt; lia).
  rewrite Hlow in Hend. fold buffer in Hend. fold binary in Hend.
  destruct binary eqn:Hb.
  - inversion Hend; subst. repeat split; intros; try discriminate; reflexivity.
  - unfold JSON_parse_logged in Hend. fold text in Hend.
    repeat split; try discriminate.
    + intros _ v Hv. rewrite Hv in Hend. inversion Hend; reflexivity.
    + intros _ Hv. rewrite Hv in Hend. inversion Hend; reflexivity.
Qed.

(** An audio reply in two chunks comes back as its six bytes, and
    [JSON.parse] is not called. *)
Lemma buffered_success_decoding_witness :
  let run := _request (rt := Node.runtime) (always (NetReply 10 Examples.audio_reply))
               Examples.client "POST" "/tts/speech" no_options Examples.empty_world in
  (sent (snd run) <> sent Examples.empty_world /\ (10 <= timeout Examples.client)%N
   /\ statusCode Examples.audio_reply < 400) /\
  fst run = Resolved (VBuffer (list_byte_of_string "ID3abc")) /\
  parsed (snd run) = [].
Proof.
  intros run.
  assert (Hsent : sent (snd run) <> sent Examples.empty_world) by (vm_compute; discriminate).
  assert (Hlat : (10 <= timeout Examples.client)%N) by (vm_compute; discriminate).
  assert (Hst : statusCode Examples.audio_reply < 400) by reflexivity.
  split; [auto|].
  exact (proj1 (buffered_success_decoding (rt := Node.runtime) Examples.client "POST"
                  "/tts/speech" no_options 10 Examples.audio_reply Examples.empty_world
                  (fst run) (snd run) (surjective_pairing run) Hsent Hlat Hst) eq_refl).
Defined.

(** ** Buffered transport: the error taxonomy *)

Lemma switch_default {A : Type} (status : Z) (a b c d e f : A) :
  status <> 401 -> status <> 402 -> status <> 404 -> status <> 422 -> status <> 429 ->
  match status with
  | 401 => a | 402 => b | 404 => c | 422 => d | 429 => e | _ => f
  end = f.
Proof.
  intros H1 H2 H3 H4 H5.
  destruct status as [|p|p]; try reflexivity.
  do 9 (destruct p as [p|p|]; try reflexivity); congruence.
Qed.

Lemma kind_of_status_other status :
  status <> 401 -> status <> 402 -> status <> 404 -> status <> 422 -> status <> 429 ->
  kind_of_status status = GENERIC.
Proof. apply switch_default. Qed.

Section Buffered_errors.

Context {rt : Runtime}.

Lemma coerce_message_coercible dflt m :
  coercible m -> exists s, coerce_message dflt m = Normal s.
Proof.
  destruct m as [v|]; simpl; [intros [s Hs]; eauto | eauto].
Qed.

(** The switch rejects with an error of the SDK, or an exception escapes
    from it; an [AuthenticationError] comes from status 401 only. *)
Lemma reject_for_status_cases status errorData :
  (exists e, in_callback (reject_for_status status errorData) = Rejected (Sdk e) /\
             (name e = AuthenticationError -> status = 401)) \/
  (exists x, in_callback (reject_for_status status errorData) = Uncaught x).
Proof.
  unfold reject_for_status.
  destruct (Z.eq_dec status 401) as [E|N1];
    [|destruct (Z.eq_dec status 402) as [E|N2];
      [|destruct (Z.eq_dec status 404) as [E|N3];
        [|destruct (Z.eq_dec status 422) as [E|N4];
          [|destruct (Z.eq_dec status 429) as [E|N5]]]]].
  1-5: rewrite E.
  6: rewrite switch_default by assumption.
  all: unfold get; destruct (member errorData "error") as [m|]; simpl;
    [|right; eexists; reflexivity].
  all: try (destruct (member errorData "detail") as [d|]; simpl;
            [|right; eexists; reflexivity]).
  all: unfold new_AuthenticationError, new_PaymentRequiredError, new_NotFoundError,
         new_ValidationError, new_RateLimitError, new_VoiceAIError.
  all: match goal with
       | |- context [coerce_message ?dflt ?x] => destruct (coerce_message dflt x); simpl
       end.
  all: try (right; eexists; reflexivity).
  all: left; eexists; split; [reflexivity|simpl; congruence].
Qed.

(** The mapping the specification documents holds for every error body
    that is not the JSON text [null] and whose [error] field can be made
    into a message. *)
Lemma buffered_error_mapping self method endpoint options latency res w o w' m d :
  _request (always (NetReply latency res)) self method endpoint options w = (o, w') ->
  sent w' <> sent w ->
  (latency <= timeout self)%N ->
  400 <= statusCode res ->
  let text := Buffer_toString (concat (chunks res)) in
  let errorData := errorData_of (JSON_parse text) text in
  member errorData "error" = Some m ->
  member errorData "detail" = Some d ->
  coercible m ->
  exists e,
    o = Rejected (Sdk e) /\
    kind_of e = kind_of_status (statusCode res) /\
    (statusCode res = 422 -> details e = default JNull d) /\
    (kind_of_status (statusCode res) = GENERIC ->
       code e = NumCode (statusCode res) /\ details e = default JNull d).
Proof.
  intros Hrun Hsent Hlat Hstatus text errorData Hm Hd Hc.
  destruct (_request_answered _ _ _ _ _ _ _ _ _ Hrun Hsent Hlat) as [ro Hend].
  unfold _request_on_end in Hend.
  assert (Hhigh : Z.leb 400 (statusCode res) = true) by (apply Z.leb_le; lia).
  rewrite Hhigh in Hend. unfold JSON_parse_logged in Hend.
  fold text in Hend. fold errorData in Hend.
  unfold reject_for_status, get in Hend. rewrite Hm, Hd in Hend.
  inversion Hend as [[Ho Hw]]. clear Hend Hw.
  destruct (Z.eq_dec (statusCode res) 401) as [E|N1];
    [|destruct (Z.eq_dec (statusCode res) 402) as [E|N2];
      [|destruct (Z.eq_dec (statusCode res) 404) as [E|N3];
        [|destruct (Z.eq_dec (statusCode res) 422) as [E|N4];
          [|destruct (Z.eq_dec (statusCode res) 429) as [E|N5]]]]].
  1-5: rewrite E; simpl.
  - destruct (coerce_message_coercible "Invalid or missing API key" m Hc) as [s Hs].
    unfold new_AuthenticationError. rewrite Hs. simpl.
    eexists; repeat split; try discriminate.
  - destruct (coerce_message_coercible
                "Insufficient credits or voice slot limit reached" m Hc) as [s Hs].
    unfold new_PaymentRequiredError. rewrite Hs. simpl.
    eexists; repeat split; try discriminate.
  - destruct (coerce_message_coercible "Resource not found" m Hc) as [s Hs].
    unfold new_NotFoundError. rewrite Hs. simpl.
    eexists; repeat split; try discriminate.
  - destruct (coerce_message_coercible "" m Hc) as [s Hs].
    unfold new_ValidationError. rewrite Hs. simpl.
    eexists; repeat split; try discriminate.
  - destruct (coerce_message_coercible "Rate limit exceeded" m Hc) as [s Hs].
    unfold new_RateLimitError. rewrite Hs. simpl.
    eexists; repeat split; try discriminate.
  - rewrite switch_default by assumption.
    rewrite kind_of_status_other by assumption.
    destruct (coerce_message_coercible "" m Hc) as [s Hs].
    unfold new_VoiceAIError. rewrite Hs. simpl.
    eexists; repeat split; congruence.
Qed.

End Buffered_errors.

(** C1, where the code departs from it. A response with status 500 whose
    body is the JSON text [null]: [JSON.parse] succeeds with [null], the
    read of [errorData.error] throws inside the ['end'] handler, and the
    promise is never rejected. *)
Theorem buffered_null_error_body :
  fst (_request (rt := Node.runtime) (always (NetReply 10 (Examples.error_reply 500 "null")))
         Examples.client "GET" "/tts/voices" no_options Examples.empty_world)
  = Uncaught (TypeError "Cannot read properties of null").
Proof. vm_compute. reflexivity. Qed.

(** ** Local preconditions *)

(** C5. A local precondition failure ends the call with its documented
    kind and leaves the world exactly as it was, so no request was put on
    the wire: a client built without an API key (the constructor throws
    [AuthenticationError]); a base URL that resolves to a scheme other than
    [https:], on either transport; an empty text in [generateSpeech] and
    [streamSpeech]; a missing voice ID in [getVoice], [updateVoice] and
    [deleteVoice]. *)
Theorem local_preconditions_before_network {rt : Runtime} (server : Server) :
  (forall key options,
      truthy_string key = false ->
      exists e, constructor key options = Throw (Sdk e) /\ kind_of e = AUTHENTICATION) /\
  (forall self method endpoint options url w,
      URL_new ("/api/" ++ API_VERSION ++ endpoint) (baseUrl self) = Some url ->
      protocol url <> "https:" ->
      exists e, kind_of e = VALIDATION /\
        _request server self method endpoint options w = (Rejected (Sdk e), w) /\
        _streamRequest server self method endpoint options w = (Rejected (Sdk e), w)) /\
  (forall self options w,
      truthy_string (text options) = false ->
      exists e, kind_of e = VALIDATION /\
        generateSpeech server self options w = (Rejected (Sdk e), w) /\
        streamSpeech server self options w = (Rejected (Sdk e), w)) /\
  (forall self voiceId updates w,
      truthy_string voiceId = false ->
      exists e, kind_of e = VALIDATION /\
        getVoice server self voiceId w = (Rejected (Sdk e), w) /\
        updateVoice server self voiceId updates w = (Rejected (Sdk e), w) /\
        deleteVoice server self voiceId w = (Rejected (Sdk e), w)).
Proof.
  split; [|split; [|split]].
  - intros key options Hkey. unfold constructor. rewrite Hkey. simpl.
    eexists; split; reflexivity.
  - intros self method endpoint options url w Hurl Hproto.
    unfold _request, _streamRequest. rewrite Hurl.
    apply String.eqb_neq in Hproto. rewrite Hproto. simpl.
    eexists. split; [|split; reflexivity]. reflexivity.
  - intros self options w Htext.
    unfold generateSpeech, streamSpeech. rewrite Htext. simpl.
    eexists. split; [|split; reflexivity]. reflexivity.
  - intros self voiceId updates w Hid.
    unfold getVoice, updateVoice, deleteVoice. rewrite Hid. simpl.
    eexists. split; [|split; [|split]; reflexivity]. reflexivity.
Qed.

(** An empty API key, a client configured with an [http:] base URL and a
    missing voice ID, none of which reaches the network. *)
Lemma local_preconditions_before_network_witness :
  (truthy_string (Some "") = false /\
   exists e, constructor (rt := Node.runtime) (Some "") (mkClientOptions None None)
             = Throw (Sdk e) /\ kind_of e = AUTHENTICATION) /\
  (exists e, kind_of e = VALIDATION /\
     _request (rt := Node.runtime) (always NetSilent) Examples.insecure_client
       "GET" "/tts/voices" no_options Examples.empty_world
     = (Rejected (Sdk e), Examples.empty_world) /\
     _streamRequest (rt := Node.runtime) (always NetSilent) Examples.insecure_client
       "GET" "/tts/voices" no_options Examples.empty_world
     = (Rejected (Sdk e), Examples.empty_world)) /\
  (exists e, kind_of e = VALIDATION /\
     getVoice (rt := Node.runtime) (always NetSilent) Examples.client None
       Examples.empty_world = (Rejected (Sdk e), Examples.empty_world) /\
     updateVoice (rt := Node.runtime) (always NetSilent) Examples.client None None
       Examples.empty_world = (Rejected (Sdk e), Examples.empty_world) /\
     deleteVoice (rt := Node.runtime) (always NetSilent) Examples.client None
       Examples.empty_world = (Rejected (Sdk e), Examples.empty_world)).
Proof.
  pose proof (local_preconditions_before_network (rt := Node.runtime) (always NetSilent))
    as (Hctor & Hscheme & _ & Hvoice).
  split; [split; [reflexivity | apply Hctor; reflexivity]|].
  split.
  - eapply (Hscheme Examples.insecure_client "GET" "/tts/voices" no_options).
    + vm_compute. reflexivity.
    + simpl. discriminate.
  - apply Hvoice. reflexivity.
Defined.

(** ** What a buffered request can do to the world and how it can end *)

Section Buffered_outcomes.

Context {rt : Runtime}.
Variable server : Server.

Lemma _request_on_end_outcomes options res w o w' :
  _request_on_end options res w = (o, w') ->
  fs w' = fs w /\ unwritable w' = unwritable w /\ sent w' = sent w /\
  (forall e, o = Rejected (Sdk e) -> name e = AuthenticationError -> statusCode res = 401) /\
  (o_binary options = true -> forall v, o = Resolved v -> exists b, v = VBuffer b).
Proof.
  unfold _request_on_end, JSON_parse_logged.
  destruct (Z.leb 400 (statusCode res)).
  - intros H. inversion H as [[Ho Hw]]. simpl. repeat split; try reflexivity.
    + intros e He Hname.
      destruct (reject_for_status_cases (statusCode res)
                  (errorData_of (JSON_parse (Buffer_toString (concat (chunks res))))
                     (Buffer_toString (concat (chunks res)))))
        as [(e' & Heq & Hauth)|(x & Heq)]; rewrite Heq in He.
      * inversion He; subst. auto.
      * discriminate.
    + intros _ v Hv.
      destruct (reject_for_status_cases (statusCode res)
                  (errorData_of (JSON_parse (Buffer_toString (concat (chunks res))))
                     (Buffer_toString (concat (chunks res)))))
        as [(e' & Heq & _)|(x & Heq)]; rewrite Heq in Hv; discriminate.
  - destruct (String.prefix "audio/" (default "" (headers res !! "content-type")))
      eqn:Haudio; simpl.
    + intros H. inversion H; subst. repeat split; try discriminate.
      intros _ v Hv. inversion Hv. eauto.
    + destruct (o_binary options) eqn:Hbin.
      * intros H. inversion H; subst. repeat split; try discriminate.
        intros _ v Hv. inversion Hv. eauto.
      * destruct (JSON_parse _); intros H; inversion H; subst; simpl;
          repeat split; discriminate.
Qed.

Lemma _request_outcomes self method endpoint options w o w' :
  _request server self method endpoint options w = (o, w') ->
  fs w' = fs w /\ unwritable w' = unwritable w /\
  (forall e, o = Rejected (Sdk e) -> name e = AuthenticationError ->
     exists ro wr latency res,
       server ro wr = NetReply latency res /\ statusCode res = 401) /\
  (o_binary options = true -> forall v, o = Resolved v -> exists b, v = VBuffer b).
Proof.
  intros Hrun.
  destruct (_request_cases server self method endpoint options w)
    as [[x [Hx Hnot]]|(url & url' & ro & _ & _ & _ & _ & _ & _ & _ & _ & Heq)].
  - rewrite Hx in Hrun. inversion Hrun; subst. repeat split; try discriminate.
    intros e He Hname. inversion He; subst. simpl in Hnot. rewrite Hname in Hnot.
    discriminate.
  - rewrite Heq in Hrun. unfold https_request in Hrun.
    destruct (server ro (written_body options)) as [cause| |latency res] eqn:Hsrv.
    + inversion Hrun; subst. repeat split; discriminate.
    + destruct (timer_fires ro None); simpl in Hrun; inversion Hrun; subst;
        repeat split; try discriminate.
      intros e He Hname. rewrite timeout_outcome_eq in He. inversion He; subst.
      discriminate.
    + destruct (timer_fires ro (Some latency)); simpl in Hrun.
      * inversion Hrun; subst. repeat split; try discriminate.
        intros e He Hname. rewrite timeout_outcome_eq in He. inversion He; subst.
        discriminate.
      * apply _request_on_end_outcomes in Hrun.
        destruct Hrun as (Hfs & Hun & _ & Hauth & Hbin).
        repeat split; try assumption.
        intros e He Hname. exists ro, (written_body options), latency, res. eauto.
Qed.

End Buffered_outcomes.

(** ** Utility methods *)

Lemma kind_of_authentication e :
  kind_of e = AUTHENTICATION <-> name e = AuthenticationError.
Proof.
  unfold kind_of. destruct (name e); split; try discriminate; try reflexivity.
  destruct (code e) as [n|s]; [discriminate|].
  destruct (String.eqb s "TIMEOUT"); discriminate.
Qed.

Section Probe.

Context {rt : Runtime}.
Variable server : Server.

(** A rejection with an [AuthenticationError] comes from the answer to
    the very request that was sent, and that answer has the status 401. *)
Lemma _request_authentication self method endpoint options w e :
  fst (_request server self method endpoint options w) = Rejected (Sdk e) ->
  name e = AuthenticationError ->
  exists ro latency res,
    sent (snd (_request server self method endpoint options w))
      = (sent w ++ [(ro, written_body options)])%list /\
    server ro (written_body options) = NetReply latency res /\
    statusCode res = 401.
Proof.
  intros Hrun Hname.
  destruct (_request_cases server self method endpoint options w)
    as [[x [Hx Hnot]]|(url & url' & ro & _ & _ & _ & _ & _ & _ & _ & _ & Heq)].
  - rewrite Hx in Hrun. simpl in Hrun. inversion Hrun; subst.
    simpl in Hnot. rewrite Hname in Hnot. discriminate.
  - rewrite Heq in *. unfold https_request in *.
    destruct (server ro (written_body options)) as [cause| |latency res] eqn:Hsrv.
    + discriminate.
    + destruct (timer_fires ro None); simpl in Hrun; [|discriminate].
      rewrite timeout_outcome_eq in Hrun. inversion Hrun; subst. discriminate.
    + exists ro, latency, res.
      destruct (timer_fires ro (Some latency)); simpl in *.
      * rewrite timeout_outcome_eq in Hrun. inversion Hrun; subst. discriminate.
      * destruct (_request_on_end options res (log_request ro (written_body options) w))
          as [o w'] eqn:Hend.
        apply _request_on_end_outcomes in Hend.
        destruct Hend as (_ & _ & Hsent & Hauth & _). simpl in *.
        split; [exact Hsent|]. split; [exact Hsrv|]. exact (Hauth e Hrun Hname).
Qed.

(** What [validateApiKey] makes of each way its probe, [listVoices] with
    limit 1, can end. An exception that escapes from the probe escapes
    from [validateApiKey] as well: it is turned neither into [true] nor
    into [false], and rejects nothing. *)
Lemma validateApiKey_characterised self w :
  validateApiKey server self w =
  match listVoices server self (mkListOptions (Some (JNum (inject_Z 1))) None None) w with
  | (Resolved _, w') => (Resolved true, w')
  | (Rejected x, w') =>
      if instanceof_AuthenticationError x then (Resolved false, w') else (Rejected x, w')
  | (Uncaught x, w') => (Uncaught x, w')
  | (Pending, w') => (Pending, w')
  end.
Proof.
  unfold validateApiKey, try_catch, mbind, Async_bind, await.
  destruct (listVoices server self _ w) as [[v|x|x|] w1]; try reflexivity.
  unfold throw, resolve. destruct (instanceof_AuthenticationError x); reflexivity.
Qed.

(** [false] comes from a 401 and from nothing else: when [validateApiKey]
    resolves with [false], its one request was answered with the status
    401. *)
Lemma validateApiKey_false self w :
  fst (validateApiKey server self w) = Resolved false ->
  exists ro latency res,
    sent (snd (validateApiKey server self w)) = (sent w ++ [(ro, None)])%list /\
    server ro None = NetReply latency res /\ statusCode res = 401.
Proof.
  rewrite validateApiKey_characterised. unfold listVoices.
  match goal with
  | |- context [_request server self ?m ?e ?o w] =>
      pose proof (_request_authentication self m e o w) as Hauth;
      destruct (_request server self m e o w) as [[v|x|x|] w1]
  end; simpl in *; try discriminate.
  destruct x as [e|msg|msg|cause]; simpl; try discriminate.
  destruct (name e) eqn:Hname; simpl; try discriminate.
  intros _. exact (Hauth e eq_refl Hname).
Qed.

End Probe.

(** A 401 whose body can be read as an error makes [validateApiKey]
    resolve with [false]. *)
Lemma validateApiKey_on_401 {rt : Runtime} self latency res w m :
  sent (snd (validateApiKey (always (NetReply latency res)) self w)) <> sent w ->
  (latency <= timeout self)%N ->
  statusCode res = 401 ->
  let text := Buffer_toString (concat (chunks res)) in
  member (errorData_of (JSON_parse text) text) "error" = Some m ->
  coercible m ->
  fst (validateApiKey (always (NetReply latency res)) self w) = Resolved false.
Proof.
  intros Hsent Hlat Hstatus text Hm Hc.
  rewrite validateApiKey_characterised in *. unfold listVoices in *.
  match goal with
  | |- context [_request ?srv self ?mth ?e ?o w] =>
      destruct (_request srv self mth e o w) as [out w1] eqn:Hrun
  end.
  assert (Hsent1 : sent w1 <> sent w).
  { destruct out as [v|x|x|]; simpl in Hsent; try exact Hsent.
    destruct (instanceof_AuthenticationError x); exact Hsent. }
  assert (Hd : exists d, member (errorData_of (JSON_parse text) text) "detail" = Some d).
  { destruct (errorData_of (JSON_parse text) text); simpl in *; try discriminate; eauto. }
  destruct Hd as [d Hd].
  destruct (buffered_error_mapping _ _ _ _ _ _ _ _ _ m d Hrun Hsent1 Hlat ltac:(lia)
              Hm Hd Hc) as (e & -> & Hkind & _).
  rewrite Hstatus in Hkind. apply kind_of_authentication in Hkind.
  simpl. rewrite Hkind. reflexivity.
Qed.

(** C8, where the code departs from it. The server answers the probe of
    [validateApiKey] with the status 401 and the JSON text [null] as its
    body: the read of [errorData.error] throws inside the ['end'] handler
    of the probe, the promise of the probe is never settled, and
    [validateApiKey] does not return [false]: the exception escapes. With
    a body that names an error, the same status gives [false]. *)
Theorem validateApiKey_null_error_body :
  fst (validateApiKey (rt := Node.runtime)
         (always (NetReply 10 (Examples.error_reply 401 "null")))
         Examples.client Examples.empty_world)
  = Uncaught (TypeError "Cannot read properties of null") /\
  fst (validateApiKey (rt := Node.runtime)
         (always (NetReply 10 (Examples.error_reply 401 Examples.bad_key_body)))
         Examples.client Examples.empty_world)
  = Resolved false.
Proof. split; vm_compute; reflexivity. Qed.

(** ** Writing generated speech to a file *)

(** C10. [generateSpeechToFile] touches the disk only after
    [generateSpeech] has resolved. If the request is rejected, or never
    settles, the call ends the same way and every file is as it was. If it
    resolves, it resolves with a buffer, and one [writeFileSync] puts the
    whole buffer at the output path and the call resolves with that path;
    when the operating system refuses the write, the call is rejected and
    every file is as it was. *)
Theorem generateSpeechToFile_atomic {rt : Runtime} (server : Server) self options
    outputPath w :
  let request := generateSpeech server self options w in
  let result := generateSpeechToFile server self options outputPath w in
  match fst request with
  | Resolved audio =>
      exists bytes, audio = VBuffer bytes /\
        if bool_decide (outputPath ∈ unwritable w) then
          fst result = Rejected (SystemError "EACCES") /\ fs (snd result) = fs w
        else
          fst result = Resolved outputPath /\
          fs (snd result) = <[outputPath := bytes]> (fs w)
  | Rejected e => result = (Rejected e, snd request) /\ fs (snd result) = fs w
  | Uncaught e => result = (Uncaught e, snd request) /\ fs (snd result) = fs w
  | Pending => result = (Pending, snd request) /\ fs (snd result) = fs w
  end.
Proof.
  intros request result.
  assert (Hworld : fs (snd request) = fs w /\ unwritable (snd request) = unwritable w /\
                   forall v, fst request = Resolved v -> exists b, v = VBuffer b).
  { subst request. unfold generateSpeech.
    destruct (negb (truthy_string (text options))).
    - simpl. repeat split. discriminate.
    - pose proof (_request_outcomes server self "POST" "/tts/speech"
                    (mkOptions None ∅ (Some (BodyObject (speech_body options))) false true)
                    w _ _ (surjective_pairing _)) as (Hfs & Hun & _ & Hbin).
      split; [exact Hfs|split; [exact Hun|]]. apply Hbin. reflexivity. }
  destruct Hworld as (Hfs & Hun & Hbuf).
  subst result. unfold generateSpeechToFile, mbind, Async_bind, await.
  fold request. destruct request as [[audio|e|e|] w1]; simpl in *; auto.
  destruct (Hbuf audio eq_refl) as [bytes ->]. exists bytes. split; [reflexivity|].
  unfold writeFileSync. rewrite Hun.
  destruct (bool_decide (outputPath ∈ unwritable w)); simpl.
  - auto.
  - rewrite Hfs. auto.
Qed.

(** An audio reply written to [out.mp3]. *)
Lemma generateSpeechToFile_atomic_witness :
  let server := always (NetReply 10 Examples.audio_reply) in
  let result := generateSpeechToFile (rt := Node.runtime) server Examples.client
                  Examples.hello "out.mp3" Examples.empty_world in
  fst (generateSpeech (rt := Node.runtime) server Examples.client Examples.hello
         Examples.empty_world) = Resolved (VBuffer (list_byte_of_string "ID3abc")) /\
  fst result = Resolved "out.mp3" /\
  fs (snd result) = <["out.mp3" := list_byte_of_string "ID3abc"]> ∅.
Proof.
  intros server result.
  assert (Hrequest : fst (generateSpeech (rt := Node.runtime) server Examples.client
                            Examples.hello Examples.empty_world)
                     = Resolved (VBuffer (list_byte_of_string "ID3abc")))
    by (vm_compute; reflexivity).
  split; [exact Hrequest|].
  pose proof (generateSpeechToFile_atomic (rt := Node.runtime) server Examples.client
                Examples.hello "out.mp3" Examples.empty_world) as Hatomic.
  cbv zeta in Hatomic. rewrite Hrequest in Hatomic.
  destruct Hatomic as (bytes & Hbytes & Hwrite).
  rewrite bool_decide_eq_false_2 in Hwrite by apply not_elem_of_empty.
  inversion Hbytes; subst bytes. exact Hwrite.
Defined.

(** ** Streaming transport: an error status *)

Section Streaming_errors.

Context {rt : Runtime}.

Lemma _streamRequest_on_response_error res w :
  400 <= statusCode res ->
  exists e,
    _streamRequest_on_response res w =
      (Rejected (Sdk e),
       mkWorld (fs w) (unwritable w) (sent w)
         (parsed w ++ [Buffer_toString (concat (chunks res))])) /\
    name e = VoiceAIError /\ code e = NumCode (statusCode res) /\
    (JSON_parse (Buffer_toString (concat (chunks res))) = None ->
     message e = "Request failed").
Proof.
  intros Hstatus. unfold _streamRequest_on_response, JSON_parse_logged.
  assert (Hhigh : Z.leb 400 (statusCode res) = true) by (apply Z.leb_le; lia).
  rewrite Hhigh.
  destruct (JSON_parse (Buffer_toString (concat (chunks res)))) as [errorData|].
  - unfold get. destruct (member errorData "error") as [m|]; simpl.
    + unfold new_VoiceAIError. destruct (coerce_message "" m) as [msg|x]; simpl.
      * eexists; repeat split; discriminate.
      * eexists; repeat split; discriminate.
    + eexists; repeat split; discriminate.
  - simpl. eexists; repeat split.
Qed.

Lemma _streamRequest_cases server self method endpoint options w :
  (exists e, _streamRequest server self method endpoint options w = (Rejected e, w)) \/
  (exists url ro wr,
      URL_new ("/api/" ++ API_VERSION ++ endpoint) (baseUrl self) = Some url /\
      protocol url = "https:" /\
      ro_method ro = method /\ ro_hostname ro = hostname url /\
      ro_path ro = pathname url /\ ro_port ro = default_port url /\
      ro_timeout ro = None /\
      _streamRequest server self method endpoint options w =
        https_request server ro wr _streamRequest_on_response
          (fun e => Rejected e) None w).
Proof.
  unfold _streamRequest.
  destruct (URL_new _ _) as [url|]; [|left; eexists; reflexivity].
  destruct (String.eqb (protocol url) "https:") eqn:Hp; simpl.
  2:{ left; eexists; reflexivity. }
  apply String.eqb_eq in Hp.
  right. eexists url, _, _. repeat split; try eassumption; reflexivity.
Qed.

End Streaming_errors.

(** C4. When the streaming request of [streamSpeechToFile] is answered
    with a status of 400 or more, the call is rejected with a plain
    [VoiceAIError] (kind GENERIC) whose code is that status, with the
    message [Request failed] when the body is not JSON, and no file is
    created or written. *)
Theorem streamSpeechToFile_error_status {rt : Runtime} self options outputPath schedule
    latency res w o w' :
  streamSpeechToFile (always (NetReply latency res)) self options outputPath schedule w
    = (o, w') ->
  sent w' <> sent w ->
  400 <= statusCode res ->
  exists e,
    o = Rejected (Sdk e) /\ kind_of e = GENERIC /\ code e = NumCode (statusCode res) /\
    (JSON_parse (Buffer_toString (concat (chunks res))) = None ->
     message e = "Request failed") /\
    fs w' = fs w.
Proof.
  intros Hrun Hsent Hstatus.
  unfold streamSpeechToFile, mbind, Async_bind, await, streamSpeech in Hrun.
  destruct (negb (truthy_string (text options))).
  { simpl in Hrun. inversion Hrun; subst. contradiction. }
  destruct (_streamRequest_cases (always (NetReply latency res)) self "POST"
              "/tts/speech/stream"
              (mkOptions None ∅ (Some (BodyObject (speech_body options))) false false) w)
    as [[x Hx]|(url & ro & wr & _ & _ & _ & _ & _ & _ & Ht & Heq)].
  - rewrite Hx in Hrun. inversion Hrun; subst. contradiction.
  - rewrite Heq in Hrun.
    rewrite https_request_reply in Hrun
      by (unfold timer_fires; rewrite Ht; reflexivity).
    destruct (_streamRequest_on_response_error res (log_request ro wr w) Hstatus)
      as (e & He & Hname & Hcode & Hmsg).
    rewrite He in Hrun. inversion Hrun; subst.
    exists e. repeat split; try assumption.
    unfold kind_of. rewrite Hname, Hcode. reflexivity.
Qed.

(** A status 500 with an HTML body: rejected with code 500 and the message
    [Request failed], and no file appears. *)
Lemma streamSpeechToFile_error_status_witness :
  let run := streamSpeechToFile (rt := Node.runtime)
               (always (NetReply 10 (Examples.error_reply 500 "<html>")))
               Examples.client Examples.hello "out.mp3"
               [SourceData; SinkFlush; SourceEnd; SinkFinish] Examples.empty_world in
  (sent (snd run) <> sent Examples.empty_world /\ 400 <= 500) /\
  exists e,
    fst run = Rejected (Sdk e) /\ kind_of e = GENERIC /\ code e = NumCode 500 /\
    (Node.JSON_parse "<html>" = None -> message e = "Request failed") /\
    fs (snd run) = ∅.
Proof.
  intros run.
  assert (Hsent : sent (snd run) <> sent Examples.empty_world) by (vm_compute; discriminate).
  assert (Hst : 400 <= 500) by lia.
  split; [auto|].
  exact (streamSpeechToFile_error_status (rt := Node.runtime) Examples.client Examples.hello
           "out.mp3" [SourceData; SinkFlush; SourceEnd; SinkFinish] 10
           (Examples.error_reply 500 "<html>") Examples.empty_world (fst run) (snd run)
           (surjective_pairing run) Hsent Hst).
Defined.

(** ** Query parameters *)

Lemma app_cons (x : ascii) (a b : string) : String x a ++ b = String x (a ++ b).
Proof. reflexivity. Qed.

Lemma app_empty (b : string) : "" ++ b = b.
Proof. reflexivity. Qed.

Lemma append_assoc (a b c : string) : (a ++ b) ++ c = a ++ (b ++ c).
Proof.
  induction a as [|x a IH]; [reflexivity|].
  rewrite !app_cons, IH. reflexivity.
Qed.

Lemma free_of_app sep a b :
  free_of sep (a ++ b) = free_of sep a && free_of sep b.
Proof.
  unfold free_of. induction a as [|x a IH]; [reflexivity|].
  rewrite app_cons. simpl. rewrite IH. apply andb_assoc.
Qed.

Lemma urlencoded_byte_decode c t :
  urlencoded_decode (urlencoded_byte c ++ t) = String c (urlencoded_decode t).
Proof. destruct c as [[] [] [] [] [] [] [] []]; reflexivity. Qed.

Lemma urlencoded_byte_free c :
  free_of "&" (urlencoded_byte c) = true /\ free_of "=" (urlencoded_byte c) = true.
Proof. destruct c as [[] [] [] [] [] [] [] []]; split; reflexivity. Qed.

Lemma urlencoded_string_decode s : urlencoded_decode (urlencoded_string s) = s.
Proof.
  induction s as [|c s IH]; [reflexivity|].
  cbn [urlencoded_string]. rewrite urlencoded_byte_decode, IH. reflexivity.
Qed.

Lemma urlencoded_string_free s :
  free_of "&" (urlencoded_string s) = true /\ free_of "=" (urlencoded_string s) = true.
Proof.
  induction s as [|c s [IH1 IH2]]; [split; reflexivity|].
  cbn [urlencoded_string]. rewrite !free_of_app, IH1, IH2.
  destruct (urlencoded_byte_free c) as [H1 H2]. rewrite H1, H2. split; reflexivity.
Qed.

Lemma cut_at_free sep a b :
  free_of sep a = true -> cut_at sep (a ++ String sep b) = (a, b).
Proof.
  unfold free_of. induction a as [|x a IH].
  - intros _. rewrite app_empty. simpl. rewrite Ascii.eqb_refl. reflexivity.
  - rewrite app_cons. simpl. intros H. apply andb_true_iff in H. destruct H as [Hx Ha].
    apply negb_true_iff in Hx. rewrite Hx, (IH Ha). reflexivity.
Qed.

Lemma split_on_free sep a :
  free_of sep a = true -> split_on sep a = [a].
Proof.
  unfold free_of. induction a as [|x a IH]; simpl; [reflexivity|].
  intros H. apply andb_true_iff in H. destruct H as [Hx Ha].
  apply negb_true_iff in Hx. rewrite Hx, (IH Ha). reflexivity.
Qed.

Lemma split_on_app sep a b :
  free_of sep a = true -> split_on sep (a ++ String sep b) = a :: split_on sep b.
Proof.
  unfold free_of. induction a as [|x a IH].
  - intros _. rewrite app_empty. simpl. rewrite Ascii.eqb_refl. reflexivity.
  - rewrite app_cons. simpl. intros H. apply andb_true_iff in H. destruct H as [Hx Ha].
    apply negb_true_iff in Hx. rewrite Hx, (IH Ha). reflexivity.
Qed.

Lemma urlencoded_pair_parse k v :
  (let piece := urlencoded_pair k v in
   if String.eqb piece "" then None
   else let '(k', v') := cut_at "=" piece in
        Some (urlencoded_decode k', urlencoded_decode v')) = Some (k, v).
Proof.
  cbv zeta. unfold urlencoded_pair.
  destruct (String.eqb _ "") eqn:E.
  - apply String.eqb_eq in E. destruct (urlencoded_string k); discriminate.
  - rewrite cut_at_free by apply urlencoded_string_free.
    rewrite !urlencoded_string_decode. reflexivity.
Qed.

Lemma urlencoded_pair_free k v : free_of "&" (urlencoded_pair k v) = true.
Proof.
  unfold urlencoded_pair. rewrite free_of_app.
  destruct (urlencoded_string_free k) as [-> _].
  destruct (urlencoded_string_free v) as [Hv _].
  unfold free_of in *. simpl. exact Hv.
Qed.

Lemma urlencoded_serialize_cons k v k2 v2 rest :
  urlencoded_serialize ((k, v) :: (k2, v2) :: rest) =
  urlencoded_pair k v ++ String "&" (urlencoded_serialize ((k2, v2) :: rest)).
Proof.
  unfold urlencoded_pair. cbn [urlencoded_serialize].
  rewrite !append_assoc. rewrite !app_cons, !app_empty. reflexivity.
Qed.

(** Parsing a serialised query gives the pairs back. *)
Lemma urlencoded_roundtrip pairs :
  urlencoded_parse (urlencoded_serialize pairs) = pairs.
Proof.
  unfold urlencoded_parse.
  induction pairs as [|[k v] rest IH]; [reflexivity|].
  destruct rest as [|[k2 v2] rest].
  - change (urlencoded_serialize [(k, v)]) with (urlencoded_pair k v).
    rewrite split_on_free by apply urlencoded_pair_free.
    cbn [omap list_omap]. rewrite urlencoded_pair_parse. reflexivity.
  - rewrite urlencoded_serialize_cons.
    rewrite split_on_app by apply urlencoded_pair_free.
    cbn [omap list_omap]. rewrite urlencoded_pair_parse.
    cbn [omap list_omap] in IH. rewrite IH. reflexivity.
Qed.

Section Query_parameters.

Context {rt : Runtime}.

Lemma is_null_dec (v : json) : v = JNull \/ v <> JNull.
Proof. destruct v; [left; reflexivity|right; discriminate ..]. Qed.

Lemma String_scalar v :
  scalar (Some v) = true -> v <> JNull -> String_ v = Normal (literal v).
Proof.
  destruct v as [|[]| | | |]; simpl; try reflexivity; try discriminate.
  intros _ H. contradiction.
Qed.

Lemma spec_query_pairs_cons key value rest :
  spec_query_pairs ((key, value) :: rest) =
  match value with
  | None | Some JNull => spec_query_pairs rest
  | Some v => (key, literal v) :: spec_query_pairs rest
  end.
Proof. destruct value as [[]|]; reflexivity. Qed.

Lemma add_query_parameters_cons key value rest url :
  add_query_parameters ((key, value) :: rest) url =
  match value with
  | Some v => if defined value
              then url' ← searchParams_append key v url; add_query_parameters rest url'
              else add_query_parameters rest url
  | None => add_query_parameters rest url
  end.
Proof.
  cbn [add_query_parameters].
  destruct value as [v|]; [|reflexivity]. destruct (defined (Some v)); reflexivity.
Qed.

Lemma add_query_parameters_spec entries :
  Forall (fun entry => scalar (snd entry) = true) entries ->
  forall url, exists url',
    add_query_parameters entries url = Normal url' /\
    searchParams url' = (searchParams url ++ spec_query_pairs entries)%list /\
    (spec_query_pairs entries = [] -> url' = url) /\
    (spec_query_pairs entries <> [] ->
       search url' = "?" ++ urlencoded_serialize (searchParams url')) /\
    protocol url' = protocol url /\ hostname url' = hostname url /\
    port url' = port url /\ pathname url' = pathname url.
Proof.
  induction 1 as [|[key value] rest Hscalar _ IH]; intros url.
  - exists url. simpl. rewrite app_nil_r. repeat split; congruence.
  - rewrite spec_query_pairs_cons, add_query_parameters_cons.
    destruct value as [v|]; [|apply IH].
    destruct (is_null_dec v) as [->|Hv]; [apply IH|].
    assert (Hdef : defined (Some v) = true) by (destruct v; try reflexivity; contradiction).
    rewrite Hdef.
    assert (Hcons : match v with
                    | JNull => spec_query_pairs rest
                    | _ => (key, literal v) :: spec_query_pairs rest
                    end = (key, literal v) :: spec_query_pairs rest)
      by (destruct v; try reflexivity; contradiction).
    rewrite Hcons. clear Hcons.
    unfold searchParams_append. rewrite (String_scalar v Hscalar Hv). simpl.
    match goal with
    | |- context [add_query_parameters rest ?u] => destruct (IH u)
        as (url' & Hrun & Hsp & Hsame & Hsearch & Hp & Hh & Hpo & Hpa); set (url1 := u) in *
    end.
    exists url'. simpl in Hsp, Hp, Hh, Hpo, Hpa.
    rewrite Hrun. split; [reflexivity|]. split; [|split; [discriminate|split]].
    + rewrite Hsp, <- app_assoc. reflexivity.
    + intros _. destruct (spec_query_pairs rest) eqn:Hrest.
      * rewrite (Hsame eq_refl). reflexivity.
      * apply Hsearch. discriminate.
    + repeat split; assumption.
Qed.

End Query_parameters.

(** C9. For parameters that are scalars, [null] or absent, the loop over
    [options.params] ends normally and appends to the URL's parameters
    exactly what the specification asks for: the keys whose value is
    neither absent nor [null], in order, each with its literal value (a
    string as it is, [true] or [false] for a boolean, the number's
    notation for a number; zero, [false] and the empty string are kept).
    The query string of the URL is the serialisation of those parameters,
    from which parsing gives back every key and value unchanged; a key all
    of whose values are absent or [null] is not added, and when nothing is
    added the URL is left as it was. *)
Theorem query_parameters_serialization {rt : Runtime} entries url :
  Forall (fun entry => scalar (snd entry) = true) entries ->
  exists url',
    add_query_parameters entries url = Normal url' /\
    searchParams url' = (searchParams url ++ spec_query_pairs entries)%list /\
    (spec_query_pairs entries = [] -> url' = url) /\
    (spec_query_pairs entries <> [] ->
       search url' = "?" ++ urlencoded_serialize (searchParams url')) /\
    urlencoded_parse (urlencoded_serialize (searchParams url')) = searchParams url' /\
    (forall key,
        Forall (fun entry =>
                  fst entry = key -> snd entry = None \/ snd entry = Some JNull) entries ->
        key ∉ (spec_query_pairs entries).*1) /\
    (forall key s,
        (key, Some (JStr s)) ∈ entries -> (key, s) ∈ spec_query_pairs entries) /\
    (forall key b,
        (key, Some (JBool b)) ∈ entries ->
        (key, if b then "true" else "false") ∈ spec_query_pairs entries) /\
    (forall key q,
        (key, Some (JNum q)) ∈ entries ->
        (key, Number_toString q) ∈ spec_query_pairs entries) /\
    pathname url' = pathname url.
Proof.
  intros Hscalar.
  destruct (add_query_parameters_spec entries Hscalar url)
    as (url' & Hrun & Hsp & Hsame & Hsearch & _ & _ & _ & Hpath).
  assert (Hkept : forall key v,
             v <> JNull -> (key, Some v) ∈ entries ->
             (key, literal v) ∈ spec_query_pairs entries).
  { intros key v Hv Hin. clear - Hv Hin.
    induction entries as [|[k value] rest IH]; [inversion Hin|].
    rewrite spec_query_pairs_cons. apply elem_of_cons in Hin.
    destruct Hin as [Heq|Hin].
    - inversion Heq; subst. destruct v; try contradiction; apply elem_of_cons; left;
        reflexivity.
    - specialize (IH Hin). destruct value as [[]|]; try exact IH;
        apply elem_of_cons; right; exact IH. }
  exists url'.
  split; [exact Hrun|]. split; [exact Hsp|]. split; [exact Hsame|].
  split; [exact Hsearch|]. split; [apply urlencoded_roundtrip|].
  split; [|split; [|split; [|split; [|exact Hpath]]]].
  - intros key Hkey. clear - Hkey.
    induction Hkey as [|[k value] rest Hhead _ IH]; [apply not_elem_of_nil|].
    rewrite spec_query_pairs_cons. simpl in Hhead.
    destruct value as [v|]; [|exact IH].
    destruct (is_null_dec v) as [->|Hv]; [exact IH|].
    assert (Hk : k <> key).
    { intros ->. destruct (Hhead eq_refl) as [H|H]; [discriminate|].
      inversion H. contradiction. }
    destruct v; try contradiction; rewrite fmap_cons; apply not_elem_of_cons;
      (split; [simpl; congruence|exact IH]).
  - intros key s Hin. apply (Hkept key (JStr s)); [discriminate|exact Hin].
  - intros key b Hin. apply (Hkept key (JBool b)) in Hin; [|discriminate].
    destruct b; exact Hin.
  - intros key q Hin. apply (Hkept key (JNum q)); [discriminate|exact Hin].
Qed.

(** A zero is kept, [null] and [undefined] are dropped, and a string with
    a space and an ampersand is escaped in the query string. *)
Lemma query_parameters_serialization_witness :
  let entries := [("limit", Some (JNum (inject_Z 0))); ("offset", Some JNull);
                  ("visibility", None); ("q", Some (JStr "a b&c"))] in
  let url := mkURL "https:" "dev.voice.ai" "" "/api/v1/tts/voices" "" [] in
  Forall (fun entry => scalar (snd entry) = true) entries /\
  exists url',
    add_query_parameters (rt := Node.runtime) entries url = Normal url' /\
    searchParams url' = [("limit", "0"); ("q", "a b&c")] /\
    search url' = "?limit=0&q=a+b%26c".
Proof.
  intros entries url.
  assert (Hscalar : Forall (fun entry => scalar (snd entry) = true) entries)
    by (repeat constructor).
  split; [exact Hscalar|].
  destruct (query_parameters_serialization (rt := Node.runtime) entries url Hscalar)
    as (url' & Hrun & Hsp & _ & Hsearch & _).
  exists url'. split; [exact Hrun|]. split; [exact Hsp|].
  rewrite Hsearch by (vm_compute; discriminate). rewrite Hsp. reflexivity.
Defined.

(** ** Streaming transport against buffered transport *)

(** C7 as stated does not hold: with one query parameter, the buffered
    transport asks for the path with the query string, the streaming
    transport for the bare path. *)
Lemma streaming_ignores_query_parameters :
  let options :=
    mkOptions (Some [("limit", Some (JNum (inject_Z 1)))]) ∅ None false false in
  let buffered := _request (rt := Node.runtime) (always NetSilent) Examples.client
                    "GET" "/tts/voices" options Examples.empty_world in
  let streaming := _streamRequest (rt := Node.runtime) (always NetSilent) Examples.client
                     "GET" "/tts/voices" options Examples.empty_world in
  request_paths (snd buffered) = ["/api/v1/tts/voices?limit=1"] /\
  request_paths (snd streaming) = ["/api/v1/tts/voices"] /\
  request_paths (snd buffered) <> request_paths (snd streaming).
Proof. vm_compute. repeat split. discriminate. Qed.

Lemma append_same_empty (a b : string) : a ++ b = a <-> b = "".
Proof.
  split.
  - induction a as [|x a IH]; [rewrite app_empty; auto|].
    rewrite app_cons. intros H. inversion H. auto.
  - intros ->. induction a as [|x a IH]; [reflexivity|].
    rewrite app_cons, IH. reflexivity.
Qed.

Section Same_target.

Context {rt : Runtime}.
Variable server : Server.

Lemma _streamRequest_on_response_sent res w :
  sent (snd (_streamRequest_on_response res w)) = sent w.
Proof.
  unfold _streamRequest_on_response, JSON_parse_logged.
  destruct (Z.leb 400 (statusCode res)); reflexivity.
Qed.

Lemma _request_on_end_sent options res w :
  sent (snd (_request_on_end options res w)) = sent w.
Proof.
  destruct (_request_on_end options res w) as [o w'] eqn:H.
  apply _request_on_end_outcomes in H. simpl. tauto.
Qed.

End Same_target.

(** C7, amended. Both transports resolve the same URL from the base
    endpoint and the versioned path and validate its scheme in the same
    way: when the URL cannot be built, or its scheme is not [https:], both
    fail with the same error before any request. Otherwise both send one
    request with the same method to the same host and port; the streaming
    transport asks for the path name alone, the buffered transport for the
    path name followed by the query string, so the two paths are equal
    exactly when that query string is empty. *)
Theorem streaming_same_target {rt : Runtime} (server : Server) self method endpoint
    options w :
  (URL_new ("/api/" ++ API_VERSION ++ endpoint) (baseUrl self) = None ->
     exists e,
       _request server self method endpoint options w = (Rejected e, w) /\
       _streamRequest server self method endpoint options w = (Rejected e, w)) /\
  (forall url,
     URL_new ("/api/" ++ API_VERSION ++ endpoint) (baseUrl self) = Some url ->
     protocol url <> "https:" ->
     exists e, kind_of e = VALIDATION /\
       _request server self method endpoint options w = (Rejected (Sdk e), w) /\
       _streamRequest server self method endpoint options w = (Rejected (Sdk e), w)) /\
  (forall url,
     URL_new ("/api/" ++ API_VERSION ++ endpoint) (baseUrl self) = Some url ->
     protocol url = "https:" ->
     Forall (fun entry => scalar (snd entry) = true) (default [] (o_params options)) ->
     let query :=
       match spec_query_pairs (default [] (o_params options)) with
       | [] => search url
       | pairs => "?" ++ urlencoded_serialize (searchParams url ++ pairs)
       end in
     exists ro_b wr_b ro_s wr_s,
       sent (snd (_request server self method endpoint options w))
         = (sent w ++ [(ro_b, wr_b)])%list /\
       sent (snd (_streamRequest server self method endpoint options w))
         = (sent w ++ [(ro_s, wr_s)])%list /\
       ro_method ro_b = ro_method ro_s /\
       ro_hostname ro_b = ro_hostname ro_s /\
       ro_port ro_b = ro_port ro_s /\
       ro_path ro_s = pathname url /\
       ro_path ro_b = pathname url ++ query /\
       (ro_path ro_b = ro_path ro_s <-> query = "")).
Proof.
  split; [|split].
  - intros Hurl. unfold _request, _streamRequest. rewrite Hurl.
    eexists; split; reflexivity.
  - intros url Hurl Hproto. unfold _request, _streamRequest. rewrite Hurl.
    apply String.eqb_neq in Hproto. rewrite Hproto. simpl.
    eexists. split; [|split; reflexivity]. reflexivity.
  - intros url Hurl Hproto Hscalar query.
    destruct (add_query_parameters_spec (default [] (o_params options)) Hscalar url)
      as (url' & Hrun & Hsp & Hsame & Hsearch & _ & Hhost & Hport & Hpath).
    assert (Hquery : search url' = query).
    { subst query. destruct (spec_query_pairs (default [] (o_params options))) eqn:Hpairs.
      - rewrite (Hsame eq_refl). reflexivity.
      - rewrite Hsearch by discriminate. rewrite Hsp. reflexivity. }
    assert (Hparams : match o_params options with
                      | Some entries => add_query_parameters entries url
                      | None => Normal url
                      end = Normal url').
    { destruct (o_params options) as [entries|]; simpl in *; [exact Hrun|].
      congruence. }
    unfold _request, _streamRequest. rewrite Hurl.
    apply String.eqb_eq in Hproto. rewrite Hproto. simpl.
    rewrite Hparams. simpl.
    do 4 eexists.
    split; [apply https_request_sent; apply _request_on_end_sent|].
    split; [apply https_request_sent; apply _streamRequest_on_response_sent|].
    simpl. unfold default_port. rewrite Hhost, Hport, Hpath, Hquery.
    repeat split; try reflexivity; apply append_same_empty.
Qed.

(** The streaming endpoint of the SDK, which has no query string: both
    transports ask for the same path. *)
Lemma streaming_same_target_witness :
  let url := mkURL "https:" "dev.voice.ai" "" "/api/v1/tts/speech/stream" "" [] in
  let options :=
    mkOptions None ∅ (Some (BodyObject (speech_body Examples.hello))) false false in
  (Node.URL_new ("/api/" ++ API_VERSION ++ "/tts/speech/stream") (baseUrl Examples.client)
     = Some url /\ protocol url = "https:") /\
  exists ro_b wr_b ro_s wr_s,
    sent (snd (_request (rt := Node.runtime) (always NetSilent) Examples.client "POST"
                 "/tts/speech/stream" options Examples.empty_world)) = [(ro_b, wr_b)] /\
    sent (snd (_streamRequest (rt := Node.runtime) (always NetSilent) Examples.client "POST"
                 "/tts/speech/stream" options Examples.empty_world)) = [(ro_s, wr_s)] /\
    ro_path ro_s = "/api/v1/tts/speech/stream" /\
    ro_path ro_b = ro_path ro_s.
Proof.
  intros url options.
  assert (Hurl : Node.URL_new ("/api/" ++ API_VERSION ++ "/tts/speech/stream")
                   (baseUrl Examples.client) = Some url) by (vm_compute; reflexivity).
  assert (Hproto : protocol url = "https:") by reflexivity.
  split; [auto|].
  destruct (streaming_same_target (rt := Node.runtime) (always NetSilent) Examples.client
              "POST" "/tts/speech/stream" options Examples.empty_world)
    as (_ & _ & Htarget).
  destruct (Htarget url Hurl Hproto (@List.Forall_nil _ _))
    as (ro_b & wr_b & ro_s & wr_s & Hb & Hs & _ & _ & _ & Hps & _ & Heq).
  exists ro_b, wr_b, ro_s, wr_s. repeat split; try assumption.
  apply Heq. reflexivity.
Defined.

(** ** Timeouts *)

Section Timeouts.

Context {rt : Runtime}.

(** The buffered transport: a request that went out and whose answer
    takes longer than the configured timeout, or never comes, is rejected
    with the [TIMEOUT] error, which is not what a connection error gives. *)
Lemma buffered_timeout self method endpoint options ev w o w' :
  _request (always ev) self method endpoint options w = (o, w') ->
  sent w' <> sent w ->
  (0 < timeout self)%N ->
  match ev with
  | NetSilent => True
  | NetReply latency _ => (timeout self < latency)%N
  | NetError _ => False
  end ->
  exists e, o = Rejected (Sdk e) /\ kind_of e = TIMEOUT /\ code e = StrCode "TIMEOUT" /\
            forall cause, o <> Rejected (SystemError cause).
Proof.
  intros Hrun Hsent Hpos Hslow.
  destruct (_request_cases (always ev) self method endpoint options w)
    as [[x [Hx _]]|(url & url' & ro & _ & _ & _ & _ & _ & _ & _ & Ht & Heq)].
  - rewrite Hx in Hrun. inversion Hrun; subst. contradiction.
  - rewrite Heq in Hrun. unfold https_request, always, timer_fires in Hrun.
    rewrite Ht in Hrun.
    assert (Hp : N.ltb 0 (timeout self) = true) by (apply N.ltb_lt; exact Hpos).
    rewrite Hp in Hrun.
    destruct ev as [cause| |latency res]; [contradiction| |].
    + simpl in Hrun. inversion Hrun; subst. rewrite timeout_outcome_eq.
      eexists; repeat split; discriminate.
    + assert (Hl : N.ltb (timeout self) latency = true) by (apply N.ltb_lt; exact Hslow).
      rewrite Hl in Hrun. simpl in Hrun. inversion Hrun; subst.
      rewrite timeout_outcome_eq. eexists; repeat split; discriminate.
Qed.

(** The streaming transport arms no timer and has no ['timeout'] listener:
    however late the answer, it is handled like any other, and a server
    that never answers leaves the promise pending. *)
Lemma streaming_without_timer self method endpoint options ev w :
  snd (_streamRequest (always ev) self method endpoint options w) = w \/
  match ev with
  | NetSilent => fst (_streamRequest (always ev) self method endpoint options w) = Pending
  | NetReply latency res =>
      exists w1, _streamRequest (always ev) self method endpoint options w
                 = _streamRequest_on_response res w1
  | NetError cause =>
      fst (_streamRequest (always ev) self method endpoint options w)
      = Rejected (SystemError cause)
  end.
Proof.
  destruct (_streamRequest_cases (always ev) self method endpoint options w)
    as [[x Hx]|(url & ro & wr & _ & _ & _ & _ & _ & _ & Ht & Heq)].
  - left. rewrite Hx. reflexivity.
  - right. rewrite Heq. unfold https_request, always, timer_fires. rewrite Ht.
    destruct ev as [cause| |latency res]; simpl; eauto.
Qed.

End Timeouts.

(** C6, where the code departs from it. Against a server that never
    answers, with the default timeout of 60 seconds, [generateSpeech] is
    rejected with the [TIMEOUT] error while [streamSpeech] and
    [streamSpeechToFile] stay pending for ever; and an answer that comes
    after 120 seconds is still accepted by the streaming transport. *)
Theorem streaming_request_has_no_timeout :
  kind_of_outcome
    (fst (generateSpeech (rt := Node.runtime) (always NetSilent) Examples.client
            Examples.hello Examples.empty_world)) = Some TIMEOUT /\
  fst (streamSpeech (rt := Node.runtime) (always NetSilent) Examples.client
         Examples.hello Examples.empty_world) = Pending /\
  fst (streamSpeechToFile (rt := Node.runtime) (always NetSilent) Examples.client
         Examples.hello "out.mp3" [SourceData; SinkFlush; SourceEnd; SinkFinish]
         Examples.empty_world) = Pending /\
  fst (streamSpeech (rt := Node.runtime) (always (NetReply 120000 Examples.audio_reply))
         Examples.client Examples.hello Examples.empty_world)
  = Resolved Examples.audio_reply.
Proof. vm_compute. repeat split. Qed.

(** ** The streaming pipeline *)

Section Pipeline.

Variable path : string.
Variable total : Buffer.

Local Abbreviation on := (streamSpeechToFile_listeners path).

Lemma on_disk_lookup w file : fs w !! path = Some file -> on_disk path w = file.
Proof. unfold on_disk. intros H. unfold Buffer in *. rewrite H. reflexivity. Qed.

Lemma on_disk_append chunk w :
  on_disk path (append_to_file path chunk w) = (on_disk path w ++ chunk)%list.
Proof.
  unfold on_disk, append_to_file. simpl. rewrite lookup_insert_eq. reflexivity.
Qed.

Lemma pipe_step_inv ev st :
  clean ev = true -> pipe_inv path total st -> pipe_inv path total (pipe_step path on ev st).
Proof.
  destruct st as [[pending open opened queue ending alive finished pr] w].
  unfold pipe_inv. simpl.
  intros Hclean (Ha & Ho & Hp & He & Hb & Hf & Hc & Hfin). subst alive opened.
  destruct ev as [| |c| | |c]; try discriminate; simpl.
  - destruct pending as [|chunk rest]; [tauto|].
    destruct open; simpl; [|tauto].
    destruct ending; simpl; [discriminate|].
    destruct finished; [destruct (Hfin eq_refl); discriminate|].
    repeat split; try assumption; try discriminate.
    rewrite concat_app. simpl. rewrite app_nil_r, <- Hb, <- !app_assoc. reflexivity.
  - destruct pending as [|chunk rest]; [|tauto].
    destruct open; simpl; [|tauto].
    destruct finished; [destruct (Hfin eq_refl); discriminate|].
    repeat split; try assumption; try discriminate.
  - destruct queue as [|chunk rest]; [tauto|]. simpl.
    destruct finished; [destruct (Hfin eq_refl); discriminate|].
    repeat split; try assumption; try discriminate.
    + rewrite on_disk_append, <- Hb. simpl. rewrite <- !app_assoc. reflexivity.
    + unfold append_to_file. simpl. rewrite lookup_insert_eq. eauto.
  - destruct queue as [|chunk rest]; [|tauto]. simpl.
    destruct ending; simpl; [|tauto].
    destruct finished; simpl; [tauto|].
    destruct open; [discriminate|].
    repeat split; try assumption; try reflexivity. subst pr. reflexivity.
Qed.

Lemma run_pipe_inv schedule st :
  forallb clean schedule = true ->
  pipe_inv path total st -> pipe_inv path total (run_pipe path on schedule st).
Proof.
  revert st. induction schedule as [|ev rest IH]; intros st Hclean Hinv; [exact Hinv|].
  simpl in Hclean. apply andb_true_iff in Hclean. destruct Hclean as [Hev Hrest].
  apply (IH _ Hrest). apply pipe_step_inv; assumption.
Qed.

Lemma run_pipe_cons ev rest st :
  run_pipe path on (ev :: rest) st = run_pipe path on rest (pipe_step path on ev st).
Proof. reflexivity. Qed.

Lemma run_pipe_app s1 s2 st :
  run_pipe path on (s1 ++ s2) st = run_pipe path on s2 (run_pipe path on s1 st).
Proof. unfold run_pipe. apply fold_left_app. Qed.

(** Once the sink has finished, the promise is resolved with the path and
    the file holds every chunk the response carried, in order. *)
Lemma pipe_inv_resolved p w :
  pipe_inv path total (p, w) ->
  (promise p = Pending \/ promise p = Resolved path) /\
  (promise p = Resolved path ->
     sink_finished p = true /\ fs w !! path = Some total).
Proof.
  unfold pipe_inv. intros (_ & _ & Hp & He & Hb & [file Hf] & Hc & Hfin).
  destruct (sink_finished p); rewrite Hp; [|split; [auto|discriminate]].
  split; [auto|]. intros _. split; [reflexivity|].
  destruct (Hfin eq_refl) as [Hq Hopen]. rewrite Hq, (Hc Hopen) in Hb.
  rewrite (on_disk_lookup _ _ Hf) in Hb. simpl in Hb. rewrite app_nil_r in Hb.
  congruence.
Qed.

Lemma run_data n : forall st,
  pipe_inv path total st ->
  (length (source_pending (fst st)) <= n)%nat ->
  let st' := run_pipe path on (repeat SourceData n) st in
  source_pending (fst st') = [] /\
  (length (sink_queue (fst st'))
   <= length (sink_queue (fst st)) + length (source_pending (fst st)))%nat.
Proof.
  induction n as [|n IH]; intros st Hinv Hlen.
  - unfold run_pipe. simpl.
    destruct (source_pending (fst st)); simpl in *; [split; [reflexivity|lia]|lia].
  - assert (Hnext : pipe_inv path total (pipe_step path on SourceData st))
      by (apply pipe_step_inv; [reflexivity|exact Hinv]).
    change (repeat SourceData (S n)) with (SourceData :: repeat SourceData n).
    cbv zeta. rewrite run_pipe_cons.
    specialize (IH _ Hnext). cbv zeta in IH.
    destruct st as [[pending open opened queue ending alive finished pr] w].
    destruct Hinv as (Ha & Ho & Hp & He & Hb & Hf & Hc & Hfin).
    simpl in *. subst alive opened ending.
    destruct pending as [|chunk rest].
    + simpl in *. destruct IH as [H1 H2]; [lia|]. split; [exact H1|lia].
    + destruct open; [|specialize (Hc eq_refl); discriminate].
      simpl in *. destruct IH as [H1 H2]; [lia|].
      split; [exact H1|]. rewrite length_app in H2. simpl in H2. lia.
Qed.

Lemma run_flush n : forall st,
  pipe_inv path total st ->
  (length (sink_queue (fst st)) <= n)%nat ->
  let st' := run_pipe path on (repeat SinkFlush n) st in
  sink_queue (fst st') = [] /\
  source_pending (fst st') = source_pending (fst st) /\
  source_open (fst st') = source_open (fst st).
Proof.
  induction n as [|n IH]; intros st Hinv Hlen.
  - unfold run_pipe. simpl. destruct (sink_queue (fst st)); simpl in *; [auto|lia].
  - assert (Hnext : pipe_inv path total (pipe_step path on SinkFlush st))
      by (apply pipe_step_inv; [reflexivity|exact Hinv]).
    change (repeat SinkFlush (S n)) with (SinkFlush :: repeat SinkFlush n).
    cbv zeta. rewrite run_pipe_cons.
    specialize (IH _ Hnext). cbv zeta in IH.
    destruct st as [[pending open opened queue ending alive finished pr] w].
    destruct Hinv as (Ha & Ho & Hp & He & Hb & Hf & Hc & Hfin).
    simpl in *. subst alive opened ending.
    destruct queue as [|chunk rest].
    + simpl in *. destruct IH as (H1 & H2 & H3); [lia|]. auto.
    + simpl in *. destruct IH as (H1 & H2 & H3); [lia|]. auto.
Qed.

(** From any state reached without a failure, letting the remaining
    chunks arrive, the source end, the sink flush and finish resolves the
    promise. *)
Lemma run_completion n st :
  pipe_inv path total st ->
  (length (sink_queue (fst st)) + length (source_pending (fst st)) <= n)%nat ->
  let st' := run_pipe path on (completion n) st in
  promise (fst st') = Resolved path /\ fs (snd st') !! path = Some total.
Proof.
  intros Hinv Hlen. unfold completion. rewrite !run_pipe_app.
  set (st1 := run_pipe path on (repeat SourceData n) st).
  assert (Hinv1 : pipe_inv path total st1)
    by (apply run_pipe_inv; [apply forallb_forall; intros x Hx;
                             apply repeat_spec in Hx; subst; reflexivity | exact Hinv]).
  destruct (run_data n st Hinv) as [Hpend1 Hq1]; [lia|]. fold st1 in Hpend1, Hq1.
  set (st2 := run_pipe path on [SourceEnd] st1).
  assert (Hinv2 : pipe_inv path total st2) by (apply run_pipe_inv; [reflexivity | exact Hinv1]).
  assert (H2 : source_open (fst st2) = false /\ source_pending (fst st2) = [] /\
               sink_queue (fst st2) = sink_queue (fst st1)).
  { subst st2. destruct st1 as [[pending open opened queue ending alive finished pr] w1].
    simpl in *. subst pending. destruct open; simpl; auto. }
  destruct H2 as (Hopen2 & Hpend2 & Hq2).
  set (st3 := run_pipe path on (repeat SinkFlush n) st2).
  assert (Hinv3 : pipe_inv path total st3)
    by (apply run_pipe_inv; [apply forallb_forall; intros x Hx;
                             apply repeat_spec in Hx; subst; reflexivity | exact Hinv2]).
  destruct (run_flush n st2 Hinv2) as (Hq3 & Hpend3 & Hopen3); [rewrite Hq2; lia|].
  fold st3 in Hq3, Hpend3, Hopen3. rewrite Hopen2 in Hopen3.
  set (st4 := run_pipe path on [SinkFinish] st3).
  assert (Hinv4 : pipe_inv path total st4) by (apply run_pipe_inv; [reflexivity | exact Hinv3]).
  assert (Hfin : sink_finished (fst st4) = true).
  { subst st4. destruct st3 as [[pending open opened queue ending alive finished pr] w3].
    destruct Hinv3 as (Ha & Ho & Hp & He & _). simpl in *. subst.
    simpl. destruct finished; reflexivity. }
  destruct st4 as [p4 w4]. simpl in *.
  destruct Hinv4 as (Ha & Ho & Hp & He & Hb & [file Hf] & Hc & Hfin').
  rewrite Hfin in Hp. split; [exact Hp|].
  destruct (Hfin' Hfin) as [Hq Hopen]. rewrite Hq, (Hc Hopen) in Hb.
  rewrite (on_disk_lookup _ _ Hf) in Hb. simpl in Hb. rewrite app_nil_r in Hb.
  congruence.
Qed.

End Pipeline.

Section Pipeline_measure.

Variable path : string.
Variable on : PipeListeners.

Lemma pipe_step_in_flight ev st :
  (in_flight (pipe_step path on ev st) <= in_flight st)%nat.
Proof.
  destruct st as [[pending open opened queue ending alive finished pr] w].
  unfold in_flight.
  destruct ev; simpl;
    repeat match goal with
           | |- context [match ?l with [] => _ | _ :: _ => _ end] => destruct l; simpl
           | |- context [if ?b then _ else _] => destruct b; simpl
           end;
    rewrite ?length_app; simpl; lia.
Qed.

Lemma run_pipe_in_flight schedule st :
  (in_flight (run_pipe path on schedule st) <= in_flight st)%nat.
Proof.
  revert st. induction schedule as [|ev rest IH]; intros st; [unfold run_pipe; simpl; lia|].
  change (run_pipe path on (ev :: rest) st)
    with (run_pipe path on rest (pipe_step path on ev st)).
  etransitivity; [apply IH | apply pipe_step_in_flight].
Qed.

Lemma pipe_step_unfinished ev st :
  ev <> SinkFinish -> sink_finished (fst st) = false ->
  sink_finished (fst (pipe_step path on ev st)) = false.
Proof.
  destruct st as [[pending open opened queue ending alive finished pr] w].
  intros Hev Hfin. simpl in Hfin. subst finished.
  destruct ev; try congruence; simpl;
    repeat match goal with
           | |- context [match ?l with [] => _ | _ :: _ => _ end] => destruct l; simpl
           | |- context [if ?b then _ else _] => destruct b; simpl
           end; reflexivity.
Qed.

Lemma run_pipe_unfinished schedule st :
  Forall (fun ev => ev <> SinkFinish) schedule -> sink_finished (fst st) = false ->
  sink_finished (fst (run_pipe path on schedule st)) = false.
Proof.
  intros Hs. revert st. induction Hs as [|ev rest Hev _ IH]; intros st Hfin; [exact Hfin|].
  change (run_pipe path on (ev :: rest) st)
    with (run_pipe path on rest (pipe_step path on ev st)).
  apply IH. apply pipe_step_unfinished; assumption.
Qed.

End Pipeline_measure.

Section Stream_to_file.

Context {rt : Runtime}.

Lemma streamSpeech_resolved self options latency res w :
  sent (snd (streamSpeech (always (NetReply latency res)) self options w)) <> sent w ->
  statusCode res < 400 ->
  exists w1,
    streamSpeech (always (NetReply latency res)) self options w = (Resolved res, w1) /\
    fs w1 = fs w /\ unwritable w1 = unwritable w.
Proof.
  intros Hsent Hstatus. unfold streamSpeech in *.
  destruct (negb (truthy_string (text options))); [simpl in Hsent; contradiction|].
  destruct (_streamRequest_cases (always (NetReply latency res)) self "POST"
              "/tts/speech/stream"
              (mkOptions None ∅ (Some (BodyObject (speech_body options))) false false) w)
    as [[x Hx]|(url & ro & wr & _ & _ & _ & _ & _ & _ & Ht & Heq)].
  - rewrite Hx in Hsent. simpl in Hsent. contradiction.
  - rewrite Heq.
    rewrite https_request_reply by (unfold timer_fires; rewrite Ht; reflexivity).
    unfold _streamRequest_on_response.
    assert (Hlow : Z.leb 400 (statusCode res) = false) by (apply Z.leb_gt; lia).
    rewrite Hlow. eexists; repeat split.
Qed.

Lemma pipe_to_file_start stream outputPath w :
  outputPath ∉ unwritable w ->
  exists st0,
    pipe_inv outputPath (concat (chunks stream)) st0 /\
    in_flight st0 = length (chunks stream) /\
    sink_finished (fst st0) = false /\
    forall schedule,
      pipe_to_file stream outputPath schedule w =
      (promise (fst (run_pipe outputPath (streamSpeechToFile_listeners outputPath)
                       schedule st0)),
       snd (run_pipe outputPath (streamSpeechToFile_listeners outputPath) schedule st0)).
Proof.
  intros Hw. unfold pipe_to_file, createWriteStream.
  rewrite bool_decide_eq_false_2 by exact Hw.
  exists (mkPipe (chunks stream) true true [] false true false Pending,
          mkWorld (<[outputPath := []]> (fs w)) (unwritable w) (sent w) (parsed w)).
  split; [|split; [|split]].
  - unfold pipe_inv. simpl. unfold on_disk. simpl. rewrite lookup_insert_eq. simpl.
    repeat split; try discriminate. rewrite lookup_insert_eq. eauto.
  - reflexivity.
  - reflexivity.
  - intros s.
    match goal with
    | |- context [run_pipe ?a ?b ?c ?d] => destruct (run_pipe a b c d) as [p w2]
    end. reflexivity.
Qed.

End Stream_to_file.

(** C3. Take a streaming request that went out and was answered with a
    status below 400 and [N] chunks, an output path that can be opened,
    and any order of stream events without a failure. The promise of
    [streamSpeechToFile] is then pending or resolved with the output path,
    never rejected; whenever it is resolved, the file holds the
    concatenation of the [N] chunks in arrival order; and letting the
    remaining chunks arrive, the response end, the sink flush and finish
    always leads there. When all chunks have arrived and the response has
    ended but the sink has not finished, the promise is still pending. *)
Theorem streamSpeechToFile_clean_close {rt : Runtime} self options outputPath latency
    res w :
  sent (snd (streamSpeech (always (NetReply latency res)) self options w)) <> sent w ->
  statusCode res < 400 ->
  outputPath ∉ unwritable w ->
  let run := fun schedule =>
    streamSpeechToFile (always (NetReply latency res)) self options outputPath schedule w in
  let total := concat (chunks res) in
  let N := length (chunks res) in
  (forall schedule, forallb clean schedule = true ->
     (fst (run schedule) = Pending \/ fst (run schedule) = Resolved outputPath) /\
     (fst (run schedule) = Resolved outputPath ->
        fs (snd (run schedule)) !! outputPath = Some total) /\
     fst (run (schedule ++ completion N)%list) = Resolved outputPath /\
     fs (snd (run (schedule ++ completion N)%list)) !! outputPath = Some total) /\
  fst (run (repeat SourceData N ++ [SourceEnd])%list) = Pending.
Proof.
  intros Hsent Hstatus Hpath run total N.
  destruct (streamSpeech_resolved self options latency res w Hsent Hstatus)
    as (w1 & Hstream & Hfs & Hun).
  assert (Hpath1 : outputPath ∉ unwritable w1) by (rewrite Hun; exact Hpath).
  destruct (pipe_to_file_start res outputPath w1 Hpath1)
    as (st0 & Hinv0 & Hflight & Hunfinished & Hpipe).
  assert (Hrun : forall schedule,
             run schedule =
             (promise (fst (run_pipe outputPath (streamSpeechToFile_listeners outputPath)
                              schedule st0)),
              snd (run_pipe outputPath (streamSpeechToFile_listeners outputPath)
                     schedule st0))).
  { intros schedule. subst run. cbv beta.
    unfold streamSpeechToFile, mbind, Async_bind, await. rewrite Hstream. apply Hpipe. }
  split.
  - intros schedule Hclean. rewrite !Hrun. simpl.
    set (st := run_pipe outputPath (streamSpeechToFile_listeners outputPath) schedule st0).
    assert (Hinv : pipe_inv outputPath total st) by (apply run_pipe_inv; assumption).
    destruct st as [p w2] eqn:Hst.
    destruct (pipe_inv_resolved outputPath total p w2 Hinv) as [Hcases Hdone].
    split; [exact Hcases|]. split; [intros Hr; apply (Hdone Hr)|].
    rewrite run_pipe_app. fold st. rewrite Hst.
    apply (run_completion outputPath total N (p, w2) Hinv).
    pose proof (run_pipe_in_flight outputPath (streamSpeechToFile_listeners outputPath)
                  schedule st0) as Hle.
    fold st in Hle. rewrite Hst, Hflight in Hle. exact Hle.
  - rewrite Hrun. simpl.
    set (st := run_pipe outputPath (streamSpeechToFile_listeners outputPath)
                 (repeat SourceData N ++ [SourceEnd]) st0).
    assert (Hinv : pipe_inv outputPath total st).
    { apply run_pipe_inv; [|exact Hinv0].
      apply forallb_forall. intros ev Hev. apply in_app_or in Hev.
      destruct Hev as [Hev|[<-|[]]]; [apply repeat_spec in Hev; subst|]; reflexivity. }
    assert (Hfin : sink_finished (fst st) = false).
    { apply run_pipe_unfinished; [|exact Hunfinished].
      apply List.Forall_forall. intros ev Hev. apply in_app_or in Hev.
      destruct Hev as [Hev|[<-|[]]]; [apply repeat_spec in Hev; subst|]; discriminate. }
    destruct st as [p w2]. destruct Hinv as (_ & _ & Hp & _). simpl in Hfin.
    rewrite Hfin in Hp. exact Hp.
Qed.

(** Two chunks streamed into [out.mp3]. *)
Lemma streamSpeechToFile_clean_close_witness :
  let run := fun schedule =>
    streamSpeechToFile (rt := Node.runtime) (always (NetReply 10 Examples.audio_reply))
      Examples.client Examples.hello "out.mp3" schedule Examples.empty_world in
  (sent (snd (streamSpeech (rt := Node.runtime) (always (NetReply 10 Examples.audio_reply))
                Examples.client Examples.hello Examples.empty_world))
     <> sent Examples.empty_world /\
   statusCode Examples.audio_reply < 400 /\
   "out.mp3" ∉ unwritable Examples.empty_world) /\
  fst (run (completion 2)) = Resolved "out.mp3" /\
  fs (snd (run (completion 2))) !! "out.mp3" = Some (list_byte_of_string "ID3abc") /\
  fst (run [SourceData; SourceData; SourceEnd]) = Pending.
Proof.
  intros run.
  assert (Hsent : sent (snd (streamSpeech (rt := Node.runtime)
                               (always (NetReply 10 Examples.audio_reply))
                               Examples.client Examples.hello Examples.empty_world))
                  <> sent Examples.empty_world) by (vm_compute; discriminate).
  assert (Hstatus : statusCode Examples.audio_reply < 400) by reflexivity.
  assert (Hpath : "out.mp3" ∉ unwritable Examples.empty_world) by apply not_elem_of_empty.
  split; [auto|].
  destruct (streamSpeechToFile_clean_close (rt := Node.runtime) Examples.client
              Examples.hello "out.mp3" 10 Examples.audio_reply Examples.empty_world
              Hsent Hstatus Hpath) as [Hall Hpending].
  destruct (Hall [] eq_refl) as (_ & _ & Hresolved & Hfile).
  split; [exact Hresolved|]. split; [exact Hfile|exact Hpending].
Defined.

(** ** The SDK at work on concrete exchanges *)

Example listVoices_request_path :
  request_paths
    (snd (listVoices (rt := Node.runtime) (always NetSilent) Examples.client
            (mkListOptions None None (Some (JStr "PUBLIC"))) Examples.empty_world))
  = ["/api/v1/tts/voices?limit=10&offset=0&visibility=PUBLIC"].
Proof. vm_compute. reflexivity. Qed.

Example listVoices_decodes_json :
  fst (listVoices (rt := Node.runtime) (always (NetReply 10 Examples.json_reply))
         Examples.client (mkListOptions None None None) Examples.empty_world)
  = Resolved (VJson (JObj [("voices", JArr [])])).
Proof. vm_compute. reflexivity. Qed.

Example listVoices_falls_back_to_text :
  fst (listVoices (rt := Node.runtime) (always (NetReply 10 Examples.garbled_reply))
         Examples.client (mkListOptions None None None) Examples.empty_world)
  = Resolved (VJson (JStr "<html>")).
Proof. vm_compute. reflexivity. Qed.

Example getVoice_unauthorized :
  fst (getVoice (rt := Node.runtime)
         (always (NetReply 10 (Examples.error_reply 401 Examples.bad_key_body)))
         Examples.client (Some "abc123") Examples.empty_world)
  = Rejected (Sdk (mkSdkError AuthenticationError "bad key" (NumCode 401) JNull)).
Proof. vm_compute. reflexivity. Qed.

Example generateSpeech_invalid :
  fst (generateSpeech (rt := Node.runtime)
         (always (NetReply 10 (Examples.error_reply 422 Examples.invalid_body)))
         Examples.client Examples.hello Examples.empty_world)
  = Rejected (Sdk (mkSdkError ValidationError "invalid" (NumCode 422)
                     (JArr [JStr "text too long"]))).
Proof. vm_compute. reflexivity. Qed.

Example generateSpeech_teapot :
  fst (generateSpeech (rt := Node.runtime)
         (always (NetReply 10 (Examples.error_reply 418 "")))
         Examples.client Examples.hello Examples.empty_world)
  = Rejected (Sdk (mkSdkError VoiceAIError "Unknown error" (NumCode 418) JNull)).
Proof. vm_compute. reflexivity. Qed.

Example validateApiKey_bad_key :
  fst (validateApiKey (rt := Node.runtime)
         (always (NetReply 10 (Examples.error_reply 401 Examples.bad_key_body)))
         Examples.client Examples.empty_world)
  = Resolved false.
Proof. vm_compute. reflexivity. Qed.

Example generateSpeechToFile_writes_audio :
  let run := generateSpeechToFile (rt := Node.runtime)
               (always (NetReply 10 Examples.audio_reply))
               Examples.client Examples.hello "out.mp3" Examples.empty_world in
  fst run = Resolved "out.mp3" /\
  fs (snd run) !! "out.mp3" = Some (list_byte_of_string "ID3abc").
Proof. vm_compute. split; reflexivity. Qed.

Example getFirstVoices_of_null :
  fst (getFirstVoices (rt := Node.runtime)
         (always (NetReply 10 (mkResponse 200 ∅ [list_byte_of_string "null"])))
         Examples.client None Examples.empty_world)
  = Rejected (TypeError "Cannot read properties of null").
Proof. vm_compute. reflexivity. Qed.

Example streamSpeechToFile_null_error_body :
  fst (streamSpeechToFile (rt := Node.runtime)
         (always (NetReply 10 (Examples.error_reply 500 "null")))
         Examples.client Examples.hello "out.mp3" (completion 1) Examples.empty_world)
  = Rejected (Sdk (mkSdkError VoiceAIError "Request failed" (NumCode 500) JNull)).
Proof. vm_compute. reflexivity. Qed.

(** * Further properties of the client *)

(** ** What goes on the wire *)

Section Wire.

Context {rt : Runtime}.
Variable server : Server.

Lemma sent_app_one_neq (w : World) (l : list (RequestOptions * option Written)) r :
  sent w = (l ++ [r])%list -> l = sent w -> False.
Proof.
  intros H ->. apply (f_equal (@List.length _)) in H.
  rewrite length_app in H. simpl in H. lia.
Qed.

(** The request [_request] hands to [https.request], when it gets that
    far. *)
Lemma _request_wire self method endpoint options w :
  (exists e, _request server self method endpoint options w = (Rejected e, w)) \/
  (exists url,
      let headers0 : gmap string string :=
        o_headers options ∪
        <["Authorization" := "Bearer " ++ apiKey self]>
          (<["User-Agent" := "VoiceAI-SDK/1.1.4"]> ∅) in
      sent (snd (_request server self method endpoint options w)) =
      (sent w ++
       [({| ro_method := method;
            ro_hostname := hostname url;
            ro_path := pathname url ++ search url;
            ro_port := default_port url;
            ro_headers :=
              if is_object_body (o_body options) && negb (o_isFormData options)
              then <["Content-Type" := "application/json"]> headers0
              else headers0;
            ro_timeout := Some (timeout self) |}, written_body options)])%list).
Proof.
  unfold _request.
  destruct (URL_new _ _) as [url|]; [|left; eexists; reflexivity].
  destruct (String.eqb (protocol url) "https:"); simpl; [|left; eexists; reflexivity].
  destruct (match o_params options with
            | Some entries => add_query_parameters entries url
            | None => Normal url end) as [url'|e]; simpl; [|left; eexists; reflexivity].
  right. exists url'. cbv zeta.
  apply https_request_sent. apply _request_on_end_sent.
Qed.

Lemma _streamRequest_wire self method endpoint options w :
  (exists e, _streamRequest server self method endpoint options w = (Rejected e, w)) \/
  (exists url wr,
      sent (snd (_streamRequest server self method endpoint options w)) =
      (sent w ++
       [({| ro_method := method;
            ro_hostname := hostname url;
            ro_path := pathname url;
            ro_port := default_port url;
            ro_headers :=
              o_headers options ∪
              <["Authorization" := ("Bearer " ++ apiKey self)%string]>
                (<["Content-Type" := "application/json"]>
                   (<["User-Agent" := "VoiceAI-SDK/1.1.4"]> ∅));
            ro_timeout := None |}, wr)])%list).
Proof.
  unfold _streamRequest.
  destruct (URL_new _ _) as [url|]; [|left; eexists; reflexivity].
  destruct (String.eqb (protocol url) "https:"); simpl; [|left; eexists; reflexivity].
  right. exists url. eexists.
  apply https_request_sent. apply _streamRequest_on_response_sent.
Qed.

Lemma _request_at_most_one self method endpoint options w :
  at_most_one_request w (snd (_request server self method endpoint options w)).
Proof.
  destruct (_request_wire self method endpoint options w) as [[e He]|[url Hs]].
  - left. rewrite He. reflexivity.
  - right. eexists. exact Hs.
Qed.

Lemma _streamRequest_at_most_one self method endpoint options w :
  at_most_one_request w (snd (_streamRequest server self method endpoint options w)).
Proof.
  destruct (_streamRequest_wire self method endpoint options w) as [[e He]|(url & wr & Hs)].
  - left. rewrite He. reflexivity.
  - right. eexists. exact Hs.
Qed.

Lemma run_pipe_sent path on schedule st :
  sent (snd (run_pipe path on schedule st)) = sent (snd st).
Proof.
  revert st. induction schedule as [|ev rest IH]; intros st; [reflexivity|].
  change (run_pipe path on (ev :: rest) st)
    with (run_pipe path on rest (pipe_step path on ev st)).
  rewrite IH. destruct st as [p w].
  destruct ev; simpl;
    repeat match goal with
           | |- context [match ?l with [] => _ | _ :: _ => _ end] => destruct l; simpl
           | |- context [if ?b then _ else _] => destruct b; simpl
           end; reflexivity.
Qed.

Lemma pipe_to_file_sent stream outputPath schedule w :
  sent (snd (pipe_to_file stream outputPath schedule w)) = sent w.
Proof.
  unfold pipe_to_file.
  destruct (createWriteStream outputPath w) as [opened w1] eqn:Hc.
  assert (Hw1 : sent w1 = sent w).
  { unfold createWriteStream in Hc.
    destruct (bool_decide (outputPath ∈ unwritable w)); inversion Hc; reflexivity. }
  match goal with
  | |- context [run_pipe ?a ?b ?c ?d] =>
      pose proof (run_pipe_sent a b c d) as Hr; destruct (run_pipe a b c d) as [p w2]
  end.
  simpl in *. congruence.
Qed.

Lemma writeFileSync_sent path data w :
  sent (snd (writeFileSync path data w)) = sent w.
Proof.
  unfold writeFileSync.
  destruct (match data with
            | VBuffer b => Some b
            | VJson (JStr s) => Some (list_byte_of_string s)
            | VJson _ => None
            end); [|reflexivity].
  destruct (bool_decide (path ∈ unwritable w)); reflexivity.
Qed.

End Wire.

(** X1. No operation of the client retries or fans out: whatever the server
    does and however the call ends, each public operation has put at most
    one request on the wire when it is over. *)
Theorem one_request_per_operation {rt : Runtime} (server : Server) self w :
  (forall options, at_most_one_request w (snd (listVoices server self options w))) /\
  (forall voiceId, at_most_one_request w (snd (getVoice server self voiceId w))) /\
  (forall voiceId updates,
      at_most_one_request w (snd (updateVoice server self voiceId updates w))) /\
  (forall voiceId, at_most_one_request w (snd (deleteVoice server self voiceId w))) /\
  (forall options, at_most_one_request w (snd (generateSpeech server self options w))) /\
  (forall options outputPath,
      at_most_one_request w (snd (generateSpeechToFile server self options outputPath w))) /\
  (forall options, at_most_one_request w (snd (streamSpeech server self options w))) /\
  (forall options outputPath schedule,
      at_most_one_request w
        (snd (streamSpeechToFile server self options outputPath schedule w))) /\
  at_most_one_request w (snd (validateApiKey server self w)) /\
  (forall count, at_most_one_request w (snd (getFirstVoices server self count w))).
Proof.
  assert (Hgen : forall options,
             at_most_one_request w (snd (generateSpeech server self options w))).
  { intros options. unfold generateSpeech.
    destruct (negb (truthy_string (text options))); [left; reflexivity|].
    apply _request_at_most_one. }
  assert (Hstream : forall options,
             at_most_one_request w (snd (streamSpeech server self options w))).
  { intros options. unfold streamSpeech.
    destruct (negb (truthy_string (text options))); [left; reflexivity|].
    apply _streamRequest_at_most_one. }
  assert (Hlist : forall options,
             at_most_one_request w (snd (listVoices server self options w))).
  { intros options. unfold listVoices. apply _request_at_most_one. }
  repeat split.
  - exact Hlist.
  - intros voiceId. unfold getVoice.
    destruct (negb (truthy_string voiceId)); [left; reflexivity|].
    apply _request_at_most_one.
  - intros voiceId updates. unfold updateVoice.
    destruct (negb (truthy_string voiceId)); [left; reflexivity|].
    apply _request_at_most_one.
  - intros voiceId. unfold deleteVoice.
    destruct (negb (truthy_string voiceId)); [left; reflexivity|].
    apply _request_at_most_one.
  - exact Hgen.
  - intros options outputPath. specialize (Hgen options).
    unfold generateSpeechToFile, mbind, Async_bind, await.
    destruct (generateSpeech server self options w) as [[audio|e|e|] w1]; simpl in *;
      try exact Hgen.
    pose proof (writeFileSync_sent outputPath audio w1) as Hw.
    destruct (writeFileSync outputPath audio w1) as [[u|e|e|] w2]; simpl in *;
      unfold at_most_one_request in *; rewrite Hw; exact Hgen.
  - exact Hstream.
  - intros options outputPath schedule. specialize (Hstream options).
    unfold streamSpeechToFile, mbind, Async_bind, await.
    destruct (streamSpeech server self options w) as [[stream|e|e|] w1]; simpl in *;
      try exact Hstream.
    unfold at_most_one_request in *. rewrite pipe_to_file_sent. exact Hstream.
  - specialize (Hlist (mkListOptions (Some (JNum (inject_Z 1))) None None)).
    unfold validateApiKey, try_catch, mbind, Async_bind, await.
    destruct (listVoices server self _ w) as [[v|e|e|] w1]; simpl in *; try exact Hlist.
    destruct (instanceof_AuthenticationError e); exact Hlist.
  - intros count.
    specialize (Hlist (mkListOptions (Some (default (JNum (inject_Z 10)) count)) None None)).
    unfold getFirstVoices, mbind, Async_bind, await.
    destruct (listVoices server self _ w) as [[v|e|e|] w1]; simpl in *; try exact Hlist.
    destruct v as [b|j]; simpl; [exact Hlist|].
    unfold get. destruct (member j "voices"); simpl; exact Hlist.
Qed.

Section Headers.

Context {rt : Runtime}.
Variable server : Server.

Lemma sent_last_inv (w w' : World) r r' :
  sent w' = (sent w ++ [r])%list -> sent w' = (sent w ++ [r'])%list -> r = r'.
Proof.
  intros H1 H2. rewrite H1 in H2. apply app_inv_head in H2. congruence.
Qed.

Lemma union_lookup_default (m1 m2 : gmap string string) k v :
  m2 !! k = Some v -> (m1 ∪ m2) !! k = Some (default v (m1 !! k)).
Proof.
  intros H2. destruct (m1 !! k) as [x|] eqn:H1; simpl.
  - apply lookup_union_Some_l. exact H1.
  - rewrite lookup_union_r by exact H1. exact H2.
Qed.

Lemma _request_sent_inv self method endpoint options w ro wr :
  sent (snd (_request server self method endpoint options w)) = (sent w ++ [(ro, wr)])%list ->
  let headers0 : gmap string string :=
    o_headers options ∪
    <["Authorization" := "Bearer " ++ apiKey self]>
      (<["User-Agent" := "VoiceAI-SDK/1.1.4"]> ∅) in
  ro_headers ro =
    (if is_object_body (o_body options) && negb (o_isFormData options)
     then <["Content-Type" := "application/json"]> headers0 else headers0) /\
  ro_method ro = method /\ ro_timeout ro = Some (timeout self) /\
  wr = written_body options.
Proof.
  intros Hsent headers0.
  destruct (_request_wire server self method endpoint options w) as [[e He]|[url Hs]].
  - rewrite He in Hsent. simpl in Hsent. exfalso. eapply sent_app_one_neq; eauto.
  - cbv zeta in Hs. pose proof (sent_last_inv _ _ _ _ Hsent Hs) as Heq.
    inversion Heq; subst. simpl. auto.
Qed.

Lemma _streamRequest_sent_inv self method endpoint options w ro wr :
  sent (snd (_streamRequest server self method endpoint options w))
    = (sent w ++ [(ro, wr)])%list ->
  ro_headers ro =
    o_headers options ∪
    <["Authorization" := "Bearer " ++ apiKey self]>
      (<["Content-Type" := "application/json"]>
         (<["User-Agent" := "VoiceAI-SDK/1.1.4"]> ∅)) /\
  ro_method ro = method /\ ro_timeout ro = None.
Proof.
  intros Hsent.
  destruct (_streamRequest_wire server self method endpoint options w)
    as [[e He]|(url & wr' & Hs)].
  - rewrite He in Hsent. simpl in Hsent. exfalso. eapply sent_app_one_neq; eauto.
  - pose proof (sent_last_inv _ _ _ _ Hsent Hs) as Heq.
    inversion Heq; subst. simpl. auto.
Qed.

End Headers.

Section Wire_headers.

Lemma exact_case_empty name : exact_case ∅ name.
Proof. intros k [x Hx]. rewrite lookup_empty in Hx. discriminate. Qed.

Lemma exact_case_insert headers k v name :
  exact_case headers name ->
  (same_header k name = true -> k = name) ->
  exact_case (<[k := v]> headers) name.
Proof.
  intros Hh Hk k' Hsome Hsame. apply lookup_insert_is_Some in Hsome.
  destruct Hsome as [ <- | [_ Hsome] ]; [exact (Hk Hsame)|exact (Hh k' Hsome Hsame)].
Qed.

Lemma exact_case_union (h1 h2 : gmap string string) name :
  exact_case h1 name -> exact_case h2 name -> exact_case (h1 ∪ h2) name.
Proof.
  intros H1 H2 k Hsome Hsame. apply lookup_union_is_Some in Hsome.
  destruct Hsome as [Hsome|Hsome]; [exact (H1 k Hsome Hsame)|exact (H2 k Hsome Hsame)].
Qed.

(** The headers the SDK itself sets, with or without a [Content-Type]. *)
Lemma exact_case_sdk key (with_type : bool) name :
  name = "Authorization" \/ name = "User-Agent" \/ name = "Content-Type" ->
  exact_case
    (<["Authorization" := key]>
       (if with_type
        then <["Content-Type" := "application/json"]>
               (<["User-Agent" := "VoiceAI-SDK/1.1.4"]> ∅)
        else <["User-Agent" := "VoiceAI-SDK/1.1.4"]> ∅)) name.
Proof.
  intros Hname.
  assert (Hkey : forall k,
             k = "Authorization" \/ k = "User-Agent" \/ k = "Content-Type" ->
             same_header k name = true -> k = name).
  { intros k Hk Hs.
    destruct Hname as [Hn|[Hn|Hn]]; destruct Hk as [Hk|[Hk|Hk]]; subst;
      first [reflexivity | vm_compute in Hs; discriminate Hs]. }
  destruct with_type;
    repeat (apply exact_case_insert; [|apply Hkey; auto]);
    apply exact_case_empty.
Qed.

End Wire_headers.

(** X2. Every request that either transport sends carries the bearer
    credential built from the client's API key and the SDK's
    [User-Agent], unless the caller's own headers name them: a caller's
    [Authorization] or [User-Agent] replaces the SDK's. (For a caller whose
    headers spell these two names with these capitals or not at all; the
    header then goes out once, with the value stated.) *)
Theorem credentials_on_every_request {rt : Runtime} (server : Server) self method endpoint
    options w ro wr :
  exact_case (o_headers options) "Authorization" ->
  exact_case (o_headers options) "User-Agent" ->
  sent (snd (_request server self method endpoint options w)) = (sent w ++ [(ro, wr)])%list
  \/ sent (snd (_streamRequest server self method endpoint options w))
     = (sent w ++ [(ro, wr)])%list ->
  on_wire (ro_headers ro) "Authorization"
    (default ("Bearer " ++ apiKey self) (o_headers options !! "Authorization")) /\
  on_wire (ro_headers ro) "User-Agent"
    (default "VoiceAI-SDK/1.1.4" (o_headers options !! "User-Agent")).
Proof.
  intros Hauth Hagent [Hsent|Hsent].
  - destruct (_request_sent_inv server self method endpoint options w ro wr Hsent)
      as (Hh & _). cbv zeta in Hh. rewrite Hh.
    destruct (is_object_body (o_body options) && negb (o_isFormData options)).
    + split; (split;
        [rewrite lookup_insert_ne by discriminate; apply union_lookup_default
        |apply exact_case_insert; [apply exact_case_union; [assumption|]|discriminate]]).
      * apply lookup_insert_eq.
      * apply (exact_case_sdk _ false). auto.
      * rewrite lookup_insert_ne by discriminate. apply lookup_insert_eq.
      * apply (exact_case_sdk _ false). auto.
    + split; (split; [apply union_lookup_default|apply exact_case_union; [assumption|]]).
      * apply lookup_insert_eq.
      * apply (exact_case_sdk _ false). auto.
      * rewrite lookup_insert_ne by discriminate. apply lookup_insert_eq.
      * apply (exact_case_sdk _ false). auto.
  - destruct (_streamRequest_sent_inv server self method endpoint options w ro wr Hsent)
      as (Hh & _). rewrite Hh.
    split; (split; [apply union_lookup_default|apply exact_case_union; [assumption|]]).
    + apply lookup_insert_eq.
    + apply (exact_case_sdk _ true). auto.
    + rewrite !lookup_insert_ne by discriminate. apply lookup_insert_eq.
    + apply (exact_case_sdk _ true). auto.
Qed.

(** The bearer credential on the request of [listVoices]. *)
Lemma credentials_on_every_request_witness :
  let run := _request (rt := Node.runtime) (always NetSilent) Examples.client
               "GET" "/tts/voices" no_options Examples.empty_world in
  exists ro wr,
    sent (snd run) = [(ro, wr)] /\
    on_wire (ro_headers ro) "Authorization" "Bearer secret" /\
    on_wire (ro_headers ro) "User-Agent" "VoiceAI-SDK/1.1.4".
Proof.
  intros run.
  assert (Hsent : exists ro wr, sent (snd run) = [(ro, wr)])
    by (vm_compute; eauto).
  destruct Hsent as (ro & wr & Hsent). exists ro, wr. split; [exact Hsent|].
  exact (credentials_on_every_request (rt := Node.runtime) (always NetSilent)
           Examples.client "GET" "/tts/voices" no_options Examples.empty_world ro wr
           (exact_case_empty _) (exact_case_empty _) (or_introl Hsent)).
Defined.



(** ** Failures of the connection *)



(** ** The client a constructor call gives *)


Section Silence.

Context {rt : Runtime}.


End Silence.



(** ** More on the errors of the buffered transport *)

Section Error_details.

Context {rt : Runtime}.

Lemma _request_error_outcome self method endpoint options latency res w o w' :
  _request (always (NetReply latency res)) self method endpoint options w = (o, w') ->
  sent w' <> sent w ->
  (latency <= timeout self)%N ->
  400 <= statusCode res ->
  let text := Buffer_toString (concat (chunks res)) in
  o = in_callback (reject_for_status (statusCode res)
                     (errorData_of (JSON_parse text) text)).
Proof.
  intros Hrun Hsent Hlat Hstatus text.
  destruct (_request_answered _ _ _ _ _ _ _ _ _ Hrun Hsent Hlat) as [ro Hend].
  unfold _request_on_end in Hend.
  assert (Hhigh : Z.leb 400 (statusCode res) = true) by (apply Z.leb_le; lia).
  rewrite Hhigh in Hend. unfold JSON_parse_logged in Hend.
  inversion Hend. reflexivity.
Qed.

Lemma default_message_other status :
  status <> 401 -> status <> 402 -> status <> 404 -> status <> 422 -> status <> 429 ->
  default_message status = "".
Proof.
  intros H1 H2 H3 H4 H5. unfold default_message.
  destruct status as [|p|p]; try reflexivity.
  do 9 (destruct p as [p|p|]; try reflexivity); congruence.
Qed.

(** Every rejection the switch produces, with the message it was given. *)
Lemma reject_for_status_error status errorData m d msg :
  member errorData "error" = Some m ->
  member errorData "detail" = Some d ->
  coerce_message (default_message status) m = Normal msg ->
  exists e,
    in_callback (reject_for_status status errorData) = Rejected (Sdk e) /\
    message e = msg /\ code e = NumCode status /\
    details e = (if Z.eqb status 401 || Z.eqb status 402 || Z.eqb status 404
                    || Z.eqb status 429
                 then JNull else default JNull d).
Proof.
  intros Hm Hd Hmsg. unfold reject_for_status, get. rewrite Hm, Hd.
  destruct (Z.eq_dec status 401) as [E|N1];
    [|destruct (Z.eq_dec status 402) as [E|N2];
      [|destruct (Z.eq_dec status 404) as [E|N3];
        [|destruct (Z.eq_dec status 422) as [E|N4];
          [|destruct (Z.eq_dec status 429) as [E|N5]]]]].
  1-5: subst status; simpl.
  - change (default_message 401) with "Invalid or missing API key" in Hmsg.
    unfold new_AuthenticationError. rewrite Hmsg. simpl. eexists; repeat split.
  - change (default_message 402)
      with "Insufficient credits or voice slot limit reached" in Hmsg.
    unfold new_PaymentRequiredError. rewrite Hmsg. simpl. eexists; repeat split.
  - change (default_message 404) with "Resource not found" in Hmsg.
    unfold new_NotFoundError. rewrite Hmsg. simpl. eexists; repeat split.
  - change (default_message 422) with "" in Hmsg.
    unfold new_ValidationError. rewrite Hmsg. simpl. eexists; repeat split.
  - change (default_message 429) with "Rate limit exceeded" in Hmsg.
    unfold new_RateLimitError. rewrite Hmsg. simpl. eexists; repeat split.
  - rewrite switch_default by assumption. simpl.
    rewrite default_message_other in Hmsg by assumption.
    unfold new_VoiceAIError. rewrite Hmsg. simpl.
    apply Z.eqb_neq in N1, N2, N3, N5. rewrite N1, N2, N3, N5. simpl.
    eexists; repeat split.
Qed.

End Error_details.

(** X6. Whatever its class, the error of a buffered request answered with a
    status of 400 or more carries that status as its numeric code. The
    server's [detail] payload survives only on a 422 and on the statuses
    without a class of their own: on 401, 402, 404 and 429 it is dropped
    and the details are [null]. (For an error body that is not the JSON
    text [null] and whose [error] field can be made into a message.) *)
Theorem buffered_error_code_and_details {rt : Runtime} self method endpoint options latency
    res w o w' m d :
  _request (always (NetReply latency res)) self method endpoint options w = (o, w') ->
  sent w' <> sent w ->
  (latency <= timeout self)%N ->
  400 <= statusCode res ->
  let text := Buffer_toString (concat (chunks res)) in
  let errorData := errorData_of (JSON_parse text) text in
  member errorData "error" = Some m ->
  member errorData "detail" = Some d ->
  coercible m ->
  exists e,
    o = Rejected (Sdk e) /\
    code e = NumCode (statusCode res) /\
    details e = (if Z.eqb (statusCode res) 401 || Z.eqb (statusCode res) 402
                    || Z.eqb (statusCode res) 404 || Z.eqb (statusCode res) 429
                 then JNull else default JNull d).
Proof.
  intros Hrun Hsent Hlat Hstatus text errorData Hm Hd Hc.
  rewrite (_request_error_outcome _ _ _ _ _ _ _ _ _ Hrun Hsent Hlat Hstatus).
  destruct (coerce_message_coercible (default_message (statusCode res)) m Hc) as [msg Hmsg].
  destruct (reject_for_status_error (statusCode res) errorData m d msg Hm Hd Hmsg)
    as (e & He & _ & Hcode & Hdet).
  exists e. auto.
Qed.

(** A 404 whose body carries a detail: the code is 404, the detail is
    gone. *)
Lemma buffered_error_code_and_details_witness :
  let res := Examples.error_reply 404 Examples.invalid_body in
  let run := _request (rt := Node.runtime) (always (NetReply 10 res)) Examples.client
               "GET" "/tts/voice/abc" no_options Examples.empty_world in
  exists e, fst run = Rejected (Sdk e) /\ code e = NumCode 404 /\ details e = JNull.
Proof.
  intros res run.
  refine (buffered_error_code_and_details (rt := Node.runtime) Examples.client "GET"
            "/tts/voice/abc" no_options 10 res Examples.empty_world (fst run) (snd run)
            (Some (JStr "invalid")) (Some (JArr [JStr "text too long"]))
            (surjective_pairing run) _ _ _ _ _ _).
  - vm_compute. discriminate.
  - vm_compute. discriminate.
  - vm_compute. discriminate.
  - vm_compute. reflexivity.
  - vm_compute. reflexivity.
  - simpl. eauto.
Defined.

(** X7. The message of the error, for a buffered request answered with a
    status of 400 or more. A body that is not JSON becomes the message as
    it is, and an empty body gives [Unknown error]. A JSON object without
    an [error] field gives the default message of the error's class, which
    is empty for a 422 and for the statuses without a class of their
    own. *)
Theorem buffered_error_message {rt : Runtime} self method endpoint options latency
    res w o w' :
  _request (always (NetReply latency res)) self method endpoint options w = (o, w') ->
  sent w' <> sent w ->
  (latency <= timeout self)%N ->
  400 <= statusCode res ->
  let text := Buffer_toString (concat (chunks res)) in
  (JSON_parse text = None ->
   exists e, o = Rejected (Sdk e) /\
             message e = (if String.eqb text "" then "Unknown error" else text)) /\
  (forall fields,
     JSON_parse text = Some (JObj fields) -> lookup_last "error" fields = None ->
     exists e, o = Rejected (Sdk e) /\ message e = default_message (statusCode res)).
Proof.
  intros Hrun Hsent Hlat Hstatus text.
  rewrite (_request_error_outcome _ _ _ _ _ _ _ _ _ Hrun Hsent Hlat Hstatus).
  fold text. split.
  - intros Hparse. rewrite Hparse.
    destruct (reject_for_status_error (statusCode res) (errorData_of None text)
                (Some (JStr (if String.eqb text "" then "Unknown error" else text)))
                None (if String.eqb text "" then "Unknown error" else text))
      as (e & He & Hmsg & _); try reflexivity.
    exists e. auto.
  - intros fields Hparse Hmissing. rewrite Hparse.
    destruct (reject_for_status_error (statusCode res) (errorData_of (Some (JObj fields)) text)
                None (lookup_last "detail" fields) (default_message (statusCode res)))
      as (e & He & Hmsg & _); try reflexivity.
    + simpl. rewrite Hmissing. reflexivity.
    + exists e. auto.
Qed.

(** A 502 with an HTML page, and a 429 with an empty JSON object. *)
Lemma buffered_error_message_witness :
  (exists e,
     fst (_request (rt := Node.runtime)
            (always (NetReply 10 (Examples.error_reply 502 "<html>")))
            Examples.client "GET" "/tts/voices" no_options Examples.empty_world)
     = Rejected (Sdk e) /\ message e = "<html>") /\
  (exists e,
     fst (_request (rt := Node.runtime)
            (always (NetReply 10 (Examples.error_reply 429 "{}")))
            Examples.client "GET" "/tts/voices" no_options Examples.empty_world)
     = Rejected (Sdk e) /\ message e = "Rate limit exceeded").
Proof.
  split.
  - refine (proj1 (buffered_error_message (rt := Node.runtime) Examples.client "GET"
                     "/tts/voices" no_options 10 (Examples.error_reply 502 "<html>")
                     Examples.empty_world _ _ (surjective_pairing _) _ _ _) _).
    + vm_compute. discriminate.
    + vm_compute. discriminate.
    + vm_compute. discriminate.
    + vm_compute. reflexivity.
  - refine (proj2 (buffered_error_message (rt := Node.runtime) Examples.client "GET"
                     "/tts/voices" no_options 10 (Examples.error_reply 429 "{}")
                     Examples.empty_world _ _ (surjective_pairing _) _ _ _) [] _ _).
    + vm_compute. discriminate.
    + vm_compute. discriminate.
    + vm_compute. discriminate.
    + vm_compute. reflexivity.
    + reflexivity.
Defined.

(** ** Results of the speech and voice operations *)

(** X8. [generateSpeech] never decodes a successful answer: when its
    request is answered in time with a status below 400, it resolves with
    the bytes received, whatever the content type says, [application/json]
    included, and [JSON.parse] is not called. *)
Theorem generateSpeech_returns_bytes {rt : Runtime} self options latency res w o w' :
  generateSpeech (always (NetReply latency res)) self options w = (o, w') ->
  sent w' <> sent w ->
  (latency <= timeout self)%N ->
  statusCode res < 400 ->
  o = Resolved (VBuffer (concat (chunks res))) /\ parsed w' = parsed w.
Proof.
  intros Hrun Hsent Hlat Hstatus. unfold generateSpeech in Hrun.
  destruct (negb (truthy_string (text options))).
  { simpl in Hrun. inversion Hrun; subst. contradiction. }
  destruct (_request_answered _ _ _ _ _ _ _ _ _ Hrun Hsent Hlat) as [ro Hend].
  unfold _request_on_end in Hend.
  assert (Hlow : Z.leb 400 (statusCode res) = false) by (apply Z.leb_gt; lia).
  rewrite Hlow in Hend. simpl in Hend. rewrite orb_true_r in Hend.
  inversion Hend. split; reflexivity.
Qed.

(** A JSON answer to [generateSpeech] comes back as bytes. *)
Lemma generateSpeech_returns_bytes_witness :
  let run := generateSpeech (rt := Node.runtime) (always (NetReply 10 Examples.json_reply))
               Examples.client Examples.hello Examples.empty_world in
  fst run = Resolved (VBuffer (concat (chunks Examples.json_reply))) /\
  parsed (snd run) = [].
Proof.
  intros run.
  refine (generateSpeech_returns_bytes (rt := Node.runtime) Examples.client Examples.hello
            10 Examples.json_reply Examples.empty_world (fst run) (snd run)
            (surjective_pairing run) _ _ _).
  - vm_compute. discriminate.
  - vm_compute. discriminate.
  - reflexivity.
Defined.

(** X9. [getFirstVoices] never resolves with a falsy value: when the
    answer has no [voices] field, or a falsy one, or is not an object at
    all (a buffer, a number, a raw text), it resolves with the empty array;
    and when the answer is the JSON value [null], the read of [voices]
    throws and the call is rejected with that [TypeError]. *)
Theorem getFirstVoices_result {rt : Runtime} (server : Server) self count w :
  let response :=
    fst (listVoices server self
           (mkListOptions (Some (default (JNum (inject_Z 10)) count)) None None) w) in
  let result := fst (getFirstVoices server self count w) in
  (forall v, result = Resolved v -> truthy (Some v) = true) /\
  (forall j, response = Resolved (VJson j) -> truthy (lookup_voices j) = false ->
             j <> JNull -> result = Resolved (JArr [])) /\
  (forall b, response = Resolved (VBuffer b) -> result = Resolved (JArr [])) /\
  (response = Resolved (VJson JNull) -> result = Rejected type_error_null).
Proof.
  intros response result. subst response result.
  unfold getFirstVoices, mbind, Async_bind, await, lookup_voices.
  destruct (listVoices server self _ w) as [[[b|j]|e|e|] w1]; simpl.
  all: repeat split; try discriminate.
  - intros v Hv. inversion Hv. reflexivity.
  - intros v. unfold get. destruct (member j "voices") as [voices|]; simpl; [|discriminate].
    destruct (truthy voices) eqn:Ht; intros Hv; inversion Hv; subst; [|reflexivity].
    destruct voices; simpl in *; [exact Ht|discriminate].
  - intros j' Hj Hfalsy Hnull. inversion Hj; subst j'.
    unfold get. destruct j; try contradiction; simpl in *; try reflexivity.
    rewrite Hfalsy. reflexivity.
  - intros Hj. inversion Hj. reflexivity.
Qed.

(** A raw-text answer has no voices. *)
Lemma getFirstVoices_result_witness :
  fst (listVoices (rt := Node.runtime) (always (NetReply 10 Examples.garbled_reply))
         Examples.client (mkListOptions (Some (JNum (inject_Z 10))) None None)
         Examples.empty_world) = Resolved (VJson (JStr "<html>")) /\
  fst (getFirstVoices (rt := Node.runtime) (always (NetReply 10 Examples.garbled_reply))
         Examples.client None Examples.empty_world) = Resolved (JArr []).
Proof.
  assert (Hresponse :
    fst (listVoices (rt := Node.runtime) (always (NetReply 10 Examples.garbled_reply))
           Examples.client (mkListOptions (Some (JNum (inject_Z 10))) None None)
           Examples.empty_world) = Resolved (VJson (JStr "<html>")))
    by (vm_compute; reflexivity).
  split; [exact Hresponse|].
  destruct (getFirstVoices_result (rt := Node.runtime)
              (always (NetReply 10 Examples.garbled_reply)) Examples.client None
              Examples.empty_world) as (_ & Hfalsy & _).
  apply (Hfalsy (JStr "<html>") Hresponse); [reflexivity|discriminate].
Defined.

(** ** The streaming pipeline under failures *)

Section Pipeline_safety.

Variable path : string.
Variable total : Buffer.

Local Abbreviation listeners := (streamSpeechToFile_listeners path).

Lemma settle_settled {A : Type} (o promise : Outcome A) :
  promise <> Pending -> settle o promise = promise.
Proof. destruct promise; simpl; congruence. Qed.

Lemma pipe_step_safe ev st :
  pipe_safe path total st -> pipe_safe path total (pipe_step path listeners ev st).
Proof.
  destruct st as [[pending open opened queue ending alive finished pr] w].
  unfold pipe_safe. simpl.
  intros (Ho & Hb & Hf & Hfin & Hend & Hp). subst opened.
  destruct ev as [| |c| | |c]; simpl.
  - destruct pending as [|chunk rest]; [tauto|].
    destruct (open && alive && negb ending) eqn:Hg; simpl; [|tauto].
    apply andb_true_iff in Hg. destruct Hg as [_ Hne]. apply negb_true_iff in Hne.
    subst ending.
    split; [reflexivity|].
    split; [|split; [exact Hf|split; [|split; [discriminate|exact Hp]]]].
    + rewrite concat_app. simpl. rewrite app_nil_r, <- Hb, <- !app_assoc. reflexivity.
    + intros Hx. destruct (Hfin Hx) as [_ ?]. discriminate.
  - destruct pending as [|chunk rest]; [|tauto].
    destruct open; simpl; [|tauto].
    split; [reflexivity|].
    split; [exact Hb|split; [exact Hf|split; [|split; [reflexivity|exact Hp]]]].
    intros Hx. destruct (Hfin Hx) as [? _]. auto.
  - destruct open; simpl; [|tauto].
    split; [reflexivity|].
    split; [exact Hb|split; [exact Hf|split; [exact Hfin|split; [exact Hend|]]]].
    destruct pr; simpl; auto.
  - destruct queue as [|chunk rest]; [tauto|]. simpl.
    destruct alive; simpl; [|tauto].
    split; [reflexivity|]. split; [|split; [|split; [|split; [exact Hend|exact Hp]]]].
    + rewrite (on_disk_append path), <- Hb. simpl. rewrite <- !app_assoc. reflexivity.
    + unfold append_to_file. simpl. rewrite lookup_insert_eq. eauto.
    + intros Hx. destruct (Hfin Hx) as [? _]. discriminate.
  - destruct queue as [|chunk rest]; [|tauto]. simpl.
    destruct (alive && ending && negb finished) eqn:Hg; simpl; [|tauto].
    apply andb_true_iff in Hg. destruct Hg as [Hg _].
    apply andb_true_iff in Hg. destruct Hg as [_ He]. subst ending.
    split; [reflexivity|].
    split; [exact Hb|split; [exact Hf|split; [auto|split; [exact Hend|]]]].
    destruct pr; simpl in *; intuition.
  - destruct (alive && negb finished) eqn:Hg; simpl; [|tauto].
    apply andb_true_iff in Hg. destruct Hg as [_ Hnf]. apply negb_true_iff in Hnf.
    subst finished.
    split; [reflexivity|].
    split; [exact Hb|split; [exact Hf|split; [discriminate|split; [exact Hend|]]]].
    destruct pr; simpl in *; intuition; discriminate.
Qed.

Lemma run_pipe_safe schedule st :
  pipe_safe path total st -> pipe_safe path total (run_pipe path listeners schedule st).
Proof.
  revert st. induction schedule as [|ev rest IH]; intros st Hinv; [exact Hinv|].
  change (run_pipe path listeners (ev :: rest) st)
    with (run_pipe path listeners rest (pipe_step path listeners ev st)).
  apply IH. apply pipe_step_safe. exact Hinv.
Qed.

Lemma pipe_step_settled ev st :
  promise (fst st) <> Pending ->
  promise (fst (pipe_step path listeners ev st)) = promise (fst st).
Proof.
  destruct st as [[pending open opened queue ending alive finished pr] w]. simpl.
  intros Hp.
  destruct ev; simpl;
    repeat match goal with
           | |- context [match ?l with [] => _ | _ :: _ => _ end] => destruct l; simpl
           | |- context [if ?b then _ else _] => destruct b; simpl
           end; try reflexivity; apply settle_settled; exact Hp.
Qed.

Lemma run_pipe_settled schedule st :
  promise (fst st) <> Pending ->
  promise (fst (run_pipe path listeners schedule st)) = promise (fst st).
Proof.
  revert st. induction schedule as [|ev rest IH]; intros st Hp; [reflexivity|].
  change (run_pipe path listeners (ev :: rest) st)
    with (run_pipe path listeners rest (pipe_step path listeners ev st)).
  rewrite IH; rewrite pipe_step_settled; auto.
Qed.

(** While only chunks arrive and are flushed, both streams stay as they
    started: open, alive and with a pending promise. *)
Lemma run_pipe_running schedule st :
  forallb keeps_running schedule = true ->
  source_open (fst st) = true -> sink_alive (fst st) = true ->
  sink_finished (fst st) = false -> promise (fst st) = Pending ->
  let st' := run_pipe path listeners schedule st in
  source_open (fst st') = true /\ sink_alive (fst st') = true /\
  sink_finished (fst st') = false /\ promise (fst st') = Pending.
Proof.
  revert st. induction schedule as [|ev rest IH]; intros st Hs Ho Ha Hf Hp; [auto|].
  simpl in Hs. apply andb_true_iff in Hs. destruct Hs as [Hev Hrest].
  change (run_pipe path listeners (ev :: rest) st)
    with (run_pipe path listeners rest (pipe_step path listeners ev st)).
  cbv zeta. apply (IH _ Hrest);
    destruct st as [[pending open opened queue ending alive finished pr] w];
    simpl in *; subst;
    destruct ev; try discriminate; simpl;
    repeat match goal with
           | |- context [match ?l with [] => _ | _ :: _ => _ end] => destruct l; simpl
           | |- context [if ?b then _ else _] => destruct b; simpl
           end; reflexivity.
Qed.

Lemma pipe_step_closed disk ev st :
  pipe_closed disk st -> pipe_closed disk (pipe_step path listeners ev st).
Proof.
  destruct st as [[pending open opened queue ending alive finished pr] w].
  unfold pipe_closed. simpl. intros (Ho & Hf & Hd & Hp). subst opened finished.
  destruct ev; simpl;
    repeat match goal with
           | |- context [match ?l with [] => _ | _ :: _ => _ end] => destruct l; simpl
           | |- context [if ?b then _ else _] => destruct b; simpl
           end; repeat split; try assumption; destruct pr; simpl; auto.
Qed.

Lemma run_pipe_closed disk schedule st :
  pipe_closed disk st -> pipe_closed disk (run_pipe path listeners schedule st).
Proof.
  revert st. induction schedule as [|ev rest IH]; intros st Hinv; [exact Hinv|].
  change (run_pipe path listeners (ev :: rest) st)
    with (run_pipe path listeners rest (pipe_step path listeners ev st)).
  apply IH. apply pipe_step_closed. exact Hinv.
Qed.

End Pipeline_safety.

Section Stream_to_file_safety.

Context {rt : Runtime}.

Lemma pipe_to_file_opened stream outputPath schedule w :
  outputPath ∉ unwritable w ->
  let start :=
    (mkPipe (chunks stream) true true [] false true false Pending,
     mkWorld (<[outputPath := []]> (fs w)) (unwritable w) (sent w) (parsed w)) in
  let final := run_pipe outputPath (streamSpeechToFile_listeners outputPath) schedule start in
  pipe_to_file stream outputPath schedule w = (promise (fst final), snd final) /\
  pipe_safe outputPath (concat (chunks stream)) start.
Proof.
  intros Hw start final. split.
  - unfold pipe_to_file, createWriteStream.
    rewrite bool_decide_eq_false_2 by exact Hw.
    subst final start. cbv zeta.
    match goal with
    | |- context [run_pipe ?a ?b ?c ?d] => destruct (run_pipe a b c d) as [p w2]
    end. reflexivity.
  - subst start. unfold pipe_safe. simpl. unfold on_disk. simpl.
    rewrite lookup_insert_eq. simpl.
    split; [reflexivity|]. split; [reflexivity|].
    split; [rewrite lookup_insert_eq; eauto|].
    split; [discriminate|]. split; [discriminate|exact I].
Qed.

Lemma pipe_to_file_not_opened stream outputPath schedule w :
  outputPath ∈ unwritable w ->
  let start := (mkPipe (chunks stream) true false [] false true false Pending, w) in
  let final := run_pipe outputPath (streamSpeechToFile_listeners outputPath) schedule start in
  pipe_to_file stream outputPath schedule w = (promise (fst final), snd final) /\
  pipe_closed (fs w) start.
Proof.
  intros Hw start final. split.
  - unfold pipe_to_file, createWriteStream.
    rewrite bool_decide_eq_true_2 by exact Hw.
    subst final start. cbv zeta.
    match goal with
    | |- context [run_pipe ?a ?b ?c ?d] => destruct (run_pipe a b c d) as [p w2]
    end. reflexivity.
  - subst start. unfold pipe_closed. simpl. auto.
Qed.

Lemma on_disk_prefix path w (queue pending : list Buffer) total file :
  (on_disk path w ++ concat queue ++ concat pending)%list = total ->
  fs w !! path = Some file -> file `prefix_of` total.
Proof.
  intros Hb Hf. rewrite (on_disk_lookup path w file Hf) in Hb.
  exists (concat queue ++ concat pending)%list. symmetry. exact Hb.
Qed.

End Stream_to_file_safety.

(** X10. Whatever the order of the stream events, failures of either
    stream included: once the streaming request has been answered with a
    status below 400 and the output file could be opened, the file exists
    and holds a prefix of the bytes of the response, whatever it held
    before; the promise of [streamSpeechToFile] is never resolved with
    anything but the output path, and when it is resolved the file holds
    all the bytes. *)
Theorem streamSpeechToFile_under_any_schedule {rt : Runtime} self options outputPath
    latency res w schedule :
  sent (snd (streamSpeech (always (NetReply latency res)) self options w)) <> sent w ->
  statusCode res < 400 ->
  outputPath ∉ unwritable w ->
  let run :=
    streamSpeechToFile (always (NetReply latency res)) self options outputPath schedule w in
  let total := concat (chunks res) in
  exists file,
    fs (snd run) !! outputPath = Some file /\
    file `prefix_of` total /\
    (forall x, fst run = Resolved x -> x = outputPath /\ file = total) /\
    (forall e, fst run <> Uncaught e).
Proof.
  intros Hsent Hstatus Hpath run total.
  destruct (streamSpeech_resolved self options latency res w Hsent Hstatus)
    as (w1 & Hstream & Hfs & Hun).
  assert (Hpath1 : outputPath ∉ unwritable w1) by (rewrite Hun; exact Hpath).
  destruct (pipe_to_file_opened res outputPath schedule w1 Hpath1) as [Hpipe Hstart].
  assert (Hrun : run = pipe_to_file res outputPath schedule w1).
  { subst run. unfold streamSpeechToFile, mbind, Async_bind, await.
    rewrite Hstream. reflexivity. }
  rewrite Hrun, Hpipe. simpl.
  pose proof (run_pipe_safe outputPath total schedule _ Hstart) as Hsafe.
  match type of Hsafe with
  | pipe_safe _ _ ?st => destruct st as [p w2]
  end.
  destruct Hsafe as (_ & Hb & [file Hf] & Hfin & Hend & Hp). simpl.
  exists file. split; [exact Hf|]. split; [eapply on_disk_prefix; eauto|]. split.
  - intros x Hx. rewrite Hx in Hp. destruct Hp as [-> Hdone]. split; [reflexivity|].
    destruct (Hfin Hdone) as [Hq He]. rewrite Hq, (Hend He) in Hb.
    rewrite (on_disk_lookup outputPath w2 file Hf) in Hb. simpl in Hb.
    rewrite app_nil_r in Hb. exact Hb.
  - intros e He. rewrite He in Hp. exact Hp.
Qed.

(** One chunk reaches the disk, then the response fails: a one-chunk file
    and no resolution. *)
Lemma streamSpeechToFile_under_any_schedule_witness :
  let run := streamSpeechToFile (rt := Node.runtime)
               (always (NetReply 10 Examples.audio_reply)) Examples.client Examples.hello
               "out.mp3" [SourceData; SinkFlush; SourceError "ECONNRESET"; SinkFinish]
               Examples.empty_world in
  exists file,
    fs (snd run) !! "out.mp3" = Some file /\
    file `prefix_of` list_byte_of_string "ID3abc" /\
    (forall x, fst run = Resolved x -> x = "out.mp3" /\ file = list_byte_of_string "ID3abc").
Proof.
  intros run.
  destruct (streamSpeechToFile_under_any_schedule (rt := Node.runtime) Examples.client
              Examples.hello "out.mp3" 10 Examples.audio_reply Examples.empty_world
              [SourceData; SinkFlush; SourceError "ECONNRESET"; SinkFinish])
    as (file & Hf & Hprefix & Hres & _).
  - vm_compute. discriminate.
  - reflexivity.
  - apply not_elem_of_empty.
  - exists file. auto.
Defined.

(** X11. The first failure decides: while chunks are still arriving and
    being flushed, a failure of the response or of the file sink rejects
    the promise of [streamSpeechToFile] with that very error, and nothing
    that happens afterwards changes it; the file is left in place. *)
Theorem streamSpeechToFile_first_failure {rt : Runtime} self options outputPath latency
    res w before after cause :
  sent (snd (streamSpeech (always (NetReply latency res)) self options w)) <> sent w ->
  statusCode res < 400 ->
  outputPath ∉ unwritable w ->
  forallb keeps_running before = true ->
  let run := fun failure =>
    streamSpeechToFile (always (NetReply latency res)) self options outputPath
      (before ++ failure :: after)%list w in
  fst (run (SourceError cause)) = Rejected (SystemError cause) /\
  fst (run (SinkError cause)) = Rejected (SystemError cause) /\
  is_Some (fs (snd (run (SourceError cause))) !! outputPath) /\
  is_Some (fs (snd (run (SinkError cause))) !! outputPath).
Proof.
  intros Hsent Hstatus Hpath Hbefore run.
  destruct (streamSpeech_resolved self options latency res w Hsent Hstatus)
    as (w1 & Hstream & Hfs & Hun).
  assert (Hpath1 : outputPath ∉ unwritable w1) by (rewrite Hun; exact Hpath).
  assert (Hrun : forall failure,
             run failure = pipe_to_file res outputPath (before ++ failure :: after) w1).
  { intros failure. subst run. cbv beta.
    unfold streamSpeechToFile, mbind, Async_bind, await. rewrite Hstream. reflexivity. }
  assert (Hfail : forall failure,
    (failure = SourceError cause \/ failure = SinkError cause) ->
    fst (run failure) = Rejected (SystemError cause) /\
    is_Some (fs (snd (run failure)) !! outputPath)).
  { intros failure Hcases. rewrite Hrun.
    destruct (pipe_to_file_opened res outputPath (before ++ failure :: after) w1 Hpath1)
      as [Hpipe Hstart].
    rewrite Hpipe. simpl.
    pose proof (run_pipe_safe outputPath (concat (chunks res))
                  (before ++ failure :: after) _ Hstart) as Hsafe.
    split.
    - rewrite run_pipe_app.
      change (run_pipe outputPath (streamSpeechToFile_listeners outputPath)
                (failure :: after) ?st)
        with (run_pipe outputPath (streamSpeechToFile_listeners outputPath) after
                (pipe_step outputPath (streamSpeechToFile_listeners outputPath) failure st)).
      match goal with
      | |- context [pipe_step _ _ failure ?st] =>
          pose proof (run_pipe_running outputPath before
                        (mkPipe (chunks res) true true [] false true false Pending,
                         mkWorld (<[outputPath := []]> (fs w1)) (unwritable w1) (sent w1)
                           (parsed w1))
                        Hbefore eq_refl eq_refl eq_refl eq_refl) as Hmid;
          cbv zeta in Hmid; destruct st as [p wm]
      end.
      simpl in Hmid. destruct Hmid as (Hopen & Halive & Hunf & Hpend).
      assert (Hstep : promise (fst (pipe_step outputPath
                                      (streamSpeechToFile_listeners outputPath) failure
                                      (p, wm))) = Rejected (SystemError cause)).
      { destruct p as [pending open opened queue ending alive finished pr].
        simpl in *. subst. destruct Hcases as [->| ->]; reflexivity. }
      rewrite run_pipe_settled; rewrite Hstep; [reflexivity|discriminate].
    - match type of Hsafe with
      | pipe_safe _ _ ?st => destruct st as [p w2]
      end.
      destruct Hsafe as (_ & _ & Hf & _). exact Hf. }
  destruct (Hfail (SourceError cause) (or_introl eq_refl)) as [H1 H2].
  destruct (Hfail (SinkError cause) (or_intror eq_refl)) as [H3 H4].
  auto.
Qed.

(** The connection drops after the first chunk was flushed. *)
Lemma streamSpeechToFile_first_failure_witness :
  let run := streamSpeechToFile (rt := Node.runtime)
               (always (NetReply 10 Examples.audio_reply)) Examples.client Examples.hello
               "out.mp3"
               ([SourceData; SinkFlush] ++ SourceError "ECONNRESET" :: [SinkFlush; SinkFinish])
               Examples.empty_world in
  fst run = Rejected (SystemError "ECONNRESET") /\
  is_Some (fs (snd run) !! "out.mp3").
Proof.
  intros run.
  destruct (streamSpeechToFile_first_failure (rt := Node.runtime) Examples.client
              Examples.hello "out.mp3" 10 Examples.audio_reply Examples.empty_world
              [SourceData; SinkFlush] [SinkFlush; SinkFinish] "ECONNRESET")
    as (Hsource & _ & Hfile & _).
  - vm_compute. discriminate.
  - reflexivity.
  - apply not_elem_of_empty.
  - reflexivity.
  - split; [exact Hsource|exact Hfile].
Defined.

(** ** What the operations leave alone *)

Section Frame.

Context {rt : Runtime}.
Variable server : Server.

Lemma _streamRequest_disk self method endpoint options w :
  fs (snd (_streamRequest server self method endpoint options w)) = fs w /\
  unwritable (snd (_streamRequest server self method endpoint options w)) = unwritable w.
Proof.
  destruct (_streamRequest_cases server self method endpoint options w)
    as [[x Hx]|(url & ro & wr & _ & _ & _ & _ & _ & _ & _ & Heq)].
  - rewrite Hx. split; reflexivity.
  - rewrite Heq. unfold https_request.
    destruct (server ro wr) as [cause| |latency res]; simpl.
    + split; reflexivity.
    + destruct (timer_fires ro None); split; reflexivity.
    + destruct (timer_fires ro (Some latency)); simpl;
        unfold _streamRequest_on_response, JSON_parse_logged;
        destruct (Z.leb 400 (statusCode res)); simpl; split; reflexivity.
Qed.

Lemma _request_disk self method endpoint options w :
  fs (snd (_request server self method endpoint options w)) = fs w /\
  unwritable (snd (_request server self method endpoint options w)) = unwritable w.
Proof.
  destruct (_request_outcomes server self method endpoint options w _ _
              (surjective_pairing _)) as (Hfs & Hun & _).
  auto.
Qed.

Lemma run_pipe_frame path on schedule st other :
  other <> path ->
  fs (snd (run_pipe path on schedule st)) !! other = fs (snd st) !! other /\
  unwritable (snd (run_pipe path on schedule st)) = unwritable (snd st).
Proof.
  intros Hother. revert st. induction schedule as [|ev rest IH]; intros st; [auto|].
  change (run_pipe path on (ev :: rest) st)
    with (run_pipe path on rest (pipe_step path on ev st)).
  destruct (IH (pipe_step path on ev st)) as [-> ->].
  destruct st as [p w].
  destruct ev; simpl;
    repeat match goal with
           | |- context [match ?l with [] => _ | _ :: _ => _ end] => destruct l; simpl
           | |- context [if ?b then _ else _] => destruct b; simpl
           end; try (split; reflexivity).
  split; [|reflexivity]. apply lookup_insert_ne. congruence.
Qed.

Lemma pipe_to_file_frame stream outputPath schedule w other :
  other <> outputPath ->
  fs (snd (pipe_to_file stream outputPath schedule w)) !! other = fs w !! other /\
  unwritable (snd (pipe_to_file stream outputPath schedule w)) = unwritable w.
Proof.
  intros Hother. unfold pipe_to_file, createWriteStream.
  destruct (bool_decide (outputPath ∈ unwritable w)).
  - match goal with
    | |- context [run_pipe ?a ?b ?c ?d] =>
        pose proof (run_pipe_frame a b c d other Hother) as Hr;
        destruct (run_pipe a b c d) as [p w2]
    end. exact Hr.
  - match goal with
    | |- context [run_pipe ?a ?b ?c ?d] =>
        pose proof (run_pipe_frame a b c d other Hother) as Hr;
        destruct (run_pipe a b c d) as [p w2]
    end. simpl in *. destruct Hr as [Hr ->]. split; [|reflexivity].
    rewrite Hr. apply lookup_insert_ne. congruence.
Qed.

End Frame.

(** X12. The only file an operation of the client ever creates or changes
    is the output path it was given: [generateSpeechToFile] and
    [streamSpeechToFile] leave every other path as it was, whatever the
    server does and however the stream behaves, and the two transports,
    and so every operation without an output path, leave the whole disk as
    it was. *)
Theorem only_the_output_path_is_written {rt : Runtime} (server : Server) self options
    outputPath schedule method endpoint request_options w other :
  other <> outputPath ->
  fs (snd (generateSpeechToFile server self options outputPath w)) !! other
    = fs w !! other /\
  fs (snd (streamSpeechToFile server self options outputPath schedule w)) !! other
    = fs w !! other /\
  fs (snd (_request server self method endpoint request_options w)) = fs w /\
  fs (snd (_streamRequest server self method endpoint request_options w)) = fs w.
Proof.
  intros Hother. split; [|split; [|split]].
  - unfold generateSpeechToFile, mbind, Async_bind, await, generateSpeech.
    assert (Hgen : forall r : Outcome Value * World,
               fs (snd r) = fs w ->
               fs (snd (match r with
                        | (Resolved a, w') =>
                            match writeFileSync outputPath a w' with
                            | (Resolved a0, w'0) => resolve outputPath w'0
                            | (Rejected e, w'0) => (Rejected e, w'0)
                            | (Uncaught e, w'0) => (Uncaught e, w'0)
                            | (Pending, w'0) => (Pending, w'0)
                            end
                        | (Rejected e, w') => (Rejected e, w')
                        | (Uncaught e, w') => (Uncaught e, w')
                        | (Pending, w') => (Pending, w')
                        end)) !! other = fs w !! other).
    { intros [[a|e|e|] w1] Hw1; simpl in *; try (rewrite Hw1; reflexivity).
      unfold writeFileSync.
      destruct (match a with
                | VBuffer b => Some b
                | VJson (JStr s) => Some (list_byte_of_string s)
                | VJson _ => None
                end); simpl; [|rewrite Hw1; reflexivity].
      destruct (bool_decide (outputPath ∈ unwritable w1)); simpl.
      - rewrite Hw1. reflexivity.
      - rewrite Hw1. apply lookup_insert_ne. congruence. }
    destruct (negb (truthy_string (text options))); [reflexivity|].
    apply Hgen. apply _request_disk.
  - unfold streamSpeechToFile, mbind, Async_bind, await, streamSpeech.
    destruct (negb (truthy_string (text options))); [reflexivity|].
    match goal with
    | |- context [_streamRequest ?s ?c ?m ?e ?o ?w0] =>
        pose proof (_streamRequest_disk s c m e o w0) as [Hfs Hun];
        destruct (_streamRequest s c m e o w0) as [[stream|e'|e'|] w1]
    end; simpl in *; try (rewrite Hfs; reflexivity).
    destruct (pipe_to_file_frame stream outputPath schedule w1 other Hother) as [-> _].
    rewrite Hfs. reflexivity.
  - apply _request_disk.
  - apply _streamRequest_disk.
Qed.

(** Another file on the disk survives a streamed download. *)
Lemma only_the_output_path_is_written_witness :
  let disk := mkWorld (<["notes.txt" := list_byte_of_string "keep"]> ∅) ∅ [] [] in
  fs (snd (streamSpeechToFile (rt := Node.runtime)
             (always (NetReply 10 Examples.audio_reply)) Examples.client Examples.hello
             "out.mp3" (completion 2) disk)) !! "notes.txt"
  = Some (list_byte_of_string "keep").
Proof.
  intros disk.
  destruct (only_the_output_path_is_written (rt := Node.runtime)
              (always (NetReply 10 Examples.audio_reply)) Examples.client Examples.hello
              "out.mp3" (completion 2) "GET" "/tts/voices" no_options disk "notes.txt")
    as (_ & Hstream & _).
  - discriminate.
  - etransitivity; [exact Hstream|reflexivity].
Defined.

(** X13. When the output file cannot be opened, [streamSpeechToFile] still
    sends its request, but under every order of the stream events the disk
    stays as it was, the promise is never resolved and no exception
    escapes; and when the error of the sink is the first event, the
    promise is rejected with that error. *)
Theorem streamSpeechToFile_unwritable {rt : Runtime} self options outputPath latency
    res w schedule :
  sent (snd (streamSpeech (always (NetReply latency res)) self options w)) <> sent w ->
  statusCode res < 400 ->
  outputPath ∈ unwritable w ->
  let run := fun events =>
    streamSpeechToFile (always (NetReply latency res)) self options outputPath events w in
  fs (snd (run schedule)) = fs w /\
  (forall x, fst (run schedule) <> Resolved x) /\
  (forall e, fst (run schedule) <> Uncaught e) /\
  (forall cause, fst (run (SinkError cause :: schedule)) = Rejected (SystemError cause)).
Proof.
  intros Hsent Hstatus Hpath run.
  destruct (streamSpeech_resolved self options latency res w Hsent Hstatus)
    as (w1 & Hstream & Hfs & Hun).
  assert (Hpath1 : outputPath ∈ unwritable w1) by (rewrite Hun; exact Hpath).
  assert (Hrun : forall events, run events = pipe_to_file res outputPath events w1).
  { intros events. subst run. cbv beta.
    unfold streamSpeechToFile, mbind, Async_bind, await. rewrite Hstream. reflexivity. }
  rewrite !Hrun.
  destruct (pipe_to_file_not_opened res outputPath schedule w1 Hpath1) as [Hpipe Hstart].
  pose proof (run_pipe_closed outputPath (fs w1) schedule _ Hstart) as Hclosed.
  rewrite Hpipe. simpl.
  match type of Hclosed with
  | pipe_closed _ ?st => destruct st as [p w2]
  end.
  destruct Hclosed as (_ & _ & Hdisk & Hp). simpl.
  split; [congruence|]. split; [|split].
  - intros x Hx. rewrite Hx in Hp. exact Hp.
  - intros e He. rewrite He in Hp. exact Hp.
  - intros cause. rewrite Hrun.
    destruct (pipe_to_file_not_opened res outputPath (SinkError cause :: schedule) w1 Hpath1)
      as [Hpipe' _].
    rewrite Hpipe'. simpl.
    change (run_pipe outputPath (streamSpeechToFile_listeners outputPath)
              (SinkError cause :: schedule) ?st)
      with (run_pipe outputPath (streamSpeechToFile_listeners outputPath) schedule
              (pipe_step outputPath (streamSpeechToFile_listeners outputPath)
                 (SinkError cause) st)).
    rewrite run_pipe_settled; simpl; [reflexivity|discriminate].
Qed.

(** A directory that does not exist. *)
Lemma streamSpeechToFile_unwritable_witness :
  let world := mkWorld ∅ {["missing/out.mp3"]} [] [] in
  let run := fun events =>
    streamSpeechToFile (rt := Node.runtime) (always (NetReply 10 Examples.audio_reply))
      Examples.client Examples.hello "missing/out.mp3" events world in
  fs (snd (run (completion 2))) = ∅ /\
  fst (run (SinkError "ENOENT" :: completion 2)) = Rejected (SystemError "ENOENT").
Proof.
  intros world run.
  destruct (streamSpeechToFile_unwritable (rt := Node.runtime) Examples.client
              Examples.hello "missing/out.mp3" 10 Examples.audio_reply world (completion 2))
    as (Hdisk & _ & _ & Hreject).
  - vm_compute. discriminate.
  - reflexivity.
  - vm_compute. reflexivity.
  - split; [exact Hdisk|apply Hreject].
Defined.

(** ** What the speech operations put on the wire *)

Section Requests.

Context {rt : Runtime}.
Variable server : Server.

Lemma _request_sends self method endpoint options w :
  sends method (eq (written_body options)) w
    (snd (_request server self method endpoint options w)).
Proof.
  destruct (_request_wire server self method endpoint options w) as [[e He]|[url Hs]].
  - left. rewrite He. reflexivity.
  - right. eexists _, _. split; [|split; [reflexivity|exact Hs]]. reflexivity.
Qed.

Lemma _streamRequest_sends self method endpoint fields w :
  sends method (eq (Some (WJson (JObj fields)))) w
    (snd (_streamRequest server self method endpoint
            (mkOptions None ∅ (Some (BodyObject (JObj fields))) false false) w)).
Proof.
  unfold _streamRequest.
  destruct (URL_new _ _) as [url|]; [|left; reflexivity].
  destruct (String.eqb (protocol url) "https:"); simpl; [|left; reflexivity].
  right. eexists _, _. split; [|split; [reflexivity|]].
  2: apply https_request_sent; apply _streamRequest_on_response_sent.
  reflexivity.
Qed.

Lemma speech_body_members options t :
  text options = Some t ->
  speech_body options
  = JObj ([("text", JStr t)] ++ json_member "voice_id" (voice_id options)
          ++ [("audio_format", default (JStr "mp3") (audio_format options));
              ("temperature", default (JNum (inject_Z 1)) (temperature options));
              ("top_p", default (JNum (8 # 10)) (top_p options))]
          ++ json_member "model" (model options)
          ++ [("language", default (JStr "en") (language options))])%list.
Proof.
  intros Ht. unfold speech_body, object_literal. rewrite Ht.
  destruct (voice_id options), (model options); reflexivity.
Qed.

End Requests.

(** X15. The body of a speech request. Whenever one of [generateSpeech],
    [generateSpeechToFile], [streamSpeech] and [streamSpeechToFile] sends
    anything, it is one [POST] whose body is the JSON text of an object
    with these members, in this order and no others: [text]; [voice_id],
    when one was given; [audio_format], [mp3] unless given; [temperature],
    1 unless given; [top_p], 0.8 unless given; [model], when one was
    given; [language], [en] unless given. The body is the same on the
    buffered transport as on the streaming one. *)
Theorem body_of_the_speech_requests {rt : Runtime} (server : Server) self options
    outputPath schedule w t :
  text options = Some t ->
  let body :=
    JObj ([("text", JStr t)] ++ json_member "voice_id" (voice_id options)
          ++ [("audio_format", default (JStr "mp3") (audio_format options));
              ("temperature", default (JNum (inject_Z 1)) (temperature options));
              ("top_p", default (JNum (8 # 10)) (top_p options))]
          ++ json_member "model" (model options)
          ++ [("language", default (JStr "en") (language options))])%list in
  let posted := sends "POST" (eq (Some (WJson body))) w in
  posted (snd (generateSpeech server self options w)) /\
  posted (snd (generateSpeechToFile server self options outputPath w)) /\
  posted (snd (streamSpeech server self options w)) /\
  posted (snd (streamSpeechToFile server self options outputPath schedule w)).
Proof.
  intros Ht body posted.
  assert (Hbody : speech_body options = body) by (apply speech_body_members; exact Ht).
  assert (Hgen : posted (snd (generateSpeech server self options w))).
  { subst posted. unfold generateSpeech.
    destruct (negb (truthy_string (text options))); [left; reflexivity|].
    rewrite Hbody.
    apply (_request_sends server self "POST" "/tts/speech"
             (mkOptions None ∅ (Some (BodyObject body)) false true) w). }
  assert (Hstream : posted (snd (streamSpeech server self options w))).
  { subst posted. unfold streamSpeech.
    destruct (negb (truthy_string (text options))); [left; reflexivity|].
    rewrite Hbody. apply _streamRequest_sends. }
  split; [exact Hgen|]. split; [|split; [exact Hstream|]].
  - unfold generateSpeechToFile, mbind, Async_bind, await.
    destruct (generateSpeech server self options w) as [[audio|e|e|] w1]; simpl in *;
      try exact Hgen.
    pose proof (writeFileSync_sent outputPath audio w1) as Hw.
    destruct (writeFileSync outputPath audio w1) as [[u|e|e|] w2]; simpl in *;
      subst posted; unfold sends in *; rewrite Hw; exact Hgen.
  - unfold streamSpeechToFile, mbind, Async_bind, await.
    destruct (streamSpeech server self options w) as [[stream|e|e|] w1]; simpl in *;
      try exact Hstream.
    subst posted. unfold sends in *. rewrite pipe_to_file_sent. exact Hstream.
Qed.

(** A text and a voice, nothing else: the defaults fill the rest. *)
Lemma body_of_the_speech_requests_witness :
  let options :=
    mkSpeechOptions (Some "Hi") (Some (JStr "v-1")) None None None None None in
  sends "POST"
    (eq (Some (WJson (JObj [("text", JStr "Hi"); ("voice_id", JStr "v-1");
                            ("audio_format", JStr "mp3");
                            ("temperature", JNum (inject_Z 1));
                            ("top_p", JNum (8 # 10)); ("language", JStr "en")]))))
    Examples.empty_world
    (snd (streamSpeech (rt := Node.runtime) (always NetSilent) Examples.client options
            Examples.empty_world)).
Proof.
  intros options.
  exact (proj1 (proj2 (proj2
           (body_of_the_speech_requests (rt := Node.runtime) (always NetSilent)
              Examples.client options "out.mp3" [] Examples.empty_world "Hi" eq_refl)))).
Defined.

(** * Properties of the command line *)

(** ** The arguments *)

Section Arguments_of_the_script.

Context {rt : Runtime}.
Variable VOICES_PATH : string.

Lemma value_flag_cases arg assign :
  value_flag arg = Some assign ->
  (arg = "--text" /\
   assign = fun v o => mkOpts (Some v) (opts_voice o) (opts_output o) (opts_stream o)) \/
  (arg = "--voice" /\
   assign = fun v o => mkOpts (opts_text o) (Some v) (opts_output o) (opts_stream o)) \/
  (arg = "--output" /\
   assign = fun v o => mkOpts (opts_text o) (opts_voice o) v (opts_stream o)).
Proof.
  unfold value_flag. intros H.
  destruct (String.eqb arg "--text") eqn:E1.
  { apply String.eqb_eq in E1. inversion H. auto. }
  destruct (String.eqb arg "--voice") eqn:E2.
  { apply String.eqb_eq in E2. inversion H. auto. }
  destruct (String.eqb arg "--output") eqn:E3; [|discriminate].
  apply String.eqb_eq in E3. inversion H. auto.
Qed.

Lemma adjacent_weaken flag value before args :
  adjacent flag value before -> adjacent flag value (before ++ args).
Proof.
  intros (l1 & l2 & ->). exists l1, (l2 ++ args)%list.
  rewrite <- app_assoc. reflexivity.
Qed.

Lemma taken_from_assign arg assign next before rest opts :
  value_flag arg = Some assign ->
  next <> "" ->
  taken_from (before ++ arg :: next :: rest) opts ->
  taken_from (before ++ arg :: next :: rest) (assign next opts).
Proof.
  intros Hflag Hnext (Ht & Hv & Ho & Hout & Hs).
  assert (Hadj : adjacent arg next (before ++ arg :: next :: rest))
    by (exists before, rest; reflexivity).
  destruct (value_flag_cases arg assign Hflag) as [[-> ->]|[[-> ->]|[-> ->]]];
    unfold taken_from; simpl.
  - split; [|auto]. intros t Heq. inversion Heq; subst. auto.
  - split; [exact Ht|]. split; [|auto]. intros v Heq. inversion Heq; subst. auto.
  - split; [exact Ht|]. split; [exact Hv|]. auto.
Qed.

Lemma parseArgs_loop_taken n :
  forall args, (length args <= n)%nat ->
  forall before opts s opts' s',
    taken_from (before ++ args) opts ->
    parseArgs_loop VOICES_PATH args opts s = (Continue opts', s') ->
    s' = s /\ taken_from (before ++ args) opts'.
Proof.
  induction n as [n IH] using lt_wf_ind.
  intros [|arg rest] Hlen before opts s opts' s' Hinv Hrun; simpl in Hrun.
  { inversion Hrun; subst. auto. }
  simpl in Hlen.
  assert (Hrest : forall o,
             taken_from (before ++ arg :: rest) o ->
             parseArgs_loop VOICES_PATH rest o s = (Continue opts', s') ->
             s' = s /\ taken_from (before ++ arg :: rest) opts').
  { intros o Ho Hr.
    replace (before ++ arg :: rest)%list with ((before ++ [arg]) ++ rest)%list in *
      by (rewrite <- app_assoc; reflexivity).
    apply (IH (length rest) ltac:(lia) rest ltac:(lia) _ o s); assumption. }
  destruct (value_flag arg) as [assign|] eqn:Hflag.
  - destruct rest as [|next rest']; [inversion Hrun; subst; auto|].
    destruct (String.eqb next "") eqn:Hnext; simpl in Hrun; [apply (Hrest opts); assumption|].
    apply String.eqb_neq in Hnext.
    pose proof (taken_from_assign arg assign next before rest' opts Hflag Hnext Hinv) as Ha.
    replace (before ++ arg :: next :: rest')%list
      with ((before ++ [arg; next]) ++ rest')%list in *
      by (rewrite <- app_assoc; reflexivity).
    simpl in Hlen.
    apply (IH (length rest') ltac:(lia) rest' ltac:(lia) _ (assign next opts) s); assumption.
  - destruct (String.eqb arg "--stream") eqn:Hstream.
    + apply String.eqb_eq in Hstream. subst arg.
      apply (Hrest (mkOpts (opts_text opts) (opts_voice opts) (opts_output opts) true));
        [|exact Hrun].
      destruct Hinv as (Ht & Hv & Ho & Hout & Hs).
      unfold taken_from; simpl.
      split; [exact Ht|]. split; [exact Hv|]. split; [exact Ho|]. split; [exact Hout|].
      intros _. apply in_or_app. right. left. reflexivity.
    + destruct (String.eqb arg "--help").
      * unfold and_then in Hrun.
        destruct (listVoiceNames VOICES_PATH s) as [[u|e|c] s1]; discriminate.
      * apply (Hrest opts); assumption.
Qed.

Lemma parseArgs_loop_no_help n :
  forall args, (length args <= n)%nat ->
  ~ In "--help" args ->
  forall opts s, exists opts', parseArgs_loop VOICES_PATH args opts s = (Continue opts', s).
Proof.
  induction n as [n IH] using lt_wf_ind.
  intros [|arg rest] Hlen Hhelp opts s; simpl; [eauto|].
  simpl in Hlen.
  assert (Hrest : forall o,
             exists opts', parseArgs_loop VOICES_PATH rest o s = (Continue opts', s)).
  { intros o. apply (IH (length rest) ltac:(lia) rest ltac:(lia)).
    intros H. apply Hhelp. right. exact H. }
  destruct (value_flag arg) as [assign|].
  - destruct rest as [|next rest']; [eauto|].
    destruct (negb (String.eqb next "")); [|apply Hrest].
    simpl in Hlen. apply (IH (length rest') ltac:(lia) rest' ltac:(lia)).
    intros H. apply Hhelp. right. right. exact H.
  - destruct (String.eqb arg "--stream"); [apply Hrest|].
    destruct (String.eqb arg "--help") eqn:Hh; [|apply Hrest].
    apply String.eqb_eq in Hh. exfalso. apply Hhelp. left. exact Hh.
Qed.

Lemma taken_from_defaults args : taken_from args (mkOpts None None "output.mp3" false).
Proof.
  unfold taken_from; simpl. repeat split; try discriminate. left. reflexivity.
Qed.

Lemma parseArgs_taken args s opts s' :
  parseArgs VOICES_PATH args s = (Continue opts, s') -> s' = s /\ taken_from args opts.
Proof.
  intros Hrun.
  apply (parseArgs_loop_taken (length args) args (le_n _) [] _ s opts s'
           (taken_from_defaults _) Hrun).
Qed.

Lemma parseArgs_no_help args s :
  ~ In "--help" args -> exists opts, parseArgs VOICES_PATH args s = (Continue opts, s).
Proof.
  intros Hhelp. apply (parseArgs_loop_no_help (length args) args (le_n _) Hhelp).
Qed.

Lemma adjacent_In flag value args : adjacent flag value args -> In flag args.
Proof.
  intros (l1 & l2 & ->). apply in_or_app. right. left. reflexivity.
Qed.

End Arguments_of_the_script.

(** X16. What [parseArgs] returns comes from the command line and nothing
    else. Without [--help] among the arguments it returns options and
    touches nothing. Whenever it returns options, the state is as it was;
    the text and the voice, when set, are not empty and stand right after
    a [--text] and a [--voice]; the output path is not empty and is either
    [output.mp3] or what stands after an [--output]; and streaming is on
    only if [--stream] is among the arguments. *)
Theorem parseArgs_options {rt : Runtime} VOICES_PATH args s :
  (~ In "--help" args -> exists opts, parseArgs VOICES_PATH args s = (Continue opts, s)) /\
  (forall opts s',
      parseArgs VOICES_PATH args s = (Continue opts, s') ->
      s' = s /\ taken_from args opts).
Proof.
  split.
  - apply parseArgs_no_help.
  - intros opts s'. apply parseArgs_taken.
Qed.

(** A text and [--stream]. *)
Lemma parseArgs_options_witness :
  exists opts,
    parseArgs (rt := Node.runtime) Shell.VOICES_PATH ["--text"; "Hi"; "--stream"] Shell.start
      = (Continue opts, Shell.start) /\
    taken_from ["--text"; "Hi"; "--stream"] opts.
Proof.
  destruct (parseArgs_options (rt := Node.runtime) Shell.VOICES_PATH
              ["--text"; "Hi"; "--stream"] Shell.start) as [Hsome Hall].
  destruct Hsome as [opts Hopts].
  - intros [H|[H|[H|[]]]]; discriminate.
  - exists opts. split; [exact Hopts|]. exact (proj2 (Hall opts Shell.start Hopts)).
Defined.

(** X17. The command lines of the usage text are read back as they were
    meant: with the flags in the order of the help and values that are not
    empty, [parseArgs] returns exactly these values, also when a value
    looks like a flag, [--help] included. *)
Theorem parseArgs_command_line {rt : Runtime} VOICES_PATH opts s :
  opts_text opts <> Some "" ->
  opts_voice opts <> Some "" ->
  opts_output opts <> "" ->
  parseArgs VOICES_PATH (command_line opts) s = (Continue opts, s).
Proof.
  intros Ht Hv Ho. destruct opts as [t v o st]. simpl in *.
  assert (Hne : forall x : string, x <> "" -> String.eqb x "" = false)
    by (intros x Hx; apply String.eqb_neq; exact Hx).
  assert (Ho' : String.eqb o "" = false) by (apply Hne; exact Ho).
  unfold parseArgs, command_line. simpl.
  destruct t as [t|], v as [v|]; simpl.
  - rewrite (Hne t) by congruence. simpl. rewrite (Hne v) by congruence. simpl.
    rewrite Ho'. simpl. destruct st; reflexivity.
  - rewrite (Hne t) by congruence. simpl. rewrite Ho'. simpl. destruct st; reflexivity.
  - rewrite (Hne v) by congruence. simpl. rewrite Ho'. simpl. destruct st; reflexivity.
  - rewrite Ho'. simpl. destruct st; reflexivity.
Qed.

(** The text [--help] is a text. *)
Lemma parseArgs_command_line_witness :
  parseArgs (rt := Node.runtime) Shell.VOICES_PATH
    ["--text"; "--help"; "--output"; "help.mp3"; "--stream"] Shell.start
  = (Continue (mkOpts (Some "--help") None "help.mp3" true), Shell.start).
Proof.
  apply (parseArgs_command_line (rt := Node.runtime) Shell.VOICES_PATH
           (mkOpts (Some "--help") None "help.mp3" true) Shell.start); discriminate.
Defined.

(** ** The run of the script *)

Section Script_facts.

Context {rt : Runtime}.
Variable server : Server.
Variable VOICES_PATH : string.
Variable toLowerCase : string -> string.
Variable exotic_property : json -> string -> Property.

Lemma same_outside_refl s : same_outside s s.
Proof. unfold same_outside. auto. Qed.

Lemma loadVoiceData_outside s : same_outside s (snd (loadVoiceData VOICES_PATH s)).
Proof.
  unfold loadVoiceData, and_then, readFileSync, JSON_parse_logged.
  destruct (negb (truthy (Some (cachedVoiceData s)))); [|apply same_outside_refl].
  destruct (fs (world s) !! VOICES_PATH); [|apply same_outside_refl].
  destruct (JSON_parse _); unfold same_outside; simpl; auto.
Qed.

Lemma getVoiceMap_outside s : same_outside s (snd (getVoiceMap VOICES_PATH s)).
Proof.
  unfold getVoiceMap, and_then.
  pose proof (loadVoiceData_outside s) as H.
  destruct (loadVoiceData VOICES_PATH s) as [[data|e|c] s1]; simpl in *; try exact H.
  destruct (get data "voices"); exact H.
Qed.

Lemma listVoiceNames_outside s : same_outside s (snd (listVoiceNames VOICES_PATH s)).
Proof.
  unfold listVoiceNames, and_then.
  pose proof (getVoiceMap_outside s) as H.
  destruct (getVoiceMap VOICES_PATH s) as [[m|e|c] s1]; exact H.
Qed.

Lemma parseArgs_loop_outside args :
  forall opts s, same_outside s (snd (parseArgs_loop VOICES_PATH args opts s)).
Proof.
  induction args as [args IH] using (induction_ltof1 _ (@length string)).
  unfold ltof in IH.
  destruct args as [|arg rest]; intros opts s; simpl; [apply same_outside_refl|].
  destruct (value_flag arg) as [assign|].
  - destruct rest as [|next rest']; [apply same_outside_refl|].
    destruct (negb (String.eqb next "")); apply IH; simpl; lia.
  - destruct (String.eqb arg "--stream"); [apply IH; simpl; lia|].
    destruct (String.eqb arg "--help"); [|apply IH; simpl; lia].
    unfold and_then.
    pose proof (listVoiceNames_outside s) as H.
    destruct (listVoiceNames VOICES_PATH s) as [[u|e|c] s1]; exact H.
Qed.

(** The table of a fresh process whose file holds an object with an
    object of voices. *)
Lemma getVoiceMap_fresh s content data table :
  cachedVoiceData s = JNull ->
  fs (world s) !! VOICES_PATH = Some content ->
  JSON_parse (Buffer_toString content) = Some data ->
  get data "voices" = Normal (Some (JObj table)) ->
  getVoiceMap VOICES_PATH s =
    (Continue (JObj table),
     mkScript data
       (mkWorld (fs (world s)) (unwritable (world s)) (sent (world s))
          (parsed (world s) ++ [Buffer_toString content]))).
Proof.
  intros Hcache Hfile Hparse Hvoices.
  unfold getVoiceMap, and_then, loadVoiceData, and_then, readFileSync, JSON_parse_logged.
  rewrite Hcache. simpl. unfold Buffer in *. rewrite Hfile, Hparse, Hvoices. reflexivity.
Qed.

Lemma constructor_with_key k :
  k <> "" ->
  constructor (Some k) (mkClientOptions None None) = Normal (mkVoiceAI k BASE_URL 60000).
Proof.
  intros Hk. unfold constructor. simpl.
  apply String.eqb_neq in Hk. rewrite Hk. reflexivity.
Qed.

(** [main], once the arguments are read and the table is loaded. *)
Lemma main_with_table args k schedule s opts content data table :
  parseArgs VOICES_PATH args s = (Continue opts, s) ->
  truthy_string (opts_text opts) = true ->
  k <> "" ->
  cachedVoiceData s = JNull ->
  fs (world s) !! VOICES_PATH = Some content ->
  JSON_parse (Buffer_toString content) = Some data ->
  get data "voices" = Normal (Some (JObj table)) ->
  let s2 :=
    mkScript data
      (mkWorld (fs (world s)) (unwritable (world s)) (sent (world s))
         (parsed (world s) ++ [Buffer_toString content])) in
  let voiceName :=
    if truthy_string (opts_voice opts) then toLowerCase <$> opts_voice opts else None in
  let voiceEntry :=
    if truthy_string voiceName
    then property exotic_property (JObj table) (default "" voiceName) else Undefined in
  let client := mkVoiceAI k BASE_URL 60000 in
  main server VOICES_PATH toLowerCase exotic_property args (Some k) schedule s =
    if truthy_string voiceName && negb (truthy_property voiceEntry) then
      (Exit 1, snd (listVoiceNames VOICES_PATH s2))
    else
      let options :=
        speech_options opts
          (if truthy_property voiceEntry then voice_id_of voiceEntry else None) in
      let r :=
        (if opts_stream opts
         then streamSpeechToFile server client options (opts_output opts) schedule
         else generateSpeechToFile server client options (opts_output opts)) (world s2) in
      (ending (fst r), mkScript data (snd r)).
Proof.
  intros Hparse Htext Hk Hcache Hfile Hdata Hvoices s2 voiceName voiceEntry client.
  assert (Hkey : truthy_string (Some k) = true).
  { simpl. apply String.eqb_neq in Hk. rewrite Hk. reflexivity. }
  unfold main, main_with_key. rewrite Hparse, Htext, Hkey. cbn [negb].
  rewrite (constructor_with_key k Hk).
  rewrite (getVoiceMap_fresh s content data table Hcache Hfile Hdata Hvoices).
  cbv zeta. fold s2. fold voiceName. fold voiceEntry. fold client.
  destruct (truthy_string voiceName && negb (truthy_property voiceEntry)); [reflexivity|].
  match goal with
  | |- (let '(o, w') := ?call in _) = _ => destruct call as [o w']
  end.
  reflexivity.
Qed.

End Script_facts.

(** ** The operations the script awaits, when they resolve *)

Section Resolved_operations.

Context {rt : Runtime}.
Variable server : Server.

Lemma _request_binary_resolved self method endpoint options w v w' :
  o_binary options = true ->
  _request server self method endpoint options w = (Resolved v, w') ->
  exists ro latency res,
    server ro (written_body options) = NetReply latency res /\
    statusCode res < 400 /\
    v = VBuffer (concat (chunks res)) /\
    w' = log_request ro (written_body options) w.
Proof.
  intros Hbin Hrun.
  destruct (_request_cases server self method endpoint options w)
    as [[x [Hx _]]|(url & url' & ro & _ & _ & _ & _ & _ & _ & _ & Ht & Heq)].
  - rewrite Hx in Hrun. discriminate.
  - rewrite Heq in Hrun. unfold https_request in Hrun.
    destruct (server ro (written_body options)) as [cause| |latency res] eqn:Hs.
    + discriminate.
    + destruct (timer_fires ro None); [rewrite timeout_outcome_eq in Hrun|]; discriminate.
    + destruct (timer_fires ro (Some latency));
        [rewrite timeout_outcome_eq in Hrun; discriminate|].
      exists ro, latency, res. split; [exact Hs|].
      unfold _request_on_end, JSON_parse_logged in Hrun.
      destruct (Z.leb 400 (statusCode res)) eqn:Hst.
      * exfalso. simpl in Hrun.
        destruct (reject_for_status_cases (statusCode res)
                    (errorData_of (JSON_parse (Buffer_toString (concat (chunks res))))
                       (Buffer_toString (concat (chunks res)))))
          as [(e & He & _)|(x & Hx)]; [rewrite He in Hrun|rewrite Hx in Hrun];
          discriminate.
      * apply Z.leb_gt in Hst. rewrite Hbin, orb_true_r in Hrun.
        inversion Hrun. auto.
Qed.

Lemma generateSpeechToFile_resolved self options outputPath w x w' :
  generateSpeechToFile server self options outputPath w = (Resolved x, w') ->
  exists ro wr latency res,
    server ro wr = NetReply latency res /\ statusCode res < 400 /\
    ro_headers ro !! "Authorization" = Some ("Bearer " ++ apiKey self) /\
    wr = Some (WJson (speech_body options)) /\
    sent w' = (sent w ++ [(ro, wr)])%list /\
    fs w' = <[outputPath := concat (chunks res)]> (fs w).
Proof.
  unfold generateSpeechToFile, mbind, Async_bind, await, generateSpeech.
  destruct (negb (truthy_string (text options))); [simpl; discriminate|].
  set (request_options :=
         mkOptions None ∅ (Some (BodyObject (speech_body options))) false true).
  destruct (_request server self "POST" "/tts/speech" request_options w)
    as [[v|e|e|] w1] eqn:Hreq; try discriminate.
  intros Hrun.
  destruct (_request_binary_resolved self "POST" "/tts/speech" request_options w v w1
              eq_refl Hreq) as (ro & latency & res & Hs & Hst & -> & Hw1).
  assert (Hsent : sent w1 = (sent w ++ [(ro, written_body request_options)])%list)
    by (rewrite Hw1; reflexivity).
  destruct (_request_sent_inv server self "POST" "/tts/speech" request_options w ro
              (written_body request_options)) as (Hh & _).
  { rewrite Hreq. exact Hsent. }
  exists ro, (written_body request_options), latency, res.
  split; [exact Hs|]. split; [exact Hst|]. split; [|split; [reflexivity|]].
  - rewrite Hh. simpl. rewrite lookup_insert_ne by discriminate.
    rewrite (union_lookup_default _ _ "Authorization" ("Bearer " ++ apiKey self))
      by apply lookup_insert_eq.
    reflexivity.
  - unfold writeFileSync in Hrun.
    destruct (bool_decide (outputPath ∈ unwritable w1)); [discriminate|].
    inversion Hrun; subst. simpl. split; [exact Hsent|reflexivity].
Qed.

Lemma _streamRequest_resolved self method endpoint fields w res w' :
  let j := JObj fields in
  _streamRequest server self method endpoint
    (mkOptions None ∅ (Some (BodyObject j)) false false) w = (Resolved res, w') ->
  exists ro latency,
    server ro (Some (WJson j)) = NetReply latency res /\ statusCode res < 400 /\
    ro_headers ro !! "Authorization" = Some ("Bearer " ++ apiKey self) /\
    w' = log_request ro (Some (WJson j)) w.
Proof.
  intros j. subst j.
  assert (Hon : forall res' w0,
             _streamRequest_on_response res' w0 = (Resolved res, w') ->
             res' = res /\ statusCode res < 400 /\ w' = w0).
  { intros res' w0 Hres. destruct (Z_lt_ge_dec (statusCode res') 400) as [Hlow|Hhigh].
    - unfold _streamRequest_on_response in Hres.
      assert (Hb : Z.leb 400 (statusCode res') = false) by (apply Z.leb_gt; exact Hlow).
      rewrite Hb in Hres. inversion Hres; subst. auto.
    - destruct (_streamRequest_on_response_error res' w0 ltac:(lia)) as (e & He & _).
      rewrite He in Hres. discriminate. }
  unfold _streamRequest.
  destruct (URL_new _ _) as [url|]; [|discriminate].
  destruct (String.eqb (protocol url) "https:"); simpl; [|discriminate].
  unfold https_request. intros Hrun.
  match type of Hrun with
  | context [server ?ro ?wr] =>
      destruct (server ro wr) as [cause| |latency res'] eqn:Hs; [discriminate| |];
      [|exists ro, latency]
  end.
  { destruct (timer_fires _ None); discriminate. }
  assert (Hres : exists w0,
             _streamRequest_on_response res' w0 = (Resolved res, w') /\
             w0 = log_request
                    {| ro_method := method;
                       ro_hostname := hostname url;
                       ro_path := pathname url;
                       ro_port := default_port url;
                       ro_headers :=
                         ∅ ∪ <["Authorization" := ("Bearer " ++ apiKey self)%string]>
                               (<["Content-Type" := "application/json"]>
                                  (<["User-Agent" := "VoiceAI-SDK/1.1.4"]> ∅));
                       ro_timeout := None |} (Some (WJson (JObj fields))) w).
  { destruct (timer_fires _ (Some latency)); eexists; split; try exact Hrun; reflexivity. }
  destruct Hres as (w0 & Hres & Hw0).
  destruct (Hon _ _ Hres) as (-> & Hst & ->).
  split; [exact Hs|]. split; [exact Hst|]. split; [|exact Hw0].
  simpl.
  rewrite (union_lookup_default _ _ "Authorization" ("Bearer " ++ apiKey self))
    by apply lookup_insert_eq.
  reflexivity.
Qed.

Lemma streamSpeechToFile_resolved self options outputPath schedule w x w' :
  streamSpeechToFile server self options outputPath schedule w = (Resolved x, w') ->
  exists ro wr latency res,
    server ro wr = NetReply latency res /\ statusCode res < 400 /\
    ro_headers ro !! "Authorization" = Some ("Bearer " ++ apiKey self) /\
    wr = Some (WJson (speech_body options)) /\
    sent w' = (sent w ++ [(ro, wr)])%list /\
    fs w' !! outputPath = Some (concat (chunks res)) /\
    (forall other, other <> outputPath -> fs w' !! other = fs w !! other).
Proof.
  unfold streamSpeechToFile, mbind, Async_bind, await, streamSpeech.
  destruct (negb (truthy_string (text options))); [simpl; discriminate|].
  destruct (_streamRequest server self "POST" "/tts/speech/stream" _ w)
    as [[res|e|e|] w1] eqn:Hreq; try discriminate.
  intros Hrun.
  unfold speech_body, object_literal in Hreq.
  destruct (_streamRequest_resolved self _ _ _ w res w1 Hreq)
    as (ro & latency & Hs & Hst & Hauth & Hw1).
  exists ro, (Some (WJson (speech_body options))), latency, res.
  split; [exact Hs|]. split; [exact Hst|]. split; [exact Hauth|]. split; [reflexivity|].
  assert (Hfs : fs w1 = fs w) by (rewrite Hw1; reflexivity).
  assert (Hsent : sent w' = sent w1).
  { replace w' with (snd (pipe_to_file res outputPath schedule w1))
      by (rewrite Hrun; reflexivity).
    apply pipe_to_file_sent. }
  split; [rewrite Hsent, Hw1; reflexivity|].
  split.
  - destruct (decide (outputPath ∈ unwritable w1)) as [Hin|Hout].
    + exfalso.
      destruct (pipe_to_file_not_opened res outputPath schedule w1 Hin) as [Hpipe Hstart].
      pose proof (run_pipe_closed outputPath (fs w1) schedule _ Hstart) as Hclosed.
      rewrite Hpipe in Hrun.
      match type of Hclosed with
      | pipe_closed _ ?st => destruct st as [p w2]
      end.
      simpl in Hrun. inversion Hrun as [[Hp Hw]].
      destruct Hclosed as (_ & _ & _ & Hpr). rewrite Hp in Hpr. exact Hpr.
    + destruct (pipe_to_file_opened res outputPath schedule w1 Hout) as [Hpipe Hstart].
      pose proof (run_pipe_safe outputPath (concat (chunks res)) schedule _ Hstart)
        as Hsafe.
      rewrite Hpipe in Hrun.
      match type of Hsafe with
      | pipe_safe _ _ ?st => destruct st as [p w2]
      end.
      simpl in Hrun. inversion Hrun as [[Hp Hw]]. subst w2.
      destruct Hsafe as (_ & Hb & [file Hf] & Hfin & Hend & Hpr).
      rewrite Hp in Hpr. destruct Hpr as [_ Hdone].
      destruct (Hfin Hdone) as [Hq He]. rewrite Hq, (Hend He) in Hb.
      rewrite (on_disk_lookup outputPath w' file Hf) in Hb. simpl in Hb.
      rewrite app_nil_r in Hb. rewrite <- Hb. exact Hf.
  - intros other Hother.
    destruct (pipe_to_file_frame res outputPath schedule w1 other Hother) as [Hframe _].
    rewrite Hrun in Hframe. simpl in Hframe. rewrite Hframe, Hfs. reflexivity.
Qed.

End Resolved_operations.

Section Script_exits.

Context {rt : Runtime}.
Variable VOICES_PATH : string.

Lemma getVoiceMap_no_exit s c s' : getVoiceMap VOICES_PATH s <> (Exits c, s').
Proof.
  unfold getVoiceMap, and_then, loadVoiceData, and_then, readFileSync, JSON_parse_logged.
  destruct (negb (truthy (Some (cachedVoiceData s)))).
  - destruct (fs (world s) !! VOICES_PATH); [|discriminate].
    destruct (JSON_parse _) as [data|]; [|discriminate].
    destruct (get data "voices"); discriminate.
  - destruct (get (cachedVoiceData s) "voices"); discriminate.
Qed.

Lemma parseArgs_loop_exit args :
  forall opts s c s',
    parseArgs_loop VOICES_PATH args opts s = (Exits c, s') -> c = 0 /\ In "--help" args.
Proof.
  induction args as [args IH] using (induction_ltof1 _ (@length string)).
  unfold ltof in IH.
  destruct args as [|arg rest]; intros opts s c s' Hrun; simpl in Hrun; [discriminate|].
  assert (Hrest : forall o,
             parseArgs_loop VOICES_PATH rest o s = (Exits c, s') ->
             c = 0 /\ In "--help" (arg :: rest)).
  { intros o Ho. destruct (IH rest ltac:(simpl; lia) o s c s' Ho) as [Hc Hin].
    split; [exact Hc|right; exact Hin]. }
  destruct (value_flag arg) as [assign|].
  - destruct rest as [|next rest']; [discriminate|].
    destruct (negb (String.eqb next "")); [|apply (Hrest opts); exact Hrun].
    destruct (IH rest' ltac:(simpl; lia) _ s c s' Hrun) as [Hc Hin].
    split; [exact Hc|right; right; exact Hin].
  - destruct (String.eqb arg "--stream"); [eapply Hrest; exact Hrun|].
    destruct (String.eqb arg "--help") eqn:Hh; [|apply (Hrest opts); exact Hrun].
    apply String.eqb_eq in Hh. unfold and_then, listVoiceNames, and_then in Hrun.
    destruct (getVoiceMap VOICES_PATH s) as [[m|e|c0] s1] eqn:Hmap.
    + inversion Hrun. split; [reflexivity|left; exact Hh].
    + discriminate.
    + exfalso. exact (getVoiceMap_no_exit _ _ _ Hmap).
Qed.

Lemma not_inherited name :
  ~ In name Object_prototype -> existsb (String.eqb name) Object_prototype = false.
Proof.
  intros Hn. destruct (existsb (String.eqb name) Object_prototype) eqn:He; [|reflexivity].
  exfalso. apply existsb_exists in He. destruct He as (x & Hx & Heq).
  apply String.eqb_eq in Heq. subst x. exact (Hn Hx).
Qed.

Lemma inherited name :
  In name Object_prototype -> existsb (String.eqb name) Object_prototype = true.
Proof.
  intros Hn. apply existsb_exists. exists name. split; [exact Hn|apply String.eqb_refl].
Qed.

Lemma truthy_string_Some (key : option string) :
  truthy_string key = true -> exists k, key = Some k /\ k <> "".
Proof.
  destruct key as [k|]; simpl; [|discriminate].
  intros H. exists k. split; [reflexivity|].
  apply String.eqb_neq. destruct (String.eqb k ""); [discriminate|reflexivity].
Qed.

End Script_exits.

(** X18. Without a text or without a key the script gives up at once:
    when no [--help] is among the arguments and either no value that is
    not empty follows a [--text], or the environment has no key or an
    empty one, [main] ends in [process.exit(1)] and has read, sent and
    written nothing. *)
Theorem main_needs_text_and_key {rt : Runtime} (server : Server) VOICES_PATH toLowerCase
    exotic_property args key schedule s :
  ~ In "--help" args ->
  (forall t, t <> "" -> ~ adjacent "--text" t args) \/ truthy_string key = false ->
  main server VOICES_PATH toLowerCase exotic_property args key schedule s = (Exit 1, s).
Proof.
  intros Hhelp Hmissing.
  destruct (parseArgs_no_help VOICES_PATH args s Hhelp) as [opts Hparse].
  destruct (parseArgs_taken VOICES_PATH args s opts s Hparse) as [_ (Ht & _)].
  unfold main. rewrite Hparse.
  destruct (opts_text opts) as [t|] eqn:Htext; [|reflexivity].
  destruct (Ht t eq_refl) as [Hne Hadj].
  destruct Hmissing as [Hno|Hkey]; [exfalso; exact (Hno t Hne Hadj)|].
  destruct (negb (truthy_string (Some t))); [reflexivity|].
  rewrite Hkey. reflexivity.
Qed.

(** A voice, but no text. *)
Lemma main_needs_text_and_key_witness :
  main (rt := Node.runtime) (always (NetReply 10 Examples.audio_reply)) Shell.VOICES_PATH
    Shell.toLowerCase Shell.exotic_property ["--voice"; "ellie"] (Some "secret")
    (completion 2) Shell.start
  = (Exit 1, Shell.start).
Proof.
  apply main_needs_text_and_key.
  - intros [H|[H|[]]]; discriminate.
  - left. intros t _ (before & after & H).
    destruct before as [|a [|b [|c before]]]; simpl in H; discriminate.
Defined.

(** X19. A voice the table does not know stops the script before
    anything is sent: in a fresh process whose voices file holds an object
    with an object of voices, when the lower-cased name asked for is
    neither a key of that object nor a name every object inherits, [main]
    ends in [process.exit(1)], and the disk and the wire are as they
    were. *)
Theorem main_unknown_voice {rt : Runtime} (server : Server) VOICES_PATH toLowerCase
    exotic_property args key schedule s opts content data table v :
  parseArgs VOICES_PATH args s = (Continue opts, s) ->
  cachedVoiceData s = JNull ->
  fs (world s) !! VOICES_PATH = Some content ->
  JSON_parse (Buffer_toString content) = Some data ->
  get data "voices" = Normal (Some (JObj table)) ->
  opts_voice opts = Some v ->
  toLowerCase v <> "" ->
  lookup_last (toLowerCase v) table = None ->
  ~ In (toLowerCase v) Object_prototype ->
  let run := main server VOICES_PATH toLowerCase exotic_property args key schedule s in
  fst run = Exit 1 /\ same_outside s (snd run).
Proof.
  intros Hparse Hcache Hfile Hdata Hvoices Hv Hlow Hown Hproto run.
  destruct (parseArgs_taken VOICES_PATH args s opts s Hparse) as [_ (_ & Hvoice & _)].
  destruct (Hvoice v Hv) as [Hvne _].
  destruct (truthy_string (opts_text opts)) eqn:Htext.
  2:{ subst run. unfold main. rewrite Hparse, Htext. simpl.
      split; [reflexivity|apply same_outside_refl]. }
  destruct (truthy_string key) eqn:Hkey.
  2:{ subst run. unfold main. rewrite Hparse, Htext, Hkey. simpl.
      split; [reflexivity|apply same_outside_refl]. }
  destruct (truthy_string_Some key Hkey) as (k & -> & Hk).
  subst run.
  rewrite (main_with_table server VOICES_PATH toLowerCase exotic_property args k schedule
             s opts content data table Hparse Htext Hk Hcache Hfile Hdata Hvoices).
  cbv zeta. rewrite Hv.
  assert (Hvt : truthy_string (Some v) = true).
  { simpl. apply String.eqb_neq in Hvne. rewrite Hvne. reflexivity. }
  rewrite Hvt. simpl fmap.
  assert (Hlt : truthy_string (Some (toLowerCase v)) = true).
  { simpl. apply String.eqb_neq in Hlow. rewrite Hlow. reflexivity. }
  rewrite Hlt. unfold property. simpl default. rewrite Hown, (not_inherited _ Hproto).
  simpl. split; [reflexivity|].
  match goal with
  | |- same_outside s (snd (listVoiceNames _ ?s2)) =>
      destruct (listVoiceNames_outside VOICES_PATH s2) as (H1 & H2 & H3)
  end.
  unfold same_outside. rewrite H1, H2, H3. simpl. auto.
Qed.

(** The voice [Bob] is not in the table. *)
Lemma main_unknown_voice_witness :
  let run := main (rt := Node.runtime) (always (NetReply 10 Examples.audio_reply))
               Shell.VOICES_PATH Shell.toLowerCase Shell.exotic_property
               ["--text"; "Hi"; "--voice"; "Bob"] (Some "secret") (completion 2)
               Shell.start in
  fst run = Exit 1 /\ same_outside Shell.start (snd run).
Proof.
  apply (main_unknown_voice (rt := Node.runtime) (always (NetReply 10 Examples.audio_reply))
           Shell.VOICES_PATH Shell.toLowerCase Shell.exotic_property
           ["--text"; "Hi"; "--voice"; "Bob"] (Some "secret") (completion 2) Shell.start
           (mkOpts (Some "Hi") (Some "Bob") "output.mp3" false)
           (list_byte_of_string Shell.voices_json)
           (JObj [("voices", JObj [("ellie", JObj [("voice_id", JStr "v-1")])])])
           [("ellie", JObj [("voice_id", JStr "v-1")])] "Bob").
  - reflexivity.
  - reflexivity.
  - reflexivity.
  - vm_compute. reflexivity.
  - reflexivity.
  - reflexivity.
  - vm_compute. discriminate.
  - reflexivity.
  - vm_compute. intros H.
    repeat (destruct H as [H|H]; [discriminate|]). exact H.
Defined.

(** X20. The script reports success only for a file that is complete:
    when [main] returns, the arguments were read as options, the
    environment had a key, exactly one request was sent, with that key as
    its bearer credential, the server answered it with a status below 400,
    the output file holds exactly the bytes of that answer, and no other
    file was touched. This holds with and without [--stream], and under
    every order of the stream events. *)
Theorem main_done {rt : Runtime} (server : Server) VOICES_PATH toLowerCase exotic_property
    args key schedule s s' :
  main server VOICES_PATH toLowerCase exotic_property args key schedule s = (Done, s') ->
  exists opts k ro wr latency res,
    parseArgs VOICES_PATH args s = (Continue opts, s) /\
    key = Some k /\
    server ro wr = NetReply latency res /\ statusCode res < 400 /\
    ro_headers ro !! "Authorization" = Some ("Bearer " ++ k) /\
    sent (world s') = (sent (world s) ++ [(ro, wr)])%list /\
    fs (world s') !! opts_output opts = Some (concat (chunks res)) /\
    (forall other,
        other <> opts_output opts -> fs (world s') !! other = fs (world s) !! other).
Proof.
  intros Hrun. unfold main, main_with_key in Hrun.
  destruct (parseArgs VOICES_PATH args s) as [[opts|e|c] s1] eqn:Hparse; try discriminate.
  destruct (parseArgs_taken VOICES_PATH args s opts s1 Hparse) as [-> _].
  destruct (negb (truthy_string (opts_text opts))); [discriminate|].
  destruct (truthy_string key) eqn:Hkey; simpl in Hrun; [|discriminate].
  destruct (truthy_string_Some key Hkey) as (k & -> & Hk).
  rewrite (constructor_with_key k Hk) in Hrun.
  pose proof (getVoiceMap_outside VOICES_PATH s) as Hout.
  destruct (getVoiceMap VOICES_PATH s) as [[voiceMap|e|c] s2]; try discriminate.
  destruct Hout as (Hfs & _ & Hsent). simpl in Hfs, Hsent.
  cbv zeta in Hrun.
  match type of Hrun with
  | (if ?c then _ else _) = _ => destruct c; [discriminate|]
  end.
  match type of Hrun with
  | (let '(o, w') := ?call in _) = _ => destruct call as [o w'] eqn:Hcall
  end.
  inversion Hrun as [[Hend Hs']]. simpl.
  destruct o as [x|e|e|]; try discriminate.
  exists opts, k.
  destruct (opts_stream opts).
  - destruct (streamSpeechToFile_resolved server _ _ _ _ _ _ _ Hcall)
      as (ro & wr & latency & res & H1 & H2 & H3 & _ & H5 & H6 & H7).
    exists ro, wr, latency, res.
    split; [reflexivity|]. split; [reflexivity|]. split; [exact H1|]. split; [exact H2|].
    split; [exact H3|]. split; [rewrite H5, Hsent; reflexivity|]. split; [exact H6|].
    intros other Hother. rewrite (H7 other Hother), Hfs. reflexivity.
  - destruct (generateSpeechToFile_resolved server _ _ _ _ _ _ Hcall)
      as (ro & wr & latency & res & H1 & H2 & H3 & _ & H5 & H6).
    exists ro, wr, latency, res.
    split; [reflexivity|]. split; [reflexivity|]. split; [exact H1|]. split; [exact H2|].
    split; [exact H3|]. split; [rewrite H5, Hsent; reflexivity|].
    rewrite H6. split; [apply lookup_insert_eq|].
    intros other Hother. rewrite lookup_insert_ne by congruence. rewrite Hfs. reflexivity.
Qed.

(** A streamed run that returns: the file holds the six bytes of the
    answer. *)
Lemma main_done_witness :
  let run := main (rt := Node.runtime) (always (NetReply 10 Examples.audio_reply))
               Shell.VOICES_PATH Shell.toLowerCase Shell.exotic_property
               ["--text"; "Hi"; "--voice"; "Ellie"; "--stream"] (Some "secret")
               (completion 2) Shell.start in
  fst run = Done /\
  fs (world (snd run)) !! "output.mp3" = Some (list_byte_of_string "ID3abc").
Proof.
  intros run. split; [reflexivity|].
  destruct (main_done (rt := Node.runtime) (always (NetReply 10 Examples.audio_reply))
              Shell.VOICES_PATH Shell.toLowerCase Shell.exotic_property
              ["--text"; "Hi"; "--voice"; "Ellie"; "--stream"] (Some "secret")
              (completion 2) Shell.start (snd run))
    as (opts & k & ro & wr & latency & res & Hparse & _ & Hserver & _ & _ & _ & Hfile & _).
  - reflexivity.
  - inversion Hparse; subst opts. inversion Hserver; subst res. exact Hfile.
Defined.

(** X21. [main] leaves through [process.exit] with the code 0 or 1 only,
    and with 0 only on [--help]: then [--help] is among the arguments, and
    the disk and the wire are as they were. A run that sent a request
    never ends in [process.exit(0)]. *)
Theorem main_exit_codes {rt : Runtime} (server : Server) VOICES_PATH toLowerCase
    exotic_property args key schedule s c s' :
  main server VOICES_PATH toLowerCase exotic_property args key schedule s = (Exit c, s') ->
  c = 1 \/ (c = 0 /\ In "--help" args /\ same_outside s s').
Proof.
  intros Hrun. unfold main, main_with_key in Hrun.
  pose proof (parseArgs_loop_outside VOICES_PATH args
                (mkOpts None None "output.mp3" false) s) as Hout.
  fold (parseArgs VOICES_PATH args) in Hout.
  destruct (parseArgs VOICES_PATH args s) as [[opts|e|c0] s1] eqn:Hparse.
  - left.
    destruct (negb (truthy_string (opts_text opts))); [congruence|].
    destruct (negb (truthy_string key)); [congruence|].
    destruct (constructor key _) as [client|e]; [|congruence].
    destruct (getVoiceMap VOICES_PATH s1) as [[voiceMap|e|c0] s2] eqn:Hmap.
    + cbv zeta in Hrun.
      match type of Hrun with
      | (if ?b then _ else _) = _ => destruct b; [congruence|]
      end.
      match type of Hrun with
      | (let '(o, w') := ?call in _) = _ => destruct call as [o w']
      end.
      destruct o; simpl in Hrun; congruence.
    + congruence.
    + exfalso. exact (getVoiceMap_no_exit _ _ _ _ Hmap).
  - left. congruence.
  - inversion Hrun; subst c0 s1.
    destruct (parseArgs_loop_exit VOICES_PATH args _ s c s' Hparse) as [-> Hin].
    right. auto.
Qed.

(** [--help] with the table in place. *)
Lemma main_exit_codes_witness :
  let run := main (rt := Node.runtime) (always (NetReply 10 Examples.audio_reply))
               Shell.VOICES_PATH Shell.toLowerCase Shell.exotic_property
               ["--text"; "Hi"; "--help"] (Some "secret") (completion 2) Shell.start in
  fst run = Exit 0 /\ same_outside Shell.start (snd run).
Proof.
  intros run. split; [reflexivity|].
  destruct (main_exit_codes (rt := Node.runtime) (always (NetReply 10 Examples.audio_reply))
              Shell.VOICES_PATH Shell.toLowerCase Shell.exotic_property
              ["--text"; "Hi"; "--help"] (Some "secret") (completion 2) Shell.start
              0 (snd run)) as [Hone|(_ & _ & Hsame)].
  - reflexivity.
  - discriminate.
  - exact Hsame.
Defined.

(** X22. A voice of the table is sent by its identifier, whatever the
    case it was typed in: in a fresh process whose voices file holds an
    object with an object of voices, when the lower-cased name is a key of
    that object and its entry is an object, [main] is the run of
    [streamSpeechToFile] or [generateSpeechToFile], as [--stream] says, of
    a client with the key of the environment, the default base URL and the
    timeout of a minute, with the text of the command line and the
    [voice_id] of the entry. *)
Theorem main_known_voice {rt : Runtime} (server : Server) VOICES_PATH toLowerCase
    exotic_property args k schedule s opts content data table v entry :
  parseArgs VOICES_PATH args s = (Continue opts, s) ->
  truthy_string (opts_text opts) = true ->
  k <> "" ->
  cachedVoiceData s = JNull ->
  fs (world s) !! VOICES_PATH = Some content ->
  JSON_parse (Buffer_toString content) = Some data ->
  get data "voices" = Normal (Some (JObj table)) ->
  opts_voice opts = Some v ->
  toLowerCase v <> "" ->
  lookup_last (toLowerCase v) table = Some (JObj entry) ->
  let w2 :=
    mkWorld (fs (world s)) (unwritable (world s)) (sent (world s))
      (parsed (world s) ++ [Buffer_toString content]) in
  let client := mkVoiceAI k BASE_URL 60000 in
  let options := speech_options opts (lookup_last "voice_id" entry) in
  let r :=
    (if opts_stream opts
     then streamSpeechToFile server client options (opts_output opts) schedule
     else generateSpeechToFile server client options (opts_output opts)) w2 in
  main server VOICES_PATH toLowerCase exotic_property args (Some k) schedule s
  = (ending (fst r), mkScript data (snd r)).
Proof.
  intros Hparse Htext Hk Hcache Hfile Hdata Hvoices Hv Hlow Hown w2 client options r.
  destruct (parseArgs_taken VOICES_PATH args s opts s Hparse) as [_ (_ & Hvoice & _)].
  destruct (Hvoice v Hv) as [Hvne _].
  rewrite (main_with_table server VOICES_PATH toLowerCase exotic_property args k schedule
             s opts content data table Hparse Htext Hk Hcache Hfile Hdata Hvoices).
  cbv zeta. rewrite Hv.
  assert (Hvt : truthy_string (Some v) = true).
  { simpl. apply String.eqb_neq in Hvne. rewrite Hvne. reflexivity. }
  assert (Hlt : truthy_string (Some (toLowerCase v)) = true).
  { simpl. apply String.eqb_neq in Hlow. rewrite Hlow. reflexivity. }
  change (toLowerCase <$> Some v) with (Some (toLowerCase v)).
  rewrite Hvt. cbv iota. rewrite Hlt. cbv iota.
  change (default "" (Some (toLowerCase v))) with (toLowerCase v).
  unfold property. rewrite Hown.
  subst r options client w2.
  cbn [truthy_property truthy andb negb voice_id_of member default]. reflexivity.
Qed.

(** [--voice Ellie] sends the identifier of [ellie]. *)
Lemma main_known_voice_witness :
  exists ro,
    sent (world (snd (main (rt := Node.runtime) (always (NetReply 10 Examples.audio_reply))
                        Shell.VOICES_PATH Shell.toLowerCase Shell.exotic_property
                        ["--text"; "Hi"; "--voice"; "Ellie"] (Some "secret")
                        (completion 2) Shell.start)))
    = [(ro, Some (WJson (speech_body
                           (mkSpeechOptions (Some "Hi") (Some (JStr "v-1")) None None None
                              None None))))].
Proof.
  rewrite (main_known_voice (rt := Node.runtime) (always (NetReply 10 Examples.audio_reply))
             Shell.VOICES_PATH Shell.toLowerCase Shell.exotic_property
             ["--text"; "Hi"; "--voice"; "Ellie"] "secret" (completion 2) Shell.start
             (mkOpts (Some "Hi") (Some "Ellie") "output.mp3" false)
             (list_byte_of_string Shell.voices_json)
             (JObj [("voices", JObj [("ellie", JObj [("voice_id", JStr "v-1")])])])
             [("ellie", JObj [("voice_id", JStr "v-1")])] "Ellie"
             [("voice_id", JStr "v-1")]).
  - eexists. vm_compute. reflexivity.
  - reflexivity.
  - reflexivity.
  - discriminate.
  - reflexivity.
  - reflexivity.
  - vm_compute. reflexivity.
  - reflexivity.
  - reflexivity.
  - vm_compute. discriminate.
  - reflexivity.
Defined.

(** X23. A name that every object inherits passes for a voice: in a fresh
    process whose voices file holds an object with an object of voices,
    when the lower-cased name asked for is not a key of that object but is
    a property of [Object.prototype], such as [constructor], the script
    does not stop at its check for unknown voices: [main] is the run of
    the operation of the client with the text of the command line and no
    [voice_id] at all. *)
Theorem main_inherited_name {rt : Runtime} (server : Server) VOICES_PATH toLowerCase
    exotic_property args k schedule s opts content data table v :
  parseArgs VOICES_PATH args s = (Continue opts, s) ->
  truthy_string (opts_text opts) = true ->
  k <> "" ->
  cachedVoiceData s = JNull ->
  fs (world s) !! VOICES_PATH = Some content ->
  JSON_parse (Buffer_toString content) = Some data ->
  get data "voices" = Normal (Some (JObj table)) ->
  opts_voice opts = Some v ->
  lookup_last (toLowerCase v) table = None ->
  In (toLowerCase v) Object_prototype ->
  let w2 :=
    mkWorld (fs (world s)) (unwritable (world s)) (sent (world s))
      (parsed (world s) ++ [Buffer_toString content]) in
  let client := mkVoiceAI k BASE_URL 60000 in
  let options := speech_options opts None in
  let r :=
    (if opts_stream opts
     then streamSpeechToFile server client options (opts_output opts) schedule
     else generateSpeechToFile server client options (opts_output opts)) w2 in
  main server VOICES_PATH toLowerCase exotic_property args (Some k) schedule s
  = (ending (fst r), mkScript data (snd r)).
Proof.
  intros Hparse Htext Hk Hcache Hfile Hdata Hvoices Hv Hown Hproto w2 client options r.
  destruct (parseArgs_taken VOICES_PATH args s opts s Hparse) as [_ (_ & Hvoice & _)].
  destruct (Hvoice v Hv) as [Hvne _].
  rewrite (main_with_table server VOICES_PATH toLowerCase exotic_property args k schedule
             s opts content data table Hparse Htext Hk Hcache Hfile Hdata Hvoices).
  cbv zeta. rewrite Hv.
  assert (Hvt : truthy_string (Some v) = true).
  { simpl. apply String.eqb_neq in Hvne. rewrite Hvne. reflexivity. }
  assert (Hlow : toLowerCase v <> "").
  { intros Heq. rewrite Heq in Hproto. vm_compute in Hproto.
    repeat (destruct Hproto as [Hproto|Hproto]; [discriminate|]). exact Hproto. }
  assert (Hlt : truthy_string (Some (toLowerCase v)) = true).
  { simpl. apply String.eqb_neq in Hlow. rewrite Hlow. reflexivity. }
  change (toLowerCase <$> Some v) with (Some (toLowerCase v)).
  rewrite Hvt. cbv iota. rewrite Hlt. cbv iota.
  change (default "" (Some (toLowerCase v))) with (toLowerCase v).
  unfold property. rewrite Hown, (inherited _ Hproto).
  subst r options client w2.
  cbn [truthy_property andb negb voice_id_of]. reflexivity.
Qed.

(** [--voice Constructor]: a request goes out, without a [voice_id]. *)
Lemma main_inherited_name_witness :
  exists ro,
    sent (world (snd (main (rt := Node.runtime) (always (NetReply 10 Examples.audio_reply))
                        Shell.VOICES_PATH Shell.toLowerCase Shell.exotic_property
                        ["--text"; "Hi"; "--voice"; "Constructor"] (Some "secret")
                        (completion 2) Shell.start)))
    = [(ro, Some (WJson (speech_body
                           (mkSpeechOptions (Some "Hi") None None None None None None))))].
Proof.
  rewrite (main_inherited_name (rt := Node.runtime)
             (always (NetReply 10 Examples.audio_reply))
             Shell.VOICES_PATH Shell.toLowerCase Shell.exotic_property
             ["--text"; "Hi"; "--voice"; "Constructor"] "secret" (completion 2) Shell.start
             (mkOpts (Some "Hi") (Some "Constructor") "output.mp3" false)
             (list_byte_of_string Shell.voices_json)
             (JObj [("voices", JObj [("ellie", JObj [("voice_id", JStr "v-1")])])])
             [("ellie", JObj [("voice_id", JStr "v-1")])] "Constructor").
  - eexists. vm_compute. reflexivity.
  - reflexivity.
  - reflexivity.
  - discriminate.
  - reflexivity.
  - reflexivity.
  - vm_compute. reflexivity.
  - reflexivity.
  - reflexivity.
  - reflexivity.
  - vm_compute. left. reflexivity.
Defined.

(** ** The key of the script that reads [.env] *)

Section Credentials.

Context {rt : Runtime}.
Variable ENV_PATH : string.
Variable trim : string -> string.
Variable obstructed : gmap string string.

Lemma drop_trailing_quote_app v q :
  is_quote q = true -> drop_trailing_quote (v ++ String q "") = v.
Proof.
  intros Hq. induction v as [|c v IH].
  - rewrite app_empty. simpl. rewrite Hq. reflexivity.
  - rewrite app_cons. simpl. rewrite IH.
    destruct (v ++ String q "") eqn:Hv; [|reflexivity].
    destruct v; discriminate.
Qed.

Lemma unquote_in_quotes q v : is_quote q = true -> unquote (in_quotes q v) = v.
Proof.
  intros Hq. unfold unquote, in_quotes. simpl. rewrite Hq.
  apply drop_trailing_quote_app. exact Hq.
Qed.

Lemma without_cr_app v q :
  Ascii.eqb q "013" = false -> without_cr (v ++ String q "") = v ++ String q "".
Proof.
  intros Hq. induction v as [|c v IH].
  - rewrite app_empty. simpl. rewrite Hq. reflexivity.
  - rewrite app_cons. simpl. rewrite IH.
    destruct (v ++ String q "") eqn:Hv; [|reflexivity].
    destruct v; discriminate.
Qed.

Lemma is_quote_cases q :
  is_quote q = true ->
  Ascii.eqb q "013" = false /\ Ascii.eqb q "010" = false /\ Ascii.eqb q "#" = false.
Proof.
  unfold is_quote. intros H. apply orb_true_iff in H.
  destruct H as [H|H]; apply Ascii.eqb_eq in H; subst q; auto.
Qed.

Lemma free_of_cons sep c rest :
  free_of sep (String c rest) = negb (Ascii.eqb c sep) && free_of sep rest.
Proof. reflexivity. Qed.

Lemma prefix_hash_cons c rest rest' :
  String.prefix "#" (String c rest) = String.prefix "#" (String c rest').
Proof.
  cbn [String.prefix]. destruct (Ascii.ascii_dec "#" c); [|reflexivity].
  destruct rest, rest'; reflexivity.
Qed.

Lemma split_on_not_nil sep text : split_on sep text <> [].
Proof.
  destruct text as [|c rest]; simpl; [discriminate|].
  destruct (Ascii.eqb c sep); [discriminate|].
  destruct (split_on sep rest); discriminate.
Qed.

Lemma dotenv_line_eq q k v :
  dotenv_line q (k, v) = k ++ String "=" (String q (v ++ String q "")).
Proof. reflexivity. Qed.

Lemma dotenv_line_quote_end q k v :
  dotenv_line q (k, v) = (k ++ String "=" (String q v)) ++ String q "".
Proof.
  rewrite dotenv_line_eq, append_assoc, !app_cons. reflexivity.
Qed.

Lemma split_lines_dotenv q k v rest :
  is_quote q = true ->
  free_of "010" k = true -> free_of "010" v = true ->
  split_lines (dotenv q ((k, v) :: rest))
  = dotenv_line q (k, v) :: split_lines (dotenv q rest).
Proof.
  intros Hq Hk Hv. destruct (is_quote_cases q Hq) as (Hcr & Hlf & _).
  unfold split_lines. simpl dotenv.
  rewrite split_on_app.
  - pose proof (split_on_not_nil "010" (dotenv q rest)) as Hne.
    destruct (split_on "010" (dotenv q rest)) as [|piece pieces]; [contradiction|].
    simpl. rewrite dotenv_line_quote_end at 1. rewrite (without_cr_app _ q Hcr).
    rewrite <- dotenv_line_quote_end. reflexivity.
  - rewrite dotenv_line_eq, free_of_app, Hk, !free_of_cons, free_of_app, Hv, free_of_cons.
    rewrite Hlf. reflexivity.
Qed.

Lemma env_line_dotenv q entry env :
  is_quote q = true ->
  well_formed trim q entry ->
  env_line trim env (dotenv_line q entry) = <[fst entry := snd entry]> env.
Proof.
  intros Hq (Heq & _ & Hhash & Hproto & _ & Htk & Htv & Htl).
  destruct entry as [k v]. simpl in *.
  unfold env_line. rewrite Htl, dotenv_line_eq.
  assert (Hne : String.eqb (k ++ String "=" (String q (v ++ String q ""))) "" = false).
  { destruct k; reflexivity. }
  assert (Hcomment :
            String.prefix "#" (k ++ String "=" (String q (v ++ String q ""))) = false).
  { destruct k as [|c k]; [reflexivity|].
    rewrite app_cons, (prefix_hash_cons c _ k). exact Hhash. }
  rewrite Hne, Hcomment. simpl orb. cbv iota.
  rewrite free_of_app, Heq. simpl andb.
  change (free_of "=" (String "=" (String q (v ++ String q "")))) with false. cbv iota.
  rewrite (cut_at_free "=" k _ Heq).
  fold (in_quotes q v). rewrite Htk, Htv, (unquote_in_quotes q v Hq).
  apply String.eqb_neq in Hproto. rewrite Hproto. reflexivity.
Qed.

Lemma fold_env_lines q entries :
  is_quote q = true ->
  trim "" = "" ->
  Forall (well_formed trim q) entries ->
  forall env,
    fold_left (env_line trim) (split_lines (dotenv q entries)) env
    = fold_left (fun m (entry : string * string) => <[fst entry := snd entry]> m)
        entries env.
Proof.
  intros Hq Hempty Hall. induction Hall as [|[k v] rest Hentry _ IH]; intros env.
  - simpl. unfold env_line. rewrite Hempty. reflexivity.
  - destruct Hentry as (Heq & Hk & Hhash & Hproto & Hv & Htk & Htv & Htl) eqn:Hwf.
    simpl in Hk, Hv.
    rewrite (split_lines_dotenv q k v rest Hq Hk Hv). simpl fold_left.
    rewrite (env_line_dotenv q (k, v) env Hq
               (conj Heq (conj Hk (conj Hhash (conj Hproto (conj Hv
                  (conj Htk (conj Htv Htl)))))))).
    apply IH.
Qed.

Lemma fold_insert_list_to_map (entries : list (string * string)) :
  forall env : gmap string string,
    fold_left (fun m (entry : string * string) => <[fst entry := snd entry]> m) entries env
    = foldr (fun (entry : string * string) m => <[fst entry := snd entry]> m) env
        (reverse entries).
Proof.
  induction entries as [|entry rest IH]; intros env; [reflexivity|].
  simpl fold_left. rewrite IH, reverse_cons, foldr_app. reflexivity.
Qed.

Lemma resolveApiKey_reads VOICE_AI_API_KEY s :
  exists result,
    (forall s', fs (world s') = fs (world s) ->
                resolveApiKey ENV_PATH trim obstructed VOICE_AI_API_KEY s' = (result, s')) /\
    (truthy_string VOICE_AI_API_KEY = true -> result = Continue VOICE_AI_API_KEY) /\
    (truthy_string VOICE_AI_API_KEY = false -> fs (world s) !! ENV_PATH = None ->
     result = match obstructed !! ENV_PATH with
              | Some code => Thrown (SystemError code)
              | None => Continue None
              end) /\
    (forall c, result <> Exits c).
Proof.
  unfold resolveApiKey.
  destruct (truthy_string VOICE_AI_API_KEY).
  { exists (Continue VOICE_AI_API_KEY).
    split; [reflexivity|]. split; [reflexivity|]. split; discriminate. }
  destruct (fs (world s) !! ENV_PATH) as [content|] eqn:Hfile.
  - exists (Continue (fold_left (env_line trim) (split_lines (Buffer_toString content)) ∅
                      !! "VOICE_AI_API_KEY")).
    split; [|split; [discriminate|split; discriminate]].
    intros s' Hfs. unfold readEnvFile, and_then, existsSync, readFileSync_existing.
    unfold Buffer in *. rewrite Hfs, Hfile.
    rewrite bool_decide_eq_true_2 by eauto. simpl.
    rewrite Hfs, Hfile. reflexivity.
  - destruct (obstructed !! ENV_PATH) as [code|] eqn:Hobs.
    + exists (Thrown (SystemError code)).
      split; [|split; [discriminate|split; [reflexivity|discriminate]]].
      intros s' Hfs. unfold readEnvFile, and_then, existsSync, readFileSync_existing.
      unfold Buffer in *. rewrite Hfs, Hfile, Hobs.
      rewrite bool_decide_eq_false_2 by (intros [x Hx]; discriminate).
      rewrite bool_decide_eq_true_2 by eauto. simpl.
      rewrite Hfs, Hfile. reflexivity.
    + exists (Continue None).
      split; [|split; [discriminate|split; [reflexivity|discriminate]]].
      intros s' Hfs. unfold readEnvFile, and_then, existsSync, readFileSync_existing.
      unfold Buffer in *. rewrite Hfs, Hfile, Hobs.
      rewrite !bool_decide_eq_false_2 by (intros [x Hx]; discriminate). reflexivity.
Qed.

End Credentials.

(** X24. The two versions of the script differ in the key only.
    [resolveApiKey] touches nothing. It returns the variable of the
    environment when that is set and not empty, whatever the disk holds.
    When the variable is unset or empty and no file can be read at the
    path of [.env], it returns nothing if there is nothing at that path,
    and throws if something is there that cannot be read. The script that
    reads [.env] then runs exactly as the other script does with the key
    so resolved in its environment, and, when [resolveApiKey] throws, as
    the other script does without a key. *)
Theorem main_dotenv_resolves {rt : Runtime} (server : Server) VOICES_PATH toLowerCase
    exotic_property ENV_PATH trim obstructed args VOICE_AI_API_KEY schedule s :
  let resolved := resolveApiKey ENV_PATH trim obstructed VOICE_AI_API_KEY s in
  snd resolved = s /\
  (truthy_string VOICE_AI_API_KEY = true -> fst resolved = Continue VOICE_AI_API_KEY) /\
  (truthy_string VOICE_AI_API_KEY = false -> fs (world s) !! ENV_PATH = None ->
   fst resolved = match obstructed !! ENV_PATH with
                  | Some code => Thrown (SystemError code)
                  | None => Continue None
                  end) /\
  main_dotenv server VOICES_PATH toLowerCase exotic_property ENV_PATH trim obstructed args
    VOICE_AI_API_KEY schedule s
  = main server VOICES_PATH toLowerCase exotic_property args
      (match fst resolved with Continue key => key | _ => None end) schedule s.
Proof.
  intros resolved.
  destruct (resolveApiKey_reads ENV_PATH trim obstructed VOICE_AI_API_KEY s)
    as (result & Hkey & Hset & Hunset & Hexit).
  assert (Hres : resolved = (result, s)) by (apply Hkey; reflexivity).
  rewrite Hres. simpl.
  split; [reflexivity|]. split; [exact Hset|]. split; [exact Hunset|].
  unfold main_dotenv, main.
  pose proof (parseArgs_loop_outside VOICES_PATH args
                (mkOpts None None "output.mp3" false) s) as Hout.
  fold (parseArgs VOICES_PATH args) in Hout.
  destruct (parseArgs VOICES_PATH args s) as [[opts|e|c] s1]; try reflexivity.
  destruct Hout as (Hfs & _). simpl in Hfs.
  destruct (negb (truthy_string (opts_text opts))); [reflexivity|].
  rewrite (Hkey s1 Hfs).
  destruct result as [key|e|c]; [reflexivity|reflexivity|].
  exfalso. exact (Hexit c eq_refl).
Qed.

(** Something that cannot be read stands at the path of [.env], and the
    variable is unset: the script gives up with the code 1. *)
Lemma main_dotenv_resolves_witness :
  let obstructed : gmap string string := <[Shell.ENV_PATH := "EISDIR"]> ∅ in
  fst (resolveApiKey (rt := Node.runtime) Shell.ENV_PATH Shell.trim obstructed None
         Shell.start)
  = Thrown (SystemError "EISDIR") /\
  main_dotenv (rt := Node.runtime) (always (NetReply 10 Examples.audio_reply))
    Shell.VOICES_PATH Shell.toLowerCase Shell.exotic_property Shell.ENV_PATH
    Shell.trim obstructed ["--text"; "Hi"] None (completion 2) Shell.start
  = (Exit 1, Shell.start).
Proof.
  intros obstructed.
  destruct (main_dotenv_resolves (rt := Node.runtime)
              (always (NetReply 10 Examples.audio_reply))
              Shell.VOICES_PATH Shell.toLowerCase Shell.exotic_property Shell.ENV_PATH
              Shell.trim obstructed ["--text"; "Hi"] None (completion 2) Shell.start)
    as (_ & _ & Hunset & Hmain).
  split; [exact (Hunset eq_refl eq_refl)|].
  rewrite Hmain. reflexivity.
Defined.

(** X25. A [.env] written as lines [KEY="value"], or with single quotes
    throughout, is read back entry by entry: when no key has a [=] or a
    line feed in it, starts with [#] or is [__proto__], no value has a line
    feed in it, and [trim] finds nothing to take from the keys, the quoted
    values and the lines, [readEnvFile] returns the object that maps each
    key to its value as written between the quotes, a later line for a key
    replacing an earlier one; and [resolveApiKey], when the variable of
    the environment is unset or empty, returns what that object has for
    [VOICE_AI_API_KEY]. *)
Theorem readEnvFile_dotenv {rt : Runtime} ENV_PATH trim obstructed s content q entries
    VOICE_AI_API_KEY :
  is_quote q = true ->
  trim "" = "" ->
  fs (world s) !! ENV_PATH = Some content ->
  Buffer_toString content = dotenv q entries ->
  Forall (well_formed trim q) entries ->
  let env : gmap string string := list_to_map (reverse entries) in
  readEnvFile ENV_PATH trim obstructed s = (Continue env, s) /\
  (truthy_string VOICE_AI_API_KEY = false ->
   resolveApiKey ENV_PATH trim obstructed VOICE_AI_API_KEY s
   = (Continue (env !! "VOICE_AI_API_KEY"), s)).
Proof.
  intros Hq Hempty Hfile Htext Hall env.
  assert (Hread : readEnvFile ENV_PATH trim obstructed s = (Continue env, s)).
  { unfold readEnvFile, and_then, existsSync, readFileSync_existing.
    unfold Buffer in *. rewrite Hfile.
    rewrite bool_decide_eq_true_2 by eauto. simpl. rewrite Hfile.
    rewrite Htext, (fold_env_lines trim q entries Hq Hempty Hall).
    rewrite fold_insert_list_to_map. reflexivity. }
  split; [exact Hread|].
  intros Hunset. unfold resolveApiKey, and_then. rewrite Hunset, Hread. reflexivity.
Qed.

(** Two lines for the key, and a value with blanks at both ends: the
    second line wins, and the blanks are kept. *)
Lemma readEnvFile_dotenv_witness :
  let entries :=
    [("VOICE_AI_API_KEY", "old"); ("GREETING", " hello "); ("VOICE_AI_API_KEY", "s3cret")] in
  let s :=
    mkScript JNull
      (mkWorld (<[Shell.ENV_PATH := list_byte_of_string (dotenv "034" entries)]> ∅) ∅ [] []) in
  resolveApiKey (rt := Node.runtime) Shell.ENV_PATH Shell.trim ∅ None s
  = (Continue (Some "s3cret"), s).
Proof.
  intros entries s.
  destruct (readEnvFile_dotenv (rt := Node.runtime) Shell.ENV_PATH Shell.trim ∅ s
              (list_byte_of_string (dotenv "034" entries)) "034" entries None)
    as [_ Hkey].
  - reflexivity.
  - reflexivity.
  - reflexivity.
  - vm_compute. reflexivity.
  - subst entries.
    repeat (apply List.Forall_cons;
            [unfold well_formed; simpl;
             repeat (split; [first [reflexivity | discriminate]|]);
             reflexivity|]).
    apply List.Forall_nil.
  - rewrite (Hkey eq_refl). reflexivity.
Defined.
